(** * PNG encoder (png/writer.go): a shallow embedding and its properties

    The development follows the layout of [png/writer.go]:
    - bytes are integers in [0, 256) (type [Z]); every store into a byte
      buffer writes its wrap-around ([u8]) out;
    - Go slices are lists; an index or slice expression that Go would
      reject at run time makes the embedded function return [None]
      (a run-time panic);
    - the encoder session is a record threaded through the chunk
      writers, with the sticky error [err] as one of its fields. *)

From Stdlib Require Import ZArith List Lia Bool String Ascii.
From stdpp Require Import base option list pretty.

Local Open Scope Z_scope.

(** ** Bytes *)

Definition u8 (x : Z) : Z := x mod 256.

Definition is_byte (x : Z) : Prop := 0 <= x < 256.

Definition bytes (l : list Z) : Prop := Forall is_byte l.

(** [abs8]: the absolute value of a byte interpreted as a signed int8. *)
Definition abs8 (d : Z) : Z :=
  if d <? 128 then d else 256 - d.

(** ** Filter types

    Modelled from the spec: the constants [ftNone] .. [ftPaeth] and
    [nFilter] are declared in the reader, which is not part of the
    sources at hand.  Their values are the PNG filter-type bytes, in the
    enumeration order that the comment in [filter] recalls
    (ftNone, ftSub, ftUp, ftAverage, ftPaeth); [filter] stores the Sub row
    in [cr[1]], the Up row in [cr[2]], the Average row in [cr[3]] and the
    Paeth row in [cr[4]]. *)
Definition ftNone : nat := 0.
Definition ftSub : nat := 1.
Definition ftUp : nat := 2.
Definition ftAverage : nat := 3.
Definition ftPaeth : nat := 4.
Definition nFilter : nat := 5.

(** Modelled from the spec: [paeth] lives in a file that is not part of
    the sources at hand.  It returns whichever of a, b, c is closest to
    a+b-c, ties resolved in the order a, b, c. *)
Definition paeth (a b c : Z) : Z :=
  let p := a + b - c in
  let pa := Z.abs (p - a) in
  let pb := Z.abs (p - b) in
  let pc := Z.abs (p - c) in
  if (pa <=? pb) && (pa <=? pc) then a
  else if pb <=? pc then b
  else c.

(** ** Slices and loops *)

(** [buf[i] = v]; Go panics when [i] is out of range. *)
Definition store (buf : list Z) (i : nat) (v : Z) : option (list Z) :=
  if decide (i < length buf)%nat then Some (<[i := v]> buf) else None.

(** [buf[1:]], keeping the first byte aside so the buffer can be put
    together again: the slice aliases the buffer. *)
Definition split_tag (buf : list Z) : option (Z * list Z) :=
  match buf with
  | [] => None
  | t :: d => Some (t, d)
  end.

(** [for i := lo; i < lo + k; i++ { body }].  The body returns [None]
    on a panic and [Some (s, true)] on [break]. *)
Fixpoint for_loop {S : Type} (k : nat) (i : nat)
    (body : nat -> S -> option (S * bool)) (s : S) : option S :=
  match k with
  | O => Some s
  | Datatypes.S k' =>
      match body i s with
      | None => None
      | Some (s', true) => Some s'
      | Some (s', false) => for_loop k' (Datatypes.S i) body s'
      end
  end.

(** The five row buffers [cr [nFilter][]byte]. *)
Record rows := Rows {
  row0 : list Z;
  row1 : list Z;
  row2 : list Z;
  row3 : list Z;
  row4 : list Z
}.

(** [cr[f]] *)
Definition rows_get (cr : rows) (f : nat) : option (list Z) :=
  match f with
  | 0%nat => Some (row0 cr)
  | 1%nat => Some (row1 cr)
  | 2%nat => Some (row2 cr)
  | 3%nat => Some (row3 cr)
  | 4%nat => Some (row4 cr)
  | _ => None
  end.

(** ** The filter selector *)

Module Filter.

(** The loop bodies of [filter], one per loop of the source.  The state
    of a loop is the buffer it writes and the running [sum]. *)

Definition up_body (cdat0 pdat : list Z) (i : nat) (st : list Z * Z)
    : option ((list Z * Z) * bool) :=
  let '(cdat2, sum) := st in
  c ← cdat0 !! i;
  p ← pdat !! i;
  let v := u8 (c - p) in
  cdat2 ← store cdat2 i v;
  Some ((cdat2, sum + abs8 v), false).

Definition paeth_head_body (cdat0 pdat : list Z) (i : nat) (st : list Z * Z)
    : option ((list Z * Z) * bool) :=
  let '(cdat4, sum) := st in
  c ← cdat0 !! i;
  p ← pdat !! i;
  let v := u8 (c - p) in
  cdat4 ← store cdat4 i v;
  Some ((cdat4, sum + abs8 v), false).

Definition paeth_body (cdat0 pdat : list Z) (bpp : nat) (best : Z)
    (i : nat) (st : list Z * Z) : option ((list Z * Z) * bool) :=
  let '(cdat4, sum) := st in
  c ← cdat0 !! i;
  a ← cdat0 !! (i - bpp)%nat;
  b ← pdat !! i;
  cc ← pdat !! (i - bpp)%nat;
  let v := u8 (c - paeth a b cc) in
  cdat4 ← store cdat4 i v;
  let sum := sum + abs8 v in
  Some ((cdat4, sum), sum >=? best).

Definition none_body (cdat0 : list Z) (best : Z) (i : nat) (sum : Z)
    : option (Z * bool) :=
  c ← cdat0 !! i;
  let sum := sum + abs8 c in
  Some (sum, sum >=? best).

Definition sub_head_body (cdat0 : list Z) (i : nat) (st : list Z * Z)
    : option ((list Z * Z) * bool) :=
  let '(cdat1, sum) := st in
  c ← cdat0 !! i;
  cdat1 ← store cdat1 i c;
  Some ((cdat1, sum + abs8 c), false).

Definition sub_body (cdat0 : list Z) (bpp : nat) (best : Z)
    (i : nat) (st : list Z * Z) : option ((list Z * Z) * bool) :=
  let '(cdat1, sum) := st in
  c ← cdat0 !! i;
  a ← cdat0 !! (i - bpp)%nat;
  let v := u8 (c - a) in
  cdat1 ← store cdat1 i v;
  let sum := sum + abs8 v in
  Some ((cdat1, sum), sum >=? best).

Definition average_head_body (cdat0 pdat : list Z) (i : nat)
    (st : list Z * Z) : option ((list Z * Z) * bool) :=
  let '(cdat3, sum) := st in
  c ← cdat0 !! i;
  p ← pdat !! i;
  let v := u8 (c - p / 2) in
  cdat3 ← store cdat3 i v;
  Some ((cdat3, sum + abs8 v), false).

Definition average_body (cdat0 pdat : list Z) (bpp : nat) (best : Z)
    (i : nat) (st : list Z * Z) : option ((list Z * Z) * bool) :=
  let '(cdat3, sum) := st in
  c ← cdat0 !! i;
  a ← cdat0 !! (i - bpp)%nat;
  p ← pdat !! i;
  (* uint8((int(cdat0[i-bpp]) + int(pdat[i])) / 2): the sum is taken on
     ints, so it does not wrap; only the result is cut to a byte. *)
  let v := u8 (c - u8 ((a + p) / 2)) in
  cdat3 ← store cdat3 i v;
  let sum := sum + abs8 v in
  Some ((cdat3, sum), sum >=? best).

(** [filter(cr, pr, bpp)]: chooses the filter for the current row and
    applies it.  Returns the filter index and the row buffers as the
    loops left them.  [sum] and [best] are Go ints; a row of [n] bytes
    sums to at most [128 * n], far below the int range, so they are
    plain integers here. *)
Definition filter (cr : rows) (pr : list Z) (bpp : nat)
    : option (nat * rows) :=
  '(t0, cdat0) ← split_tag (row0 cr);
  '(t1, cdat1) ← split_tag (row1 cr);
  '(t2, cdat2) ← split_tag (row2 cr);
  '(t3, cdat3) ← split_tag (row3 cr);
  '(t4, cdat4) ← split_tag (row4 cr);
  '(_, pdat) ← split_tag pr;
  let n := length cdat0 in
  (* The up filter. *)
  '(cdat2, sum) ← for_loop n 0 (up_body cdat0 pdat) (cdat2, 0);
  let best := sum in
  let filter := ftUp in
  (* The Paeth filter. *)
  '(cdat4, sum) ← for_loop bpp 0 (paeth_head_body cdat0 pdat) (cdat4, 0);
  '(cdat4, sum) ←
    for_loop (n - bpp) bpp (paeth_body cdat0 pdat bpp best) (cdat4, sum);
  let '(best, filter) :=
    if sum <? best then (sum, ftPaeth) else (best, filter) in
  (* The none filter. *)
  sum ← for_loop n 0 (none_body cdat0 best) 0;
  let '(best, filter) :=
    if sum <? best then (sum, ftNone) else (best, filter) in
  (* The sub filter. *)
  '(cdat1, sum) ← for_loop bpp 0 (sub_head_body cdat0) (cdat1, 0);
  '(cdat1, sum) ←
    for_loop (n - bpp) bpp (sub_body cdat0 bpp best) (cdat1, sum);
  let '(best, filter) :=
    if sum <? best then (sum, ftSub) else (best, filter) in
  (* The average filter. *)
  '(cdat3, sum) ← for_loop bpp 0 (average_head_body cdat0 pdat) (cdat3, 0);
  '(cdat3, sum) ←
    for_loop (n - bpp) bpp (average_body cdat0 pdat bpp best) (cdat3, sum);
  let filter := if sum <? best then ftAverage else filter in
  Some (filter,
        Rows (t0 :: cdat0) (t1 :: cdat1) (t2 :: cdat2) (t3 :: cdat3)
             (t4 :: cdat4)).

End Filter.

(** ** The filter formulas and the exhaustive selection, as the
    specification words them *)

Module FilterSpec.

Definition byte_at (l : list Z) (i : nat) : Z := nth i l 0.

(** [cur[i-bpp]], which is 0 for [i < bpp]. *)
Definition left_of (bpp : nat) (l : list Z) (i : nat) : Z :=
  if (i <? bpp)%nat then 0 else byte_at l (i - bpp).

Definition none_byte (cur : list Z) (i : nat) : Z := byte_at cur i.

Definition sub_byte (bpp : nat) (cur : list Z) (i : nat) : Z :=
  u8 (byte_at cur i - left_of bpp cur i).

Definition up_byte (cur prev : list Z) (i : nat) : Z :=
  u8 (byte_at cur i - byte_at prev i).

(** The sum [cur[i-bpp] + prev[i]] is halved as an integer (0..510). *)
Definition average_byte (bpp : nat) (cur prev : list Z) (i : nat) : Z :=
  u8 (byte_at cur i - (left_of bpp cur i + byte_at prev i) / 2).

(** The reading under which the sum is itself a byte (taken modulo 256)
    before it is halved. *)
Definition average_byte_wrapping (bpp : nat) (cur prev : list Z) (i : nat)
    : Z :=
  u8 (byte_at cur i - u8 (left_of bpp cur i + byte_at prev i) / 2).

Definition paeth_byte (bpp : nat) (cur prev : list Z) (i : nat) : Z :=
  u8 (byte_at cur i
      - paeth (left_of bpp cur i) (byte_at prev i) (left_of bpp prev i)).

(** The byte formula of filter type [f]. *)
Definition filter_byte (f : nat) (bpp : nat) (cur prev : list Z) (i : nat)
    : Z :=
  match f with
  | 0%nat => none_byte cur i
  | 1%nat => sub_byte bpp cur i
  | 2%nat => up_byte cur prev i
  | 3%nat => average_byte bpp cur prev i
  | _ => paeth_byte bpp cur prev i
  end.

(** The fully filtered row under filter type [f]. *)
Definition filtered (f : nat) (bpp : nat) (cur prev : list Z) : list Z :=
  map (filter_byte f bpp cur prev) (seq 0 (length cur)).

(** The sum of [abs8] over a row. *)
Definition total (row : list Z) : Z :=
  fold_right (fun d acc => abs8 d + acc) 0 row.

Definition cost (f : nat) (bpp : nat) (cur prev : list Z) : Z :=
  total (filtered f bpp cur prev).

(** The fixed priority order. *)
Definition priority : list nat := [ftUp; ftPaeth; ftNone; ftSub; ftAverage].

(** One round of the exhaustive search: the candidate [g] replaces the
    incumbent only when its total is strictly less. *)
Definition challenge (bpp : nat) (cur prev : list Z) (inc : nat * Z)
    (g : nat) : nat * Z :=
  if cost g bpp cur prev <? snd inc then (g, cost g bpp cur prev) else inc.

(** The exhaustive selection: every candidate's total is computed in
    full. *)
Definition exhaustive (bpp : nat) (cur prev : list Z) : nat :=
  fst (fold_left (challenge bpp cur prev)
                 [ftPaeth; ftNone; ftSub; ftAverage]
                 (ftUp, cost ftUp bpp cur prev)).

(** The row buffers as [writeImage] hands them to [filter]: buffer [f]
    carries the tag [f] in byte 0 and has room for [n] more bytes. *)
Definition tagged (cr : rows) (n : nat) : Prop :=
  forall f, (f < nFilter)%nat ->
    exists d, rows_get cr f = Some (Z.of_nat f :: d) /\ length d = n.

End FilterSpec.

(** ** Integers, slices and strings of the encoder *)

Definition u16 (x : Z) : Z := x mod 65536.
Definition u32 (x : Z) : Z := x mod 4294967296.

(** Go's [int] and [int64] are 64 bits wide on the platforms considered;
    [wrap_int] is their wrap-around. *)
Definition wrap_int (x : Z) : Z :=
  (x + 9223372036854775808) mod 18446744073709551616 - 9223372036854775808.

(** [binary.BigEndian.PutUint16] and [PutUint32], as the bytes stored. *)
Definition be16 (v : Z) : list Z := [u8 (Z.shiftr v 8); u8 v].
Definition be32 (v : Z) : list Z :=
  [u8 (Z.shiftr v 24); u8 (Z.shiftr v 16); u8 (Z.shiftr v 8); u8 v].

(** [binary.BigEndian.Uint32], used to read a chunk length back. *)
Definition be32_decode (b : list Z) : Z :=
  match b with
  | [b0; b1; b2; b3] => ((b0 * 256 + b1) * 256 + b2) * 256 + b3
  | _ => 0
  end.

(** The bytes of a string literal. *)
Definition str_bytes (s : string) : list Z :=
  map (fun c => Z.of_nat (nat_of_ascii c)) (list_ascii_of_string s).

(** [copy(buf[off:], data)]: the slice expression panics when [off] is
    past the end; [copy] then moves as many bytes as fit. *)
Definition copy_at (buf : list Z) (off : nat) (data : list Z)
    : option (list Z) :=
  if decide (off <= length buf)%nat then
    let k := Nat.min (length buf - off) (length data) in
    Some (take off buf ++ take k data ++ drop (off + k) buf)
  else None.

(** [copy(buf[off:off+len(data)], data)], as in [PutUint32(buf[a:b], v)]
    and [copy(e.tmp[:len(key)], key)]: the slice expression panics when it
    reaches past the end of [buf]. *)
Definition blit (buf : list Z) (off : nat) (data : list Z)
    : option (list Z) :=
  if decide (off + length data <= length buf)%nat then
    Some (take off buf ++ data ++ drop (off + length data) buf)
  else None.

(** [buf[lo:hi]] *)
Definition slice (buf : list Z) (lo hi : nat) : option (list Z) :=
  if decide (lo <= hi /\ hi <= length buf)%nat then
    Some (take (hi - lo) (drop lo buf))
  else None.

(** ** Go strings under [range]

    [for i, b := range s] walks a string rune by rune: [i] is the byte
    offset of the rune and [b] its code point, with U+FFFD and width 1
    for bytes that do not start a well-formed UTF-8 sequence (language
    semantics, as in [utf8.DecodeRuneInString]). *)
Module GoString.

Definition RuneError : Z := 65533.

Definition continuation (b : Z) : bool := (128 <=? b) && (b <=? 191).

Definition within (lo hi b : Z) : bool := (lo <=? b) && (b <=? hi).

(** The rune at the head of [b0 :: rest] and its width in bytes. *)
Definition decode_rune (b0 : Z) (rest : list Z) : Z * nat :=
  if b0 <? 128 then (b0, 1%nat)
  else if within 194 223 b0 then
    match rest with
    | b1 :: _ =>
        if continuation b1
        then (Z.land b0 31 * 64 + Z.land b1 63, 2%nat)
        else (RuneError, 1%nat)
    | _ => (RuneError, 1%nat)
    end
  else if within 224 239 b0 then
    match rest with
    | b1 :: b2 :: _ =>
        let lo := if b0 =? 224 then 160 else 128 in
        let hi := if b0 =? 237 then 159 else 191 in
        if within lo hi b1 && continuation b2
        then ((Z.land b0 15 * 64 + Z.land b1 63) * 64 + Z.land b2 63, 3%nat)
        else (RuneError, 1%nat)
    | _ => (RuneError, 1%nat)
    end
  else if within 240 244 b0 then
    match rest with
    | b1 :: b2 :: b3 :: _ =>
        let lo := if b0 =? 240 then 144 else 128 in
        let hi := if b0 =? 244 then 143 else 191 in
        if within lo hi b1 && continuation b2 && continuation b3
        then (((Z.land b0 7 * 64 + Z.land b1 63) * 64 + Z.land b2 63) * 64
              + Z.land b3 63, 4%nat)
        else (RuneError, 1%nat)
    | _ => (RuneError, 1%nat)
    end
  else (RuneError, 1%nat).

(** The pairs [(i, b)] that [range s] yields, for the part of the string
    that starts at offset [i]. *)
Fixpoint runes_from (fuel : nat) (i : nat) (s : list Z) : list (nat * Z) :=
  match fuel with
  | O => []
  | S fuel' =>
      match s with
      | [] => []
      | b0 :: rest =>
          let '(r, w) := decode_rune b0 rest in
          (i, r) :: runes_from fuel' (i + w) (drop (w - 1) rest)
      end
  end.

Definition range (s : list Z) : list (nat * Z) :=
  runes_from (length s) 0 s.

End GoString.

(** ** Errors *)

Inductive error :=
| FormatError (msg : string)
| UnsupportedError (msg : string)
| OptionError (msg : string)        (* built with fmt.Errorf *)
| SinkError (code : nat)            (* returned by the output sink *)
| HookError (code : nat)            (* returned by a metadata hook *)
| CompressError (code : nat).       (* returned by the compressor *)

(** [strconv.Itoa] and [strconv.FormatInt(_, 10)] *)
Definition Itoa (n : Z) : string := pretty n.

(** ** The output sink

    An [io.Writer] that may fail: [fail_at k = Some (n, err)] makes the
    [k]-th call to [Write] take [n] bytes at most and return [err]. *)
Record sink := Sink {
  out : list Z;
  calls : nat;
  fail_at : nat -> option (nat * error)
}.

Definition sink_write (w : sink) (b : list Z) : sink * option error :=
  match fail_at w (calls w) with
  | None => (Sink (out w ++ b) (S (calls w)) (fail_at w), None)
  | Some (n, err) =>
      (Sink (out w ++ take n b) (S (calls w)) (fail_at w), Some err)
  end.

(** A sink that takes every write. *)
Definition accepting (w : sink) : Prop := forall k, fail_at w k = None.

Definition fresh_sink : sink := Sink [] 0 (fun _ => None).

(** ** External collaborators

    The CRC-32 and deflate primitives are consumed as black boxes.
    [zlib_bytes level input] is the outcome of compressing [input] into
    a memory buffer, as [pngCompress] does.  The streaming compressor
    that [writeImage] drives sits on a [bufio.Writer], which hands blocks
    of compressed bytes to the encoder's [Write]; [zs_write], [zs_close]
    and [zs_flush] give the blocks that [zw.Write], [zw.Close] and
    [bw.Flush] hand over. *)
Class Collaborators := {
  crc32_IEEE : list Z -> Z;
  zlib_bytes : Z -> list Z -> error + list Z;
  zstream : Type;
  zs_new : Z -> zstream;
  zs_write : zstream -> list Z -> zstream * list (list Z);
  zs_close : zstream -> zstream * list (list Z);
  zs_flush : zstream -> list (list Z)
}.

(** ** Images, palettes and metadata

    The image abstraction, the colour package and the metadata types are
    declared outside [writer.go]; they are modelled by what the encoder
    asks of them. *)

(** [CompressionLevel] *)
Definition DefaultCompression : Z := 0.
Definition NoCompression : Z := -1.
Definition BestSpeed : Z := -2.
Definition BestCompression : Z := -3.

(** The levels of [compress/zlib]. *)
Module zlib.
Definition NoCompression : Z := 0.
Definition BestSpeed : Z := 1.
Definition BestCompression : Z := 9.
Definition DefaultCompression : Z := -1.
End zlib.

Definition levelToZlib (l : Z) : Z :=
  if l =? DefaultCompression then zlib.DefaultCompression
  else if l =? NoCompression then zlib.NoCompression
  else if l =? BestSpeed then zlib.BestSpeed
  else if l =? BestCompression then zlib.BestCompression
  else zlib.DefaultCompression.

(** Modelled from the spec: the colour/bit-depth combinations [cb*] are
    declared in the reader, which is not part of the sources at hand.
    These are the ones the encoder names; [cbInvalid] is the zero value
    of the field [cb]. *)
Inductive cb :=
| cbInvalid | cbG8 | cbTC8 | cbP8 | cbP4 | cbP2 | cbP1
| cbTCA8 | cbG16 | cbTC16 | cbTCA16.

#[global] Instance cb_eq_dec : EqDecision cb.
Proof. solve_decision. Defined.

(** Modelled from the spec: the PNG colour types [ct*], declared in the
    reader as well. *)
Definition ctGrayscale : Z := 0.
Definition ctTrueColor : Z := 2.
Definition ctPaletted : Z := 3.
Definition ctTrueColorAlpha : Z := 6.

(** Modelled from the spec: the 8-byte PNG signature [pngHeader]. *)
Definition pngHeader : list Z := [137; 80; 78; 71; 13; 10; 26; 10].

(** A palette entry, as [color.NRGBAModel.Convert] returns it. *)
Record NRGBA := { R : Z; G : Z; B : Z; A : Z }.

Definition Palette := list NRGBA.

Record Rectangle := { MinX : Z; MinY : Z; MaxX : Z; MaxY : Z }.

Definition Dx (r : Rectangle) : Z := wrap_int (MaxX r - MinX r).
Definition Dy (r : Rectangle) : Z := wrap_int (MaxY r - MinY r).

(** The colour models the encoder tells apart.  A [color.Palette] is a
    slice and may be nil. *)
Inductive ColorModel :=
| GrayModel | Gray16Model | RGBAModel | NRGBAModel | AlphaModel
| OtherModel
| PaletteModel (p : option Palette).

(** A source image with live pixels. *)
Record PixelImage := {
  Bounds : Rectangle;
  Model : ColorModel;
  (* whether the image implements [image.PalettedImage] *)
  is_PalettedImage : bool;
  (* [Opaque()], when the image implements [opaquer] *)
  Opaquer : option bool;
  (* the alpha channel of [At(x, y).RGBA()] *)
  alpha_at : Z -> Z -> Z;
  (* the bytes that the scanline conversion of [writeImage] stores in
     [cr[0][1:]] for row [y] under the mode [cb] *)
  scanline : cb -> Z -> list Z
}.

(** A deferred image: the chunks as they were read, each with its
    trailing CRC; the slices may be nil. *)
Record Deferred := {
  ihdr : option (list Z);
  plte : option (list Z);
  trns : option (list Z);
  idat : option (list Z)
}.

Inductive Image :=
| Pixels (m : PixelImage)
| IsDeferred (di : Deferred).

Record Chroma := {
  WhiteX : Z; WhiteY : Z; RedX : Z; RedY : Z;
  GreenX : Z; GreenY : Z; BlueX : Z; BlueY : Z
}.

Record Dimension := { dimX : Z; dimY : Z; dimUnit : Z }.

(** [LastModified.UTC()], by its fields. *)
Record Time := {
  Year : Z; Month : Z; Day : Z; Hour : Z; Minute : Z; Second : Z
}.

(** Modelled from the spec: the text entry types; a value outside the
    three named ones is [EtOther]. *)
Inductive EntryType := EtText | EtZtext | EtItext | EtOther.

Record TextEntry := {
  Key : list Z;
  Value : list Z;
  LanguageTag : list Z;
  TranslatedKey : list Z;
  entryType : EntryType
}.

(** Modelled from the spec: the metadata bundle, field by field as the
    encoder reads it.  [icc] and [xmp] hold the outcome of the object's
    [Encode] hook when an object is registered; [validate] is the outcome
    of the bundle's own validation. *)
Record Metadata := {
  Gamma : option Z;
  chroma : option Chroma;
  SRGBIntent : option Z;
  LastModified : option Time;
  icc : option (error + list Z);
  rawIcc : list Z;
  iccName : list Z;
  dimension : option Dimension;
  xmp : option (error + list Z);
  rawXmp : option (list Z);
  Histogram : option (list Z);
  Text : list TextEntry;
  validate : option error
}.

(** Modelled from the spec: the reserved key under which XMP is stored. *)
Definition xmpTextKey : list Z := str_bytes "XML:com.adobe.xmp".

(** An [image.WriteOption]: a metadata bundle or a value of some other
    type, known by the name of its type. *)
Inductive WriteOption :=
| OptMetadata (m : Metadata)
| OptOther (type_name : string).

(** ** The encoder session *)

(** [Encoder]: the compression level.  The buffer pool only recycles
    scratch memory, which every writer fills before it reads it; the
    session of the model is always a fresh one. *)
Record Encoder := { CompressionLevel : Z }.

(** [encoder]: the fields that the chunk writers share.  [header] and
    [footer] are scratch for [writeChunk] alone and are not kept; the
    image [m] is passed to the writers that read it; the row buffers and
    the compressor belong to the row loop ([row_state]). *)
Record encoder := {
  enc : Encoder;
  w : sink;
  cbits : cb;
  err : option error;
  tmp : list Z
}.

Definition set_w (e : encoder) (s : sink) : encoder :=
  {| enc := enc e; w := s; cbits := cbits e; err := err e; tmp := tmp e |}.
Definition set_err (e : encoder) (r : option error) : encoder :=
  {| enc := enc e; w := w e; cbits := cbits e; err := r; tmp := tmp e |}.
Definition set_tmp (e : encoder) (t : list Z) : encoder :=
  {| enc := enc e; w := w e; cbits := cbits e; err := err e; tmp := t |}.
Definition set_cb (e : encoder) (c : cb) : encoder :=
  {| enc := enc e; w := w e; cbits := c; err := err e; tmp := tmp e |}.

(** [e.w.Write(b)], storing the error in [e.err]. *)
Definition write_to_sink (e : encoder) (b : list Z) : encoder :=
  let '(s, r) := sink_write (w e) b in
  set_err (set_w e s) r.

Section Session.

Context `{Collaborators}.

(** [writeChunk(b, name)].  [name] is one of the four-letter literals of
    the call sites. *)
Definition writeChunk (e : encoder) (b : list Z) (name : string) : encoder :=
  match err e with
  | Some _ => e
  | None =>
      let n := u32 (Z.of_nat (length b)) in
      if negb (n =? Z.of_nat (length b)) then
        set_err e (Some (UnsupportedError
          (name ++ " chunk is too large: " ++ Itoa (Z.of_nat (length b)))))
      else
        let header := be32 n ++ take 4 (str_bytes name) in
        let footer := be32 (crc32_IEEE (drop 4 header ++ b)) in
        let e := write_to_sink e header in
        match err e with
        | Some _ => e
        | None =>
            let e := write_to_sink e b in
            match err e with
            | Some _ => e
            | None => write_to_sink e footer
            end
        end
  end.

(** The bytes of a chunk on the wire. *)
Definition frame (name : string) (b : list Z) : list Z :=
  be32 (Z.of_nat (length b)) ++ take 4 (str_bytes name) ++ b
  ++ be32 (crc32_IEEE (take 4 (str_bytes name) ++ b)).

(** Bit depth and colour type of [writeIHDR]'s switch; a value of [cb]
    outside the switch leaves the two bytes of [tmp] as they are. *)
Definition depth_and_type (c : cb) : option (Z * Z) :=
  match c with
  | cbG8 => Some (8, ctGrayscale)
  | cbTC8 => Some (8, ctTrueColor)
  | cbP8 => Some (8, ctPaletted)
  | cbP4 => Some (4, ctPaletted)
  | cbP2 => Some (2, ctPaletted)
  | cbP1 => Some (1, ctPaletted)
  | cbTCA8 => Some (8, ctTrueColorAlpha)
  | cbG16 => Some (16, ctGrayscale)
  | cbTC16 => Some (16, ctTrueColor)
  | cbTCA16 => Some (16, ctTrueColorAlpha)
  | cbInvalid => None
  end.

Definition writeIHDR (e : encoder) (m : PixelImage) : option encoder :=
  let b := Bounds m in
  t ← blit (tmp e) 0 (be32 (u32 (Dx b)));
  t ← blit t 4 (be32 (u32 (Dy b)));
  t ← match depth_and_type (cbits e) with
      | Some (depth, ct) => t ← store t 8 depth; store t 9 ct
      | None => Some t
      end;
  t ← store t 10 0;
  t ← store t 11 0;
  t ← store t 12 0;
  b ← slice t 0 13;
  Some (writeChunk (set_tmp e t) b "IHDR").

End Session.

Section Writers.

Context `{Collaborators}.

(** [pngCompress]: the compressed bytes and the compression method,
    which is always 0. *)
Definition pngCompress (e : encoder) (input : list Z)
    : error + (list Z * Z) :=
  let level := levelToZlib (CompressionLevel (enc e)) in
  match zlib_bytes level input with
  | inl r => inl r
  | inr b => inr (b, 0)
  end.

(** The loop of [writePLTEAndTRNS]; [last] is -1 until an entry that is
    not fully opaque is met. *)
Fixpoint palette_loop (i : nat) (p : Palette) (t : list Z) (last : Z)
    : option (list Z * Z) :=
  match p with
  | [] => Some (t, last)
  | c1 :: p' =>
      t ← store t (3 * i + 0) (R c1);
      t ← store t (3 * i + 1) (G c1);
      t ← store t (3 * i + 2) (B c1);
      let last := if negb (A c1 =? 255) then Z.of_nat i else last in
      t ← store t (3 * 256 + i) (A c1);
      palette_loop (S i) p' t last
  end.

Definition writePLTEAndTRNS (e : encoder) (p : Palette) : option encoder :=
  if ((length p <? 1) || (256 <? length p))%nat then
    Some (set_err e (Some (FormatError
      ("bad palette length: " ++ Itoa (Z.of_nat (length p))))))
  else
    '(t, last) ← palette_loop 0 p (tmp e) (-1);
    let e := set_tmp e t in
    b ← slice t 0 (3 * length p);
    let e := writeChunk e b "PLTE" in
    if negb (last =? -1) then
      b ← slice t (3 * 256) (3 * 256 + 1 + Z.to_nat last);
      Some (writeChunk e b "tRNS")
    else Some e.

Definition maybeWriteGAMA (e : encoder) (m : option Metadata)
    : option encoder :=
  match m with
  | None => Some e
  | Some m =>
      match Gamma m with
      | None => Some e
      | Some g =>
          if err e is Some _ then Some e else
          t ← blit (tmp e) 0 (be32 g);
          b ← slice t 0 4;
          Some (writeChunk (set_tmp e t) b "gAMA")
      end
  end.

Definition maybeWriteCHRM (e : encoder) (m : option Metadata)
    : option encoder :=
  match m with
  | None => Some e
  | Some m =>
      match chroma m with
      | None => Some e
      | Some c =>
          if err e is Some _ then Some e else
          t ← blit (tmp e) 0 (be32 (WhiteX c));
          t ← blit t 4 (be32 (WhiteY c));
          t ← blit t 8 (be32 (RedX c));
          t ← blit t 12 (be32 (RedY c));
          t ← blit t 16 (be32 (GreenX c));
          t ← blit t 20 (be32 (GreenY c));
          t ← blit t 24 (be32 (BlueX c));
          t ← blit t 28 (be32 (BlueY c));
          b ← slice t 0 32;
          Some (writeChunk (set_tmp e t) b "cHRM")
      end
  end.

Definition maybeWriteSRGB (e : encoder) (m : option Metadata)
    : option encoder :=
  match m with
  | None => Some e
  | Some m =>
      match SRGBIntent m with
      | None => Some e
      | Some i =>
          if err e is Some _ then Some e else
          t ← store (tmp e) 0 (u8 i);
          b ← slice t 0 1;
          Some (writeChunk (set_tmp e t) b "sRGB")
      end
  end.

Definition maybeWriteTIME (e : encoder) (m : option Metadata)
    : option encoder :=
  if err e is Some _ then Some e else
  match m with
  | None => Some e
  | Some m =>
      match LastModified m with
      | None => Some e
      | Some utc =>
          t ← blit (tmp e) 0 (be16 (u16 (Year utc)));
          t ← store t 2 (u8 (Month utc));
          t ← store t 3 (u8 (Day utc));
          t ← store t 4 (u8 (Hour utc));
          t ← store t 5 (u8 (Minute utc));
          t ← store t 6 (u8 (Second utc));
          b ← slice t 0 7;
          Some (writeChunk (set_tmp e t) b "tIME")
      end
  end.

Definition maybeWritePHYS (e : encoder) (m : option Metadata)
    : option encoder :=
  match m with
  | None => Some e
  | Some m =>
      match dimension m with
      | None => Some e
      | Some d =>
          if err e is Some _ then Some e else
          t ← blit (tmp e) 0 (be32 (u32 (dimX d)));
          t ← blit t 4 (be32 (u32 (dimY d)));
          t ← store t 8 (u8 (dimUnit d));
          b ← slice t 0 9;
          Some (writeChunk (set_tmp e t) b "pHYs")
      end
  end.

(** The loop [for i, b := range t.Value { buf[len(t.Key)+i+1] = byte(b) }]. *)
Fixpoint text_value_loop (klen : nat) (rs : list (nat * Z)) (buf : list Z)
    : option (list Z) :=
  match rs with
  | [] => Some buf
  | (i, b) :: rs' =>
      buf ← store buf (klen + i + 1) (u8 b);
      text_value_loop klen rs' buf
  end.

Definition maybeWriteTEXT (e : encoder) (t : TextEntry) : option encoder :=
  if err e is Some _ then Some e else
  let tl := (length (Key t) + length (Value t) + 1)%nat in
  let buf := replicate tl 0 in
  buf ← copy_at buf 0 (Key t);
  buf ← store buf (length (Key t)) 0;
  buf ← text_value_loop (length (Key t)) (GoString.range (Value t)) buf;
  Some (writeChunk e buf "tEXt").

Definition maybeWriteZTXT (e : encoder) (t : TextEntry) : option encoder :=
  if err e is Some _ then Some e else
  match pngCompress e (Value t) with
  | inl r => Some (set_err e (Some r))
  | inr (val, method) =>
      let klen := length (Key t) in
      tm ← blit (tmp e) 0 (Key t);
      tm ← store tm klen 0;
      tm ← store tm (klen + 1) (u8 method);
      let length0 := (klen + 2)%nat in
      '(tm, length1) ←
        (if negb (length val =? 0)%nat then
           tm ← copy_at tm (klen + 2) val;
           Some (tm, (length0 + length val)%nat)
         else Some (tm, length0));
      b ← slice tm 0 length1;
      Some (writeChunk (set_tmp e tm) b "zTXt")
  end.

Definition maybeWriteITXT (e : encoder) (t : TextEntry) : option encoder :=
  if err e is Some _ then Some e else
  match pngCompress e (Value t) with
  | inl r => Some (set_err e (Some r))
  | inr (val, method) =>
      let klen := length (Key t) in
      let buf :=
        replicate (klen + length val + length (LanguageTag t)
                   + length (TranslatedKey t) + 5)%nat 0 in
      (* Add the key *)
      buf ← blit buf 0 (Key t);
      (* Key null terminator *)
      buf ← store buf klen 0;
      (* Compression flag *)
      buf ← store buf (klen + 1) 1;
      (* Compression method *)
      buf ← store buf (klen + 2) (u8 method);
      let length0 := (klen + 3)%nat in
      (* Language tag, if we have one *)
      '(buf, length1) ←
        (if (0 <? length (LanguageTag t))%nat then
           buf ← copy_at buf length0 (LanguageTag t);
           Some (buf, (length0 + length (LanguageTag t))%nat)
         else Some (buf, length0));
      (* Language tag null terminator *)
      buf ← store buf length1 0;
      let length2 := S length1 in
      (* Translated key, if we have one *)
      '(buf, length3) ←
        (if (0 <? length (TranslatedKey t))%nat then
           buf ← copy_at buf length2 (TranslatedKey t);
           Some (buf, (length2 + length (TranslatedKey t))%nat)
         else Some (buf, length2));
      (* Translated key null terminator *)
      buf ← store buf length3 0;
      let length4 := S length3 in
      (* Tack on the compressed value *)
      buf ← copy_at buf length4 val;
      Some (writeChunk e buf "iTXt")
  end.

Definition maybeWriteXMP (e : encoder) (m : option Metadata)
    : option encoder :=
  match m with
  | None => Some e
  | Some m =>
      match rawXmp m, xmp m with
      | None, None => Some e
      | raw, obj =>
          if err e is Some _ then Some e else
          let xmpText := default [] raw in
          match obj with
          | Some (inl r) => Some (set_err e (Some r))
          | Some (inr text) =>
              maybeWriteITXT e
                {| Key := xmpTextKey; Value := text; LanguageTag := [];
                   TranslatedKey := []; entryType := EtItext |}
          | None =>
              maybeWriteITXT e
                {| Key := xmpTextKey; Value := xmpText; LanguageTag := [];
                   TranslatedKey := []; entryType := EtItext |}
          end
      end
  end.

(** The loop of [maybeWriteHIST]. *)
Fixpoint hist_loop (i : nat) (hs : list Z) (b : list Z) : option (list Z) :=
  match hs with
  | [] => Some b
  | h :: hs' =>
      b ← blit b (i * 2) (be16 h);
      hist_loop (S i) hs' b
  end.

Definition maybeWriteHIST (e : encoder) (m : option Metadata)
    : option encoder :=
  match m with
  | None => Some e
  | Some m =>
      match Histogram m with
      | None => Some e
      | Some hs =>
          if err e is Some _ then Some e else
          b ← hist_loop 0 hs (replicate (length hs * 2) 0);
          Some (writeChunk e b "hIST")
      end
  end.

Definition maybeWriteICCP (e : encoder) (m : option Metadata)
    : option encoder :=
  match m with
  | None => Some e
  | Some m =>
      if err e is Some _ then Some e else
      (* No encoded or decoded data so no ICC -- skip *)
      if bool_decide (icc m = None) && (length (rawIcc m) =? 0)%nat
      then Some e else
      (* the raw chunk is picked up, but only the branch below writes *)
      let chunk := if negb (length (rawIcc m) =? 0)%nat
                   then rawIcc m else [] in
      match icc m with
      | None => Some e
      | Some (inl r) => Some (set_err e (Some r))
      | Some (inr chunk) =>
          match pngCompress e chunk with
          | inl r => Some (set_err e (Some r))
          | inr (chunk, compression) =>
              let icc := iccName m in
              let icc := icc ++ [0] in
              let icc := icc ++ [u8 compression] in
              let icc := icc ++ chunk in
              Some (writeChunk e icc "iCCP")
          end
      end
  end.

End Writers.

(** ** Mode selection *)

(** [for v := lo; v < hi; v++] *)
Definition int_range (lo hi : Z) : list Z :=
  map (fun k => lo + Z.of_nat k) (seq 0 (Z.to_nat (hi - lo))).

(** [opaque(m)]: whether the image is fully opaque. *)
Definition opaque (m : PixelImage) : bool :=
  match Opaquer m with
  | Some o => o
  | None =>
      let b := Bounds m in
      forallb (fun y =>
        forallb (fun x => alpha_at m x y =? 65535)
                (int_range (MinX b) (MaxX b)))
        (int_range (MinY b) (MaxY b))
  end.

(** [pal]: the palette, when the image is a [PalettedImage] whose colour
    model is a non-nil [color.Palette]. *)
Definition palette_of (m : PixelImage) : option Palette :=
  if is_PalettedImage m then
    match Model m with
    | PaletteModel p => p
    | _ => None
    end
  else None.

(** The choice of [e.cb] in [EncodeExtended]. *)
Definition select_cb (m : PixelImage) : cb :=
  match palette_of m with
  | Some pal =>
      if (length pal <=? 2)%nat then cbP1
      else if (length pal <=? 4)%nat then cbP2
      else if (length pal <=? 16)%nat then cbP4
      else cbP8
  | None =>
      match Model m with
      | GrayModel => cbG8
      | Gray16Model => cbG16
      | RGBAModel | NRGBAModel | AlphaModel =>
          if opaque m then cbTC8 else cbTCA8
      | _ =>
          if opaque m then cbTC16 else cbTCA16
      end
  end.

(** ** Image data *)

Definition bitsPerPixel (c : cb) : Z :=
  match c with
  | cbG8 => 8
  | cbTC8 => 24
  | cbP8 => 8
  | cbP4 => 4
  | cbP2 => 2
  | cbP1 => 1
  | cbTCA8 => 32
  | cbTC16 => 48
  | cbTCA16 => 64
  | cbG16 => 16
  | cbInvalid => 0
  end.

(** The guard of the call to [filter] in [writeImage]. *)
Definition applies_filter (level : Z) (c : cb) : bool :=
  negb (level =? zlib.NoCompression)
  && negb (bool_decide (c = cbP8)) && negb (bool_decide (c = cbP4))
  && negb (bool_decide (c = cbP2)) && negb (bool_decide (c = cbP1)).

Definition set_row0 (cr : rows) (r : list Z) : rows :=
  Rows r (row1 cr) (row2 cr) (row3 cr) (row4 cr).

(** The choice of the filter for one row: [f := ftNone], replaced by the
    result of [filter] under the guard. *)
Definition choose_filter (level : Z) (c : cb) (cr : rows) (pr : list Z)
    : option (nat * rows) :=
  if applies_filter level c then
    let bpp := Z.to_nat (bitsPerPixel c `quot` 8) in
    Filter.filter cr pr bpp
  else Some (ftNone, cr).

Section Stream.

Context `{Collaborators}.

(** The encoder as an [io.Writer]: each block becomes an IDAT chunk. *)
Definition write_blocks (e : encoder) (blocks : list (list Z)) : encoder :=
  fold_left (fun e b => writeChunk e b "IDAT") blocks e.

(** The state of the row loop of [writeImage]: the row buffers, the
    previous row, the compressor and the session. *)
Record row_state := {
  rs_cr : rows;
  rs_pr : list Z;
  rs_zw : zstream;
  rs_e : encoder
}.

(** The first half of an iteration of the row loop: the scanline
    conversion fills [cr[0][1:]] (it is taken from the image and has to
    fill the row exactly), then the filter is chosen.  Returns [f] and
    the row buffers. *)
Definition filter_row (m : PixelImage) (c : cb) (level : Z) (y : Z)
    (cr : rows) (pr : list Z) : option (nat * rows) :=
  (* Convert from colors to bytes. *)
  '(t0, cdat0) ← split_tag (row0 cr);
  cr ← (if decide (length (scanline m c y) = length cdat0)
        then Some (set_row0 cr (t0 :: scanline m c y)) else None);
  (* Apply the filter. *)
  choose_filter level c cr pr.

(** One iteration of the row loop.  It stops the loop ([return err])
    when the compressor reports a failed write. *)
Definition row_body (m : PixelImage) (c : cb) (level : Z) (i : nat)
    (st : row_state) : option (row_state * bool) :=
  let y := MinY (Bounds m) + Z.of_nat i in
  let pr := rs_pr st in
  '(f, cr) ← filter_row m c level y (rs_cr st) pr;
  (* Write the compressed bytes. *)
  line ← rows_get cr f;
  let '(zw, blocks) := zs_write (rs_zw st) line in
  let e := write_blocks (rs_e st) blocks in
  if err e is Some _ then
    Some ({| rs_cr := cr; rs_pr := pr; rs_zw := zw; rs_e := e |}, true)
  else
    (* The current row for y is the previous row for y+1. *)
    Some ({| rs_cr := set_row0 cr pr; rs_pr := row0 cr;
             rs_zw := zw; rs_e := e |}, false).

(** [writeImage]: returns the session, the compressor (which the
    session keeps in [zw] and [bw]) and the error that the function
    returns.  The levels of [levelToZlib] are all valid, so
    [zlib.NewWriterLevel] does not fail.  A failure inside the deferred
    [zw.Close()] is not returned; it stays behind in the session and in
    the buffered writer. *)
Definition writeImage (e : encoder) (m : PixelImage) (c : cb) (level : Z)
    : option (encoder * zstream * option error) :=
  let b := Bounds m in
  let sz := Z.to_nat (1 + (bitsPerPixel c * Dx b + 7) `quot` 8) in
  if decide (sz = 0)%nat then None else
  let cr := Rows (0 :: replicate (sz - 1) 0) (1 :: replicate (sz - 1) 0)
                 (2 :: replicate (sz - 1) 0) (3 :: replicate (sz - 1) 0)
                 (4 :: replicate (sz - 1) 0) in
  let pr := replicate sz 0 in
  st ← for_loop (Z.to_nat (MaxY b - MinY b)) 0 (row_body m c level)
         {| rs_cr := cr; rs_pr := pr; rs_zw := zs_new level; rs_e := e |};
  let ret := err (rs_e st) in
  (* defer e.zw.Close() *)
  let '(zw, blocks) := zs_close (rs_zw st) in
  let e := write_blocks (rs_e st) blocks in
  Some (e, zw, ret).

(** [writeIDATs]: writes the image data to one or more IDAT chunks. *)
Definition writeIDATs (e : encoder) (m : PixelImage) : option encoder :=
  if err e is Some _ then Some e else
  '(e1, zw, ret) ←
    writeImage e m (cbits e) (levelToZlib (CompressionLevel (enc e)));
  (* what the buffered writer remembers of a failed write *)
  let sticky := err e1 in
  let e2 := set_err e1 ret in
  if ret is Some _ then Some e2 else
  (* e.err = e.bw.Flush() *)
  match sticky with
  | Some r => Some (set_err e2 (Some r))
  | None => Some (write_blocks e2 (zs_flush zw))
  end.

Definition writeIEND (e : encoder) : encoder := writeChunk e [] "IEND".

(** ** The top-level call *)

(** The loop over the options. *)
Fixpoint scan_opts (opts : list WriteOption) (metadata : option Metadata)
    : error + option Metadata :=
  match opts with
  | [] => inr metadata
  | OptMetadata lo :: rest =>
      match metadata with
      | Some _ => inl (OptionError "Multiple metadata passed")
      | None =>
          (* Make sure the metadata is OK. *)
          match validate lo with
          | Some r => inl r
          | None => scan_opts rest (Some lo)
          end
      end
  | OptOther ty :: _ =>
      inl (OptionError ("Unknown write option of type " ++ ty ++ " given"))
  end.

(** [b[:len(b)-4]]: a captured chunk without its trailing CRC. *)
Definition strip_crc (b : option (list Z)) : option (list Z) :=
  let l := default [] b in
  if decide (4 <= length l)%nat then Some (take (length l - 4) l) else None.

(** The loop over [metadata.Text]. *)
Fixpoint write_texts (e : encoder) (ts : list TextEntry) : option encoder :=
  match ts with
  | [] => Some e
  | v :: ts' =>
      e ← match entryType v with
          | EtText => maybeWriteTEXT e v
          | EtZtext => maybeWriteZTXT e v
          | EtItext => maybeWriteITXT e v
          | EtOther => Some e
          end;
      write_texts e ts'
  end.

(** The size check of [EncodeExtended]. *)
Definition bad_size (mw mh : Z) : bool :=
  (mw <=? 0) || (mh <=? 0) || (mw >=? 4294967296) || (mh >=? 4294967296).

(** [switch deferred { case true: ...IHDR... case false: e.writeIHDR() }] *)
Definition write_header_chunk (e : encoder) (m : Image) : option encoder :=
  match m with
  | IsDeferred di => b ← strip_crc (ihdr di); Some (writeChunk e b "IHDR")
  | Pixels pm => writeIHDR e pm
  end.

(** [if metadata != nil { ... }]: the ancillary chunks that follow
    IHDR. *)
Definition write_metadata (e : encoder) (metadata : option Metadata)
    : option encoder :=
  match metadata with
  | Some md =>
      e ← maybeWriteGAMA e metadata;
      e ← maybeWriteCHRM e metadata;
      e ← maybeWriteSRGB e metadata;
      e ← maybeWriteTIME e metadata;
      e ← maybeWriteICCP e metadata;
      e ← maybeWritePHYS e metadata;
      e ← maybeWriteXMP e metadata;
      write_texts e (Text md)
  | None => Some e
  end.

(** The second [switch deferred]: PLTE and tRNS. *)
Definition write_palette_chunks (e : encoder) (m : Image)
    (pal : option Palette) : option encoder :=
  match m with
  | IsDeferred di =>
      e ← match plte di with
          | Some _ => b ← strip_crc (plte di); Some (writeChunk e b "PLTE")
          | None => Some e
          end;
      match trns di with
      | Some _ => b ← strip_crc (trns di); Some (writeChunk e b "tRNS")
      | None => Some e
      end
  | Pixels _ =>
      match pal with
      | Some p => writePLTEAndTRNS e p
      | None => Some e
      end
  end.

(** The third [switch deferred]: the image data. *)
Definition write_image_data (e : encoder) (m : Image) : option encoder :=
  match m with
  | IsDeferred di =>
      match idat di with
      | Some _ => b ← strip_crc (idat di); Some (writeChunk e b "IDAT")
      | None => Some e
      end
  | Pixels pm => writeIDATs e pm
  end.

(** The size validation, which only a source with live pixels
    undergoes. *)
Definition size_error (m : Image) : option error :=
  match m with
  | Pixels pm =>
      let mw := Dx (Bounds pm) in
      let mh := Dy (Bounds pm) in
      if bad_size mw mh then
        Some (FormatError
          ("invalid image size: " ++ Itoa mw ++ "x" ++ Itoa mh))
      else None
  | IsDeferred _ => None
  end.

(** The session as [EncodeExtended] sets it up, with [e.cb] chosen for
    a source with live pixels. *)
Definition start_session (en : Encoder) (w0 : sink) (m : Image) : encoder :=
  let e := {| enc := en; w := w0; cbits := cbInvalid; err := None;
              tmp := replicate (4 * 256) 0 |} in
  match m with
  | Pixels pm => set_cb e (select_cb pm)
  | IsDeferred _ => e
  end.

(** [EncodeExtended]: the sink as the call leaves it and the error it
    returns; [None] when the call panics. *)
Definition EncodeExtended (en : Encoder) (w0 : sink) (m : Image)
    (opts : list WriteOption) : option (sink * option error) :=
  (* Run through all the opts. *)
  match scan_opts opts None with
  | inl r => Some (w0, Some r)
  | inr metadata =>
      (* If this isn't deferred then do some size validation. *)
      match size_error m with
      | Some r => Some (w0, Some r)
      | None =>
          let e := start_session en w0 m in
          let pal := match m with
                     | Pixels pm => palette_of pm
                     | IsDeferred _ => None
                     end in
          let e := write_to_sink e pngHeader in
          e ← write_header_chunk e m;
          e ← write_metadata e metadata;
          e ← write_palette_chunks e m pal;
          e ← maybeWriteHIST e metadata;
          e ← write_image_data e m;
          let e := writeIEND e in
          Some (w e, err e)
      end
  end.

End Stream.

(** ** Reading the chunk sequence back

    The decoder's view of a byte stream: after the signature, chunks of
    a 4-byte big-endian length, a 4-byte tag, the payload and a 4-byte
    CRC (which is not checked here). *)
Fixpoint parse_chunks (fuel : nat) (s : list Z)
    : option (list (list Z * list Z)) :=
  match s with
  | [] => Some []
  | _ =>
      match fuel with
      | O => None
      | S fuel' =>
          let n := Z.to_nat (be32_decode (take 4 s)) in
          if decide (12 + n <= length s)%nat then
            rest ← parse_chunks fuel' (drop (12 + n) s);
            Some ((take 4 (drop 4 s), take n (drop 8 s)) :: rest)
          else None
      end
  end.

(** The tags of the chunks of a PNG byte stream, in order. *)
Definition chunk_tags (stream : list Z) : option (list (list Z)) :=
  if decide (take 8 stream = pngHeader) then
    cs ← parse_chunks (length stream) (drop 8 stream);
    Some (map fst cs)
  else None.

(** ** Stand-ins for running the model

    A collaborator instance with a constant CRC and a compressor that
    stores its input unchanged and hands it over in a single block on
    [Flush]; it serves to evaluate the model on concrete inputs. *)
Definition stored : Collaborators := {|
  crc32_IEEE := fun _ => 0;
  zlib_bytes := fun _ input => inr input;
  zstream := list Z;
  zs_new := fun _ => [];
  zs_write := fun zw line => (zw ++ line, []);
  zs_close := fun zw => (zw, []);
  zs_flush := fun zw => [zw]
|}.

(** A sink whose first [Write] fails with [SinkError 1]. *)
Definition failing_sink : sink :=
  Sink [] 0 (fun k => if (k =? 0)%nat then Some (0%nat, SinkError 1) else None).

Definition opaque_entry : NRGBA := {| R := 1; G := 2; B := 3; A := 255 |}.
Definition translucent_entry : NRGBA := {| R := 4; G := 5; B := 6; A := 7 |}.

(** A 1x1 image of a palette-based type with the palette [p]. *)
Definition paletted_1x1 (p : Palette) : PixelImage := {|
  Bounds := {| MinX := 0; MinY := 0; MaxX := 1; MaxY := 1 |};
  Model := PaletteModel (Some p);
  is_PalettedImage := true;
  Opaquer := None;
  alpha_at := fun _ _ => 65535;
  scanline := fun _ _ => [0]
|}.

(** A [w] x [h] image whose colour model is [color.GrayModel], with the
    alpha value [a] at every pixel. *)
Definition gray_image (w h a : Z) : PixelImage := {|
  Bounds := {| MinX := 0; MinY := 0; MaxX := w; MaxY := h |};
  Model := GrayModel;
  is_PalettedImage := false;
  Opaquer := None;
  alpha_at := fun _ _ => a;
  scanline := fun _ y => map (fun x => u8 (10 * x + y)) (int_range 0 w)
|}.

Definition no_metadata : Metadata := {|
  Gamma := None; chroma := None; SRGBIntent := None; LastModified := None;
  icc := None; rawIcc := []; iccName := []; dimension := None;
  xmp := None; rawXmp := None; Histogram := None; Text := [];
  validate := None
|}.

Definition default_encoder : Encoder := {| CompressionLevel := 0 |}.

(** A session at its start, with the sink [s]. *)
Definition new_session (s : sink) : encoder :=
  {| enc := default_encoder; w := s; cbits := cbInvalid; err := None;
     tmp := replicate (4 * 256) 0 |}.

(** ** The chunk sequence, as the specification words it *)

Module Layout.

Definition opt_tag {A : Type} (o : option A) (name : string) : list string :=
  match o with Some _ => [name] | None => [] end.

(** The tag of an optional metadata field, present or not. *)
Definition field_tag {A : Type} (md : option Metadata)
    (field : Metadata -> option A) (name : string) : list string :=
  match md with Some m => opt_tag (field m) name | None => [] end.

(** XMP, raw or as an object, goes out as one iTXt chunk. *)
Definition xmp_tag (md : option Metadata) : list string :=
  match md with
  | Some m =>
      match rawXmp m, xmp m with
      | None, None => []
      | _, _ => ["iTXt"]
      end
  | None => []
  end.

Definition text_tag (t : TextEntry) : list string :=
  match entryType t with
  | EtText => ["tEXt"]
  | EtZtext => ["zTXt"]
  | EtItext => ["iTXt"]
  | EtOther => []
  end.

(** The ancillary chunks that follow IHDR.  iCCP stands for a registered
    ICC object. *)
Definition metadata_tags (md : option Metadata) : list string :=
  field_tag md Gamma "gAMA" ++ field_tag md chroma "cHRM"
  ++ field_tag md SRGBIntent "sRGB" ++ field_tag md LastModified "tIME"
  ++ field_tag md icc "iCCP" ++ field_tag md dimension "pHYs"
  ++ xmp_tag md
  ++ flat_map text_tag (default [] (Text <$> md)).

(** The value of [last] after the loop of [writePLTEAndTRNS]. *)
Fixpoint scan_last (i : nat) (p : Palette) (last : Z) : Z :=
  match p with
  | [] => last
  | c :: p' =>
      scan_last (S i) p' (if negb (A c =? 255) then Z.of_nat i else last)
  end.

(** The index of the last palette entry that is not fully opaque. *)
Fixpoint last_translucent (p : Palette) : option nat :=
  match p with
  | [] => None
  | c :: p' =>
      match last_translucent p' with
      | Some k => Some (S k)
      | None => if A c =? 255 then None else Some 0%nat
      end
  end.

Definition palette_tags (p : Palette) : list string :=
  "PLTE" :: match last_translucent p with
            | Some _ => ["tRNS"]
            | None => []
            end.

(** The bytes of the PLTE payload. *)
Definition plte_payload (p : Palette) : list Z :=
  flat_map (fun c => [R c; G c; B c]) p.

(** The bytes of the tRNS payload: the alpha values up to and including
    index [k]. *)
Definition trns_payload (p : Palette) (k : nat) : list Z :=
  map A (take (S k) p).

(** The chunk sequence of a pixel source with [k] IDAT chunks. *)
Definition pixel_tags (md : option Metadata) (m : PixelImage) (k : nat)
    : list string :=
  ["IHDR"] ++ metadata_tags md
  ++ match palette_of m with
     | Some p => palette_tags p
     | None => []
     end
  ++ field_tag md Histogram "hIST"
  ++ replicate k "IDAT"
  ++ ["IEND"].

(** The chunk sequence of a deferred source: the captured chunks that
    are there. *)
Definition deferred_tags (md : option Metadata) (di : Deferred)
    : list string :=
  ["IHDR"] ++ metadata_tags md
  ++ opt_tag (plte di) "PLTE" ++ opt_tag (trns di) "tRNS"
  ++ field_tag md Histogram "hIST"
  ++ opt_tag (idat di) "IDAT"
  ++ ["IEND"].

End Layout.

(** ** Proof devices for the session *)

(** The error of a session that already held [r]: still [r], or the
    palette-length error, which [writePLTEAndTRNS] stores without looking
    at the error that is there. *)
Definition kept_error (r : error) (o : option error) : Prop :=
  o = Some r \/
  exists n, o = Some (FormatError ("bad palette length: " ++ n)).

(** What one writer does to the session: it keeps the configuration,
    never un-writes, leaves the sink alone once the sticky error is set
    (and keeps that error, but for the palette check), and when it ends
    without an error it has appended whole chunks with the tags
    [tags]. *)
Definition steps `{Collaborators} (e e' : encoder) (tags : list string)
    : Prop :=
  (enc e' = enc e /\ cbits e' = cbits e /\
   fail_at (w e') = fail_at (w e) /\
   length (tmp e') = length (tmp e) /\
   (calls (w e) <= calls (w e'))%nat) /\
  (forall r, err e = Some r -> w e' = w e /\ kept_error r (err e')) /\
  (err e' = None ->
   err e = None /\
   exists payloads,
     length payloads = length tags /\
     Forall (fun b => Z.of_nat (length b) < 4294967296) payloads /\
     out (w e') = out (w e) ++ concat (zip_with frame tags payloads)).

(** A chunk tag of four bytes. *)
Definition four_letter (name : string) : Prop :=
  length (str_bytes name) = 4%nat.

(** ** Sample inputs *)

Definition sample_metadata : Metadata := {|
  Gamma := Some 45455; chroma := None; SRGBIntent := None;
  LastModified := None; icc := None; rawIcc := []; iccName := [];
  dimension := Some {| dimX := 2835; dimY := 2835; dimUnit := 1 |};
  xmp := None; rawXmp := None; Histogram := None; Text := [];
  validate := None
|}.

Definition bare_deferred : Deferred := {|
  ihdr := Some [0;0;0;1; 0;0;0;1; 8; 0; 0; 0; 0; 9; 9; 9; 9];
  plte := None; trns := None; idat := None
|}.

(** The sink after the call [EncodeExtended(w, m, opts...)] on a fresh
    sink, with the stand-in collaborators. *)
Definition sink_after (m : Image) (opts : list WriteOption) : sink :=
  match EncodeExtended (H := stored) default_encoder fresh_sink m opts with
  | Some (s, _) => s
  | None => fresh_sink
  end.

Definition raw_icc_only : Metadata := {|
  Gamma := None; chroma := None; SRGBIntent := None; LastModified := None;
  icc := None; rawIcc := [1; 2; 3]; iccName := str_bytes "p";
  dimension := None; xmp := None; rawXmp := None; Histogram := None;
  Text := []; validate := None
|}.

Definition raw_icc_and_object : Metadata := {|
  Gamma := None; chroma := None; SRGBIntent := None; LastModified := None;
  icc := Some (inr [9]); rawIcc := [1; 2; 3]; iccName := str_bytes "p";
  dimension := None; xmp := None; rawXmp := None; Histogram := None;
  Text := []; validate := None
|}.

(** Row buffers with the tags that [writeImage] gives them and the raw
    row [cur] in [cr[0]]. *)
Definition row_buffers (cur : list Z) : rows :=
  let z := replicate (length cur) 0 in
  Rows (0 :: cur) (1 :: z) (2 :: z) (3 :: z) (4 :: z).

Definition five_entries : Palette :=
  [opaque_entry; opaque_entry; translucent_entry; opaque_entry; opaque_entry].

Definition long_text : TextEntry := {|
  Key := str_bytes "Title"; Value := replicate 1100 65;
  LanguageTag := []; TranslatedKey := []; entryType := EtZtext
|}.

(** ** Rows of 1, 2 and 4 bits per pixel

    The state of the packing loop of [writeImage] for [cbP4], [cbP2] and
    [cbP1]: the row [cr[0]], the index [i], the byte [a] under
    construction and the count [c] of pixels it holds. *)
Record pack_state := {
  pk_row : list Z;
  pk_i : nat;
  pk_a : Z;
  pk_c : Z
}.

(** One iteration of [for x := b.Min.X; x < b.Max.X; x++], with [idx]
    the value of [pi.ColorIndexAt(x, y)]. *)
Definition pack_body (bitsPerPixel : Z) (st : pack_state) (idx : Z)
    : option pack_state :=
  let a := Z.lor (u8 (Z.shiftl (pk_a st) bitsPerPixel)) idx in
  let c := pk_c st + 1 in
  if c =? 8 `quot` bitsPerPixel then
    row ← store (pk_row st) (pk_i st) a;
    Some {| pk_row := row; pk_i := pk_i st + 1; pk_a := 0; pk_c := 0 |}
  else
    Some {| pk_row := pk_row st; pk_i := pk_i st; pk_a := a; pk_c := c |}.

Fixpoint pack_loop (bitsPerPixel : Z) (idxs : list Z) (st : pack_state)
    : option pack_state :=
  match idxs with
  | [] => Some st
  | idx :: rest =>
      st ← pack_body bitsPerPixel st idx;
      pack_loop bitsPerPixel rest st
  end.

(** [for c != 8/bitsPerPixel { a = a << uint(bitsPerPixel); c++ }]; the
    fuel bounds the number of iterations. *)
Fixpoint pad_loop (fuel : nat) (bitsPerPixel a c : Z) : option Z :=
  if c =? 8 `quot` bitsPerPixel then Some a else
  match fuel with
  | O => None
  | S fuel' =>
      pad_loop fuel' bitsPerPixel (u8 (Z.shiftl a bitsPerPixel)) (c + 1)
  end.

(** The conversion of one row of colour indices into [cr[0]]. *)
Definition pack_row (bitsPerPixel : Z) (idxs : list Z) (cr0 : list Z)
    : option (list Z) :=
  st ← pack_loop bitsPerPixel idxs
         {| pk_row := cr0; pk_i := 1; pk_a := 0; pk_c := 0 |};
  if negb (pk_c st =? 0) then
    a ← pad_loop 8 bitsPerPixel (pk_a st) (pk_c st);
    store (pk_row st) (pk_i st) a
  else Some (pk_row st).

(** ** Proof devices for the chunk payloads and the image data *)

(** [buf] with [data] written over it from offset [off] on. *)
Definition splice (buf : list Z) (off : nat) (data : list Z) : list Z :=
  take off buf ++ data ++ drop (off + length data) buf.

(** What the loop of [maybeWriteTEXT] leaves in a zeroed buffer for the
    string [s]: the low byte of each rune at the offset of the rune, and
    zero at the offsets of the bytes that continue it. *)
Fixpoint rune_bytes (fuel : nat) (s : list Z) : list Z :=
  match fuel with
  | O => []
  | S fuel' =>
      match s with
      | [] => []
      | b0 :: rest =>
          let '(r, w) := GoString.decode_rune b0 rest in
          u8 r :: replicate (w - 1) 0
            ++ rune_bytes fuel' (drop (w - 1) rest)
      end
  end.

(** The number of samples per pixel of a PNG colour type. *)
Definition channels (ct : Z) : Z :=
  if ct =? ctGrayscale then 1
  else if ct =? ctTrueColor then 3
  else if ct =? ctPaletted then 1
  else if ct =? ctTrueColorAlpha then 4
  else 2.

(** The predictor of filter type [f] from the bytes to the left, above
    and above-left. *)
Definition predictor (f : nat) (a b c : Z) : Z :=
  match f with
  | 0%nat => 0
  | 1%nat => a
  | 2%nat => b
  | 3%nat => (a + b) / 2
  | _ => paeth a b c
  end.

(** The decoder's side of a filtered row: each byte is restored from the
    filtered byte and the bytes restored before it. *)
Fixpoint unfilter_from (f bpp : nat) (prev row acc : list Z) : list Z :=
  match row with
  | [] => acc
  | x :: rest =>
      let i := length acc in
      let a := FilterSpec.left_of bpp acc i in
      let b := FilterSpec.byte_at prev i in
      let c := FilterSpec.left_of bpp prev i in
      unfilter_from f bpp prev rest (acc ++ [u8 (x + predictor f a b c)])
  end.

Definition unfilter (f bpp : nat) (prev row : list Z) : list Z :=
  unfilter_from f bpp prev row [].

(** The chunk that a captured blob turns into: its bytes without the
    trailing CRC, framed anew; nothing when the blob is absent. *)
Definition blob_chunk `{Collaborators} (name : string) (o : option (list Z))
    : list Z :=
  match o with
  | Some b => frame name (take (length b - 4) b)
  | None => []
  end.

(** A captured blob that can be written: it holds its CRC at least. *)
Definition blob_ok (o : option (list Z)) : Prop :=
  match o with
  | Some b => (4 <= length b)%nat /\ Z.of_nat (length b) < 4294967296
  | None => True
  end.

(** The number a group of pixels stands for, most significant first. *)
Definition horner (bits : Z) (a : Z) (g : list Z) : Z :=
  fold_left (fun a x => a * 2 ^ bits + x) g a.

(** The row cut into groups of [ppb] pixels. *)
Fixpoint groups (fuel ppb : nat) (l : list Z) : list (list Z) :=
  match fuel with
  | O => []
  | S fuel' =>
      match l with
      | [] => []
      | _ => take ppb l :: groups fuel' ppb (drop ppb l)
      end
  end.

(** [8/bitsPerPixel]: the number of pixels a byte holds. *)
Definition perByte (bits : Z) : nat := Z.to_nat (8 `quot` bits).

(** The packed row: a byte for each group, the last group filled up
    with zero pixels. *)
Definition packed_with (bits : Z) (fuel : nat) (idxs : list Z) : list Z :=
  map (fun g => horner bits 0 (g ++ replicate (perByte bits - length g) 0))
      (groups fuel (perByte bits) idxs).

Definition packed (bits : Z) (idxs : list Z) : list Z :=
  packed_with bits (length idxs) idxs.

(** A colour index that fits in [b] bits. *)
Definition digit (b x : Z) : Prop := 0 <= x < 2 ^ b.

(** [2 ^ (bits * c)]: the bound of a group of [c] pixels. *)
Definition pw (bits : Z) (c : nat) : Z := 2 ^ (bits * Z.of_nat c).

(** What is left to do once the loop over the pixels is over. *)
Definition pack_finish (bits : Z) (st : pack_state) : option (list Z) :=
  if negb (pk_c st =? 0) then
    a ← pad_loop 8 bits (pk_a st) (pk_c st);
    store (pk_row st) (pk_i st) a
  else Some (pk_row st).

(** ** The image data without the sink

    The rows that [writeImage] hands to the compressor, one after the
    other, when no write fails: the row loop with the session left
    out. *)
Fixpoint lines_from (k i : nat) (m : PixelImage) (c : cb) (level : Z)
    (cr : rows) (pr : list Z) : option (list (list Z)) :=
  match k with
  | O => Some []
  | S k' =>
      '(f, cr') ← filter_row m c level (MinY (Bounds m) + Z.of_nat i) cr pr;
      line ← rows_get cr' f;
      rest ← lines_from k' (S i) m c level (set_row0 cr' pr) (row0 cr');
      Some (line :: rest)
  end.

(** The compressor after the rows [lines], and the blocks it has handed
    over meanwhile. *)
Fixpoint feed `{Collaborators} (zw : zstream) (lines : list (list Z))
    : zstream * list (list Z) :=
  match lines with
  | [] => (zw, [])
  | l :: ls =>
      let '(zw1, b1) := zs_write zw l in
      let '(zw2, b2) := feed zw1 ls in
      (zw2, b1 ++ b2)
  end.

(** All the blocks of compressed image data, in the order in which the
    compressor hands them over: while the rows are written, on [Close]
    and on the final [Flush]. *)
Definition image_blocks `{Collaborators} (m : PixelImage) (c : cb)
    (level : Z) : option (list (list Z)) :=
  let sz := Z.to_nat (1 + (bitsPerPixel c * Dx (Bounds m) + 7) `quot` 8) in
  let cr := Rows (0 :: replicate (sz - 1) 0) (1 :: replicate (sz - 1) 0)
                 (2 :: replicate (sz - 1) 0) (3 :: replicate (sz - 1) 0)
                 (4 :: replicate (sz - 1) 0) in
  lines ← lines_from (Z.to_nat (MaxY (Bounds m) - MinY (Bounds m))) 0
            m c level cr (replicate sz 0);
  let '(zw1, bs) := feed (zs_new level) lines in
  let '(zw2, bc) := zs_close zw1 in
  Some (bs ++ bc ++ zs_flush zw2).

(** A block that fits in a chunk. *)
Definition fits_chunk (b : list Z) : Prop :=
  Z.of_nat (length b) < 4294967296.

(** ** Further sample inputs *)

Definition rich_metadata : Metadata := {|
  Gamma := Some 45455;
  chroma := Some {| WhiteX := 31270; WhiteY := 32900; RedX := 64000;
                    RedY := 33000; GreenX := 30000; GreenY := 60000;
                    BlueX := 15000; BlueY := 6000 |};
  SRGBIntent := Some 0;
  LastModified := Some {| Year := 2000; Month := 1; Day := 2; Hour := 3;
                          Minute := 4; Second := 5 |};
  icc := None; rawIcc := []; iccName := [];
  dimension := Some {| dimX := 2835; dimY := 2835; dimUnit := 1 |};
  xmp := Some (inr (str_bytes "<x/>")); rawXmp := Some (str_bytes "raw");
  Histogram := Some [1; 2]; Text := []; validate := None
|}.

Definition plain_text : TextEntry := {|
  Key := str_bytes "Title"; Value := str_bytes "PNG";
  LanguageTag := str_bytes "en"; TranslatedKey := []; entryType := EtText
|}.

Definition accented_text : TextEntry := {|
  Key := str_bytes "Author"; Value := [195; 169; 65];
  LanguageTag := []; TranslatedKey := []; entryType := EtText
|}.

Definition full_deferred : Deferred := {|
  ihdr := Some [0;0;0;1; 0;0;0;1; 8; 3; 0; 0; 0; 9; 9; 9; 9];
  plte := Some [1; 2; 3; 9; 9; 9; 9];
  trns := None;
  idat := Some [120; 1; 9; 9; 9; 9]
|}.

(** ** Proof devices for the loops of [filter] *)

(** The common shape of the storing loops: store the byte [g i], add its
    [abs8] to the running sum, and break once the sum reaches [best]
    (when there is one to compare with). *)
Definition store_step (g : nat -> Z) (best : option Z) (i : nat)
    (st : list Z * Z) : option ((list Z * Z) * bool) :=
  let '(out, sum) := st in
  out ← store out i (g i);
  let sum := sum + abs8 (g i) in
  Some ((out, sum),
        match best with Some b => sum >=? b | None => false end).

(** The sum of [abs8 (g j)] for [j] in [[i, i + k)]. *)
Definition psum (g : nat -> Z) (i k : nat) : Z :=
  FilterSpec.total (map g (seq i k)).

(** The outcome of one challenger's loops, as the comparison that
    follows them sees it: [sum] is on the same side of [best] as the full
    total, and a winner has its whole row written. *)
Definition stage_ok (cur prev : list Z) (bpp f : nat) (best : Z)
    (out : list Z) (sum : Z) : Prop :=
  length out = length cur /\
  (sum <? best) = (FilterSpec.cost f bpp cur prev <? best) /\
  (sum < best ->
   sum = FilterSpec.cost f bpp cur prev /\
   out = FilterSpec.filtered f bpp cur prev).

(* ================================================================= *)
(** * Properties *)

Example filter_ex1 :
  Filter.filter (Rows [0;10;20;30] [1;0;0;0] [2;0;0;0] [3;0;0;0] [4;0;0;0])
                [0;10;20;30] 1
  = Some (ftUp, Rows [0;10;20;30] [1;10;10;0] [2;0;0;0] [3;5;5;0] [4;0;0;0]).
Proof. vm_compute. reflexivity. Qed.

(** ** Bytes and loops *)

Lemma u8_range x : is_byte (u8 x).
Proof. unfold is_byte, u8. apply Z.mod_pos_bound. lia. Qed.

Lemma u8_id x : is_byte x -> u8 x = x.
Proof. unfold is_byte, u8. intros H. apply Z.mod_small. lia. Qed.

Lemma abs8_nonneg d : is_byte d -> 0 <= abs8 d.
Proof.
  unfold is_byte, abs8. intros H.
  destruct (d <? 128) eqn:E; [lia|]. apply Z.ltb_ge in E. lia.
Qed.

Lemma bytes_lookup (l : list Z) i x : bytes l -> l !! i = Some x -> is_byte x.
Proof. intros Hb Hl. eapply Forall_lookup_1; eauto. Qed.

Lemma byte_at_lookup (l : list Z) i :
  (i < length l)%nat -> l !! i = Some (FilterSpec.byte_at l i).
Proof.
  intros H. unfold FilterSpec.byte_at.
  destruct (lookup_lt_is_Some_2 l i H) as [x Hx].
  rewrite Hx. f_equal. symmetry. apply nth_lookup_Some with (d := 0) in Hx.
  exact Hx.
Qed.

Lemma byte_at_is_byte (l : list Z) i : bytes l -> is_byte (FilterSpec.byte_at l i).
Proof.
  intros Hb. destruct (decide (i < length l)%nat) as [H|H].
  - eapply bytes_lookup; eauto. by apply byte_at_lookup.
  - unfold FilterSpec.byte_at. rewrite nth_overflow by lia. unfold is_byte. lia.
Qed.

Lemma for_loop_ext {S : Type} (f g : nat -> S -> option (S * bool)) k :
  forall i s,
    (forall j s', (i <= j < i + k)%nat -> f j s' = g j s') ->
    for_loop k i f s = for_loop k i g s.
Proof.
  induction k as [|k IH]; intros i s H; [reflexivity|].
  simpl. rewrite (H i s) by lia.
  destruct (g i s) as [[s' [|]]|]; try reflexivity.
  apply IH. intros j s'' Hj. apply H. lia.
Qed.

Lemma psum_0 g i : psum g i 0 = 0.
Proof. reflexivity. Qed.

Lemma psum_S g i k : psum g i (S k) = abs8 (g i) + psum g (S i) k.
Proof. reflexivity. Qed.

Lemma psum_nonneg g k : forall i,
  (forall j, (i <= j < i + k)%nat -> is_byte (g j)) -> 0 <= psum g i k.
Proof.
  induction k as [|k IH]; intros i H; [rewrite psum_0; lia|].
  rewrite psum_S.
  pose proof (abs8_nonneg (g i) (H i ltac:(lia))).
  pose proof (IH (S i) (fun j Hj => H j ltac:(lia))). lia.
Qed.

Lemma psum_split g a b : forall i,
  psum g i (a + b) = psum g i a + psum g (i + a) b.
Proof.
  induction a as [|a IH]; intros i.
  - rewrite psum_0. simpl. replace (i + 0)%nat with i by lia. lia.
  - change (S a + b)%nat with (S (a + b)). rewrite !psum_S, IH.
    replace (S i + a)%nat with (i + S a)%nat by lia. lia.
Qed.

Lemma store_Some (buf : list Z) i v :
  (i < length buf)%nat -> store buf i v = Some (<[i := v]> buf).
Proof. intros H. unfold store. by rewrite decide_True. Qed.

(** What a storing loop leaves behind: either it ran to its end, and
    then every byte of its range is written and [sum] is the full sum;
    or it stopped early, and then the partial sum had reached [best]. *)
Lemma store_loop g best k : forall i out s,
  (forall j, (i <= j < i + k)%nat -> is_byte (g j)) ->
  (i + k <= length out)%nat ->
  exists out' s',
    for_loop k i (store_step g best) (out, s) = Some (out', s') /\
    length out' = length out /\
    (forall j, (j < i)%nat -> out' !! j = out !! j) /\
    ((s' = s + psum g i k /\
      forall j, (i <= j < i + k)%nat -> out' !! j = Some (g j))
     \/ (exists b, best = Some b /\ b <= s' <= s + psum g i k)).
Proof.
  induction k as [|k IH]; intros i out s Hb Hlen.
  - exists out, s. rewrite psum_0. split; [reflexivity|].
    split; [reflexivity|]. split; [auto|]. left. split; [lia|].
    intros j Hj. lia.
  - assert (Hi : (i < length out)%nat) by lia.
    pose proof (abs8_nonneg _ (Hb i ltac:(lia))) as Habs.
    pose proof (psum_nonneg g k (S i) (fun j Hj => Hb j ltac:(lia))) as Hps.
    cbn [for_loop]. unfold store_step at 1. rewrite (store_Some _ _ _ Hi).
    cbn [mbind option_bind].
    set (brk := match best with Some b => _ | None => false end).
    destruct brk eqn:Ebrk.
    + exists (<[i := g i]> out), (s + abs8 (g i)).
      split; [reflexivity|]. split; [apply length_insert|].
      split; [intros j Hj; apply list_lookup_insert_ne; lia|].
      right. subst brk. destruct best as [b|]; [|discriminate].
      exists b. split; [reflexivity|]. rewrite psum_S.
      apply Z.geb_le in Ebrk. lia.
    + destruct (IH (S i) (<[i := g i]> out) (s + abs8 (g i)))
        as (out' & s' & Hrun & Hl & Hpre & Hcases).
      { intros j Hj. apply Hb. lia. }
      { rewrite length_insert. lia. }
      exists out', s'. split; [exact Hrun|].
      split; [rewrite Hl; apply length_insert|].
      split.
      { intros j Hj. rewrite Hpre by lia. apply list_lookup_insert_ne. lia. }
      rewrite psum_S. destruct Hcases as [[Hs Hw]|(b & -> & Hs)].
      * left. split; [lia|]. intros j Hj.
        destruct (decide (j = i)) as [->|Hne].
        -- rewrite Hpre by lia. by apply list_lookup_insert_eq.
        -- apply Hw. lia.
      * right. exists b. split; [reflexivity|]. lia.
Qed.

Lemma lookup_all_map (g : nat -> Z) (out : list Z) n :
  length out = n ->
  (forall j, (j < n)%nat -> out !! j = Some (g j)) ->
  out = map g (seq 0 n).
Proof.
  intros Hl Hw. apply list_eq. intros j.
  destruct (decide (j < n)%nat) as [Hj|Hj].
  - rewrite Hw by exact Hj. symmetry.
    rewrite list_lookup_fmap, lookup_seq_lt by exact Hj. reflexivity.
  - rewrite !lookup_ge_None_2; [reflexivity| |lia].
    rewrite length_map, length_seq. lia.
Qed.

(** A head loop over [[0, bpp)] without a break, followed by a loop over
    [[bpp, n)] that breaks on reaching [best]: the comparison that
    follows sees the full sum or a partial sum on the same side of
    [best], and a winning candidate has its whole row written. *)
Lemma two_phase_loop g best bpp n out :
  (bpp <= n)%nat -> length out = n ->
  (forall j, (j < n)%nat -> is_byte (g j)) ->
  exists out1 s1 out' s',
    for_loop bpp 0 (store_step g None) (out, 0) = Some (out1, s1) /\
    for_loop (n - bpp) bpp (store_step g (Some best)) (out1, s1)
      = Some (out', s') /\
    length out' = n /\
    (s' <? best) = (psum g 0 n <? best) /\
    (s' < best -> s' = psum g 0 n /\ out' = map g (seq 0 n)).
Proof.
  intros Hbpp Hl Hb.
  destruct (store_loop g None bpp 0 out 0) as (out1 & s1 & H1 & Hl1 & _ & C1).
  { intros j Hj. apply Hb. lia. }
  { lia. }
  destruct C1 as [[Hs1 Hw1]|(b & Hbad & _)]; [|discriminate].
  destruct (store_loop g (Some best) (n - bpp) bpp out1 s1)
    as (out' & s' & H2 & Hl2 & Hpre & C2).
  { intros j Hj. apply Hb. lia. }
  { lia. }
  exists out1, s1, out', s'. split; [exact H1|]. split; [exact H2|].
  split; [lia|].
  assert (Hsplit : psum g 0 n = psum g 0 bpp + psum g bpp (n - bpp)).
  { replace n with (bpp + (n - bpp))%nat at 1 by lia. apply psum_split. }
  destruct C2 as [[Hs2 Hw2]|(b & Hb' & Hs2)].
  - assert (Hs : s' = psum g 0 n) by lia.
    split; [by rewrite Hs|]. intros _. split; [exact Hs|].
    apply lookup_all_map; [lia|]. intros j Hj.
    destruct (decide (j < bpp)%nat) as [Hlt|Hge].
    + rewrite Hpre by exact Hlt. apply Hw1. lia.
    + apply Hw2. lia.
  - injection Hb' as <-. split.
    + transitivity false; [apply Z.ltb_ge; lia|].
      symmetry. apply Z.ltb_ge. lia.
    + intros Hlt. lia.
Qed.

(** The loop of the Up filter never breaks. *)
Lemma full_loop g n out :
  length out = n ->
  (forall j, (j < n)%nat -> is_byte (g j)) ->
  for_loop n 0 (store_step g None) (out, 0)
    = Some (map g (seq 0 n), psum g 0 n).
Proof.
  intros Hl Hb.
  destruct (store_loop g None n 0 out 0) as (out' & s' & H & Hl' & _ & C).
  { intros j Hj. apply Hb. lia. }
  { lia. }
  destruct C as [[Hs Hw]|(b & Hbad & _)]; [|discriminate].
  rewrite H. f_equal. f_equal; [|lia].
  apply lookup_all_map; [lia|]. intros j Hj. apply Hw. lia.
Qed.

(** The loop of the None filter only sums. *)
Lemma none_loop cur best k : forall i s,
  bytes cur -> (i + k <= length cur)%nat ->
  exists s',
    for_loop k i (Filter.none_body cur best) s = Some s' /\
    ((s' = s + psum (FilterSpec.byte_at cur) i k)
     \/ (best <= s' <= s + psum (FilterSpec.byte_at cur) i k)).
Proof.
  induction k as [|k IH]; intros i s Hb Hlen.
  - exists s. rewrite psum_0. split; [reflexivity|]. left. lia.
  - cbn [for_loop]. unfold Filter.none_body at 1.
    rewrite (byte_at_lookup cur i) by lia. cbn [mbind option_bind].
    pose proof (abs8_nonneg _ (byte_at_is_byte cur i Hb)) as Habs.
    pose proof (psum_nonneg (FilterSpec.byte_at cur) k (S i)
                  (fun j _ => byte_at_is_byte cur j Hb)) as Hps.
    rewrite psum_S.
    destruct (s + abs8 (FilterSpec.byte_at cur i) >=? best) eqn:E.
    + eexists. split; [reflexivity|]. right. apply Z.geb_le in E. lia.
    + destruct (IH (S i) (s + abs8 (FilterSpec.byte_at cur i)) Hb)
        as (s' & Hrun & C); [lia|].
      exists s'. split; [exact Hrun|]. destruct C as [C|C]; [left|right]; lia.
Qed.

Lemma none_loop_cmp cur best :
  bytes cur ->
  exists s',
    for_loop (length cur) 0 (Filter.none_body cur best) 0 = Some s' /\
    (s' <? best) = (psum (FilterSpec.byte_at cur) 0 (length cur) <? best).
Proof.
  intros Hb. destruct (none_loop cur best (length cur) 0 0 Hb) as (s' & H & C).
  { lia. }
  exists s'. split; [exact H|]. destruct C as [C|C].
  - f_equal. lia.
  - transitivity false; [apply Z.ltb_ge; lia|]. symmetry. apply Z.ltb_ge. lia.
Qed.

(** ** The loop bodies of [filter] compute the filter formulas *)

Lemma paeth_origin p : is_byte p -> paeth 0 p 0 = p.
Proof.
  unfold is_byte, paeth. intros Hp. cbn zeta.
  replace (0 + p - 0 - 0) with p by lia.
  replace (0 + p - 0 - p) with 0 by lia.
  rewrite (Z.abs_eq p) by lia. change (Z.abs 0) with 0.
  destruct (p <=? 0) eqn:E1; cbn [andb].
  - apply Z.leb_le in E1. rewrite Z.leb_refl. lia.
  - destruct (0 <=? p) eqn:E2; [reflexivity|].
    apply Z.leb_gt in E2. lia.
Qed.

Lemma left_of_head bpp l j : (j < bpp)%nat -> FilterSpec.left_of bpp l j = 0.
Proof.
  intros H. unfold FilterSpec.left_of.
  destruct (Nat.ltb_spec j bpp); [reflexivity|lia].
Qed.

Lemma left_of_tail bpp l j :
  (bpp <= j)%nat ->
  FilterSpec.left_of bpp l j = FilterSpec.byte_at l (j - bpp).
Proof.
  intros H. unfold FilterSpec.left_of.
  destruct (Nat.ltb_spec j bpp); [lia|reflexivity].
Qed.

Section Bodies.

Variables (cur prev : list Z) (bpp : nat).
Hypothesis Hcur : bytes cur.
Hypothesis Hprev : bytes prev.
Hypothesis Hlen : length prev = length cur.

Lemma up_body_step j st :
  (j < length cur)%nat ->
  Filter.up_body cur prev j st
  = store_step (FilterSpec.up_byte cur prev) None j st.
Proof.
  intros Hj. destruct st as [out sum]. unfold Filter.up_body, store_step.
  rewrite (byte_at_lookup cur j), (byte_at_lookup prev j) by lia.
  reflexivity.
Qed.

Lemma paeth_head_body_step j st :
  (j < bpp)%nat -> (j < length cur)%nat ->
  Filter.paeth_head_body cur prev j st
  = store_step (FilterSpec.paeth_byte bpp cur prev) None j st.
Proof.
  intros Hj Hn. destruct st as [out sum].
  unfold Filter.paeth_head_body, store_step, FilterSpec.paeth_byte.
  rewrite (byte_at_lookup cur j), (byte_at_lookup prev j) by lia.
  rewrite !left_of_head by exact Hj.
  rewrite paeth_origin by (by apply byte_at_is_byte).
  reflexivity.
Qed.

Lemma paeth_body_step best j st :
  (bpp <= j < length cur)%nat ->
  Filter.paeth_body cur prev bpp best j st
  = store_step (FilterSpec.paeth_byte bpp cur prev) (Some best) j st.
Proof.
  intros Hj. destruct st as [out sum].
  unfold Filter.paeth_body, store_step, FilterSpec.paeth_byte.
  rewrite (byte_at_lookup cur j), (byte_at_lookup prev j) by lia.
  rewrite (byte_at_lookup cur (j - bpp)), (byte_at_lookup prev (j - bpp))
    by lia.
  rewrite !left_of_tail by lia. reflexivity.
Qed.

Lemma sub_head_body_step j st :
  (j < bpp)%nat -> (j < length cur)%nat ->
  Filter.sub_head_body cur j st
  = store_step (FilterSpec.sub_byte bpp cur) None j st.
Proof.
  clear Hprev Hlen.
  intros Hj Hn. destruct st as [out sum].
  unfold Filter.sub_head_body, store_step, FilterSpec.sub_byte.
  rewrite (byte_at_lookup cur j) by lia.
  rewrite left_of_head by exact Hj.
  rewrite Z.sub_0_r, u8_id by (by apply byte_at_is_byte).
  reflexivity.
Qed.

Lemma sub_body_step best j st :
  (bpp <= j < length cur)%nat ->
  Filter.sub_body cur bpp best j st
  = store_step (FilterSpec.sub_byte bpp cur) (Some best) j st.
Proof.
  clear Hprev Hlen.
  intros Hj. destruct st as [out sum].
  unfold Filter.sub_body, store_step, FilterSpec.sub_byte.
  rewrite (byte_at_lookup cur j), (byte_at_lookup cur (j - bpp)) by lia.
  rewrite left_of_tail by lia. reflexivity.
Qed.

Lemma average_head_body_step j st :
  (j < bpp)%nat -> (j < length cur)%nat ->
  Filter.average_head_body cur prev j st
  = store_step (FilterSpec.average_byte bpp cur prev) None j st.
Proof.
  intros Hj Hn. destruct st as [out sum].
  unfold Filter.average_head_body, store_step, FilterSpec.average_byte.
  rewrite (byte_at_lookup cur j), (byte_at_lookup prev j) by lia.
  rewrite left_of_head by exact Hj. rewrite Z.add_0_l. reflexivity.
Qed.

Lemma half_sum_is_byte a p : is_byte a -> is_byte p -> is_byte ((a + p) / 2).
Proof.
  unfold is_byte. intros Ha Hp. split.
  - apply Z.div_pos; lia.
  - apply Z.div_lt_upper_bound; lia.
Qed.

Lemma average_body_step best j st :
  (bpp <= j < length cur)%nat ->
  Filter.average_body cur prev bpp best j st
  = store_step (FilterSpec.average_byte bpp cur prev) (Some best) j st.
Proof.
  intros Hj. destruct st as [out sum].
  unfold Filter.average_body, store_step, FilterSpec.average_byte.
  rewrite (byte_at_lookup cur j), (byte_at_lookup prev j) by lia.
  rewrite (byte_at_lookup cur (j - bpp)) by lia.
  rewrite left_of_tail by lia. cbn [mbind option_bind].
  rewrite (u8_id ((_ + _) / 2))
    by (apply half_sum_is_byte; by apply byte_at_is_byte).
  reflexivity.
Qed.

Lemma filter_byte_is_byte f j :
  is_byte (FilterSpec.filter_byte f bpp cur prev j).
Proof.
  unfold FilterSpec.filter_byte.
  destruct f as [|[|[|[|f]]]]; try apply u8_range.
  by apply byte_at_is_byte.
Qed.

Lemma cost_psum f :
  FilterSpec.cost f bpp cur prev
  = psum (FilterSpec.filter_byte f bpp cur prev) 0 (length cur).
Proof. reflexivity. Qed.

Lemma filtered_none : FilterSpec.filtered ftNone bpp cur prev = cur.
Proof.
  unfold FilterSpec.filtered. symmetry. apply lookup_all_map; [reflexivity|].
  intros j Hj. by apply byte_at_lookup.
Qed.

End Bodies.

(** ** The stages of [filter] *)

Section Stages.

Variables (cur prev : list Z) (bpp : nat).
Hypothesis Hcur : bytes cur.
Hypothesis Hprev : bytes prev.
Hypothesis Hlen : length prev = length cur.
Hypothesis Hbpp : (bpp <= length cur)%nat.

Lemma up_stage out :
  length out = length cur ->
  for_loop (length cur) 0 (Filter.up_body cur prev) (out, 0)
  = Some (FilterSpec.filtered ftUp bpp cur prev,
          FilterSpec.cost ftUp bpp cur prev).
Proof.
  intros Hl.
  rewrite (for_loop_ext (Filter.up_body cur prev)
             (store_step (FilterSpec.up_byte cur prev) None))
    by (intros j s' Hj; apply up_body_step; lia).
  rewrite full_loop; [reflexivity|exact Hl|].
  intros j _. apply (filter_byte_is_byte cur prev bpp Hcur ftUp).
Qed.

Lemma stage_of_two_phase f best out :
  length out = length cur ->
  exists out1 s1 out' s',
    for_loop bpp 0 (store_step (FilterSpec.filter_byte f bpp cur prev) None)
      (out, 0) = Some (out1, s1) /\
    for_loop (length cur - bpp) bpp
      (store_step (FilterSpec.filter_byte f bpp cur prev) (Some best))
      (out1, s1) = Some (out', s') /\
    stage_ok cur prev bpp f best out' s'.
Proof.
  intros Hl.
  destruct (two_phase_loop (FilterSpec.filter_byte f bpp cur prev) best bpp
              (length cur) out Hbpp Hl)
    as (out1 & s1 & out' & s' & H1 & H2 & Hl' & Hc & Hw).
  { intros j _. by apply filter_byte_is_byte. }
  exists out1, s1, out', s'. repeat split; try assumption; by apply Hw.
Qed.

Lemma paeth_stage best out :
  length out = length cur ->
  exists out1 s1 out' s',
    for_loop bpp 0 (Filter.paeth_head_body cur prev) (out, 0)
      = Some (out1, s1) /\
    for_loop (length cur - bpp) bpp (Filter.paeth_body cur prev bpp best)
      (out1, s1) = Some (out', s') /\
    stage_ok cur prev bpp ftPaeth best out' s'.
Proof.
  intros Hl.
  destruct (stage_of_two_phase ftPaeth best out Hl)
    as (out1 & s1 & out' & s' & H1 & H2 & Hok).
  exists out1, s1, out', s'. split; [|split; [|exact Hok]].
  - rewrite <- H1. apply for_loop_ext. intros j s Hj.
    apply paeth_head_body_step; (assumption || lia).
  - rewrite <- H2. apply for_loop_ext. intros j s Hj.
    apply paeth_body_step; (assumption || lia).
Qed.

Lemma sub_stage best out :
  length out = length cur ->
  exists out1 s1 out' s',
    for_loop bpp 0 (Filter.sub_head_body cur) (out, 0) = Some (out1, s1) /\
    for_loop (length cur - bpp) bpp (Filter.sub_body cur bpp best)
      (out1, s1) = Some (out', s') /\
    stage_ok cur prev bpp ftSub best out' s'.
Proof.
  intros Hl.
  destruct (stage_of_two_phase ftSub best out Hl)
    as (out1 & s1 & out' & s' & H1 & H2 & Hok).
  exists out1, s1, out', s'. split; [|split; [|exact Hok]].
  - rewrite <- H1. apply for_loop_ext. intros j s Hj.
    apply sub_head_body_step; (assumption || lia).
  - rewrite <- H2. apply for_loop_ext. intros j s Hj.
    apply sub_body_step; (assumption || lia).
Qed.

Lemma average_stage best out :
  length out = length cur ->
  exists out1 s1 out' s',
    for_loop bpp 0 (Filter.average_head_body cur prev) (out, 0)
      = Some (out1, s1) /\
    for_loop (length cur - bpp) bpp (Filter.average_body cur prev bpp best)
      (out1, s1) = Some (out', s') /\
    stage_ok cur prev bpp ftAverage best out' s'.
Proof.
  intros Hl.
  destruct (stage_of_two_phase ftAverage best out Hl)
    as (out1 & s1 & out' & s' & H1 & H2 & Hok).
  exists out1, s1, out', s'. split; [|split; [|exact Hok]].
  - rewrite <- H1. apply for_loop_ext. intros j s Hj.
    apply average_head_body_step; (assumption || lia).
  - rewrite <- H2. apply for_loop_ext. intros j s Hj.
    apply average_body_step; (assumption || lia).
Qed.

Lemma none_stage best :
  exists s',
    for_loop (length cur) 0 (Filter.none_body cur best) 0 = Some s' /\
    stage_ok cur prev bpp ftNone best (FilterSpec.filtered ftNone bpp cur prev) s'.
Proof.
  destruct (none_loop cur best (length cur) 0 0 Hcur) as (s' & H & C); [lia|].
  exists s'. split; [exact H|]. unfold stage_ok.
  split; [unfold FilterSpec.filtered; by rewrite length_map, length_seq|].
  rewrite (cost_psum cur prev bpp ftNone).
  change (FilterSpec.filter_byte ftNone bpp cur prev)
    with (FilterSpec.byte_at cur).
  destruct C as [C|C].
  - split; [f_equal; lia|]. intros _. split; [lia|reflexivity].
  - split; [|intros Hlt; lia].
    transitivity false; [apply Z.ltb_ge; lia|]. symmetry. apply Z.ltb_ge. lia.
Qed.

Lemma stage_win f best out sum :
  stage_ok cur prev bpp f best out sum ->
  (FilterSpec.cost f bpp cur prev <? best) = true ->
  (sum <? best) = true /\ sum = FilterSpec.cost f bpp cur prev /\
  out = FilterSpec.filtered f bpp cur prev.
Proof.
  intros (Hl & Hc & Hw) E. rewrite <- Hc in E. split; [exact E|].
  apply Hw. by apply Z.ltb_lt.
Qed.

Lemma stage_lose f best out sum :
  stage_ok cur prev bpp f best out sum ->
  (FilterSpec.cost f bpp cur prev <? best) = false ->
  (sum <? best) = false.
Proof. intros (Hl & Hc & Hw) E. by rewrite Hc. Qed.

Ltac settle_stage H E :=
  first
    [ let Hs := fresh "Hs" in
      let Hsum := fresh "Hsum" in
      let Hout := fresh "Hout" in
      destruct (stage_win _ _ _ _ H E) as (Hs & Hsum & Hout);
      rewrite Hs;
      repeat match goal with Heq : ?x = _ |- _ => is_var x; subst x end
    | rewrite (stage_lose _ _ _ _ H E) ].

Lemma filter_run t0 t1 t2 t3 t4 tp d1 d2 d3 d4 :
  length d1 = length cur -> length d2 = length cur ->
  length d3 = length cur -> length d4 = length cur ->
  exists o1 o3 o4,
    Filter.filter (Rows (t0 :: cur) (t1 :: d1) (t2 :: d2) (t3 :: d3) (t4 :: d4))
                  (tp :: prev) bpp
    = Some (FilterSpec.exhaustive bpp cur prev,
            Rows (t0 :: cur) (t1 :: o1)
                 (t2 :: FilterSpec.filtered ftUp bpp cur prev)
                 (t3 :: o3) (t4 :: o4)) /\
    (FilterSpec.exhaustive bpp cur prev = ftSub ->
     o1 = FilterSpec.filtered ftSub bpp cur prev) /\
    (FilterSpec.exhaustive bpp cur prev = ftAverage ->
     o3 = FilterSpec.filtered ftAverage bpp cur prev) /\
    (FilterSpec.exhaustive bpp cur prev = ftPaeth ->
     o4 = FilterSpec.filtered ftPaeth bpp cur prev).
Proof.
  intros Hl1 Hl2 Hl3 Hl4.
  unfold Filter.filter.
  cbn [split_tag row0 row1 row2 row3 row4 mbind option_bind].
  rewrite (up_stage d2 Hl2).
  cbn [mbind option_bind].
  set (cU := FilterSpec.cost ftUp bpp cur prev).
  destruct (paeth_stage cU d4 Hl4) as (p1 & sp1 & o4 & s4 & -> & HP2 & HP).
  cbn [mbind option_bind]. rewrite HP2. cbn [mbind option_bind].
  destruct (FilterSpec.cost ftPaeth bpp cur prev <? cU) eqn:EP;
    settle_stage HP EP;
  match goal with
  | |- context [Filter.none_body cur ?best] =>
      destruct (none_stage best) as (sN & -> & HN);
      cbn [mbind option_bind];
      destruct (FilterSpec.cost ftNone bpp cur prev <? best) eqn:EN;
      settle_stage HN EN
  end;
  match goal with
  | |- context [Filter.sub_body cur bpp ?best] =>
      destruct (sub_stage best d1 Hl1) as (h1 & sh1 & o1 & s1 & -> & HS2 & HS);
      cbn [mbind option_bind]; rewrite HS2; cbn [mbind option_bind];
      destruct (FilterSpec.cost ftSub bpp cur prev <? best) eqn:ES;
      settle_stage HS ES
  end;
  match goal with
  | |- context [Filter.average_body cur prev bpp ?best] =>
      destruct (average_stage best d3 Hl3)
        as (h3 & sh3 & o3 & s3 & -> & HA2 & HA);
      cbn [mbind option_bind]; rewrite HA2; cbn [mbind option_bind];
      destruct (FilterSpec.cost ftAverage bpp cur prev <? best) eqn:EA;
      settle_stage HA EA
  end;
  unfold FilterSpec.exhaustive, FilterSpec.challenge;
  cbn [fold_left fst snd]; fold cU;
  rewrite EP; cbn [fst snd]; rewrite EN; cbn [fst snd];
  rewrite ES; cbn [fst snd]; rewrite EA; cbn [fst snd];
  do 3 eexists; (split; [reflexivity|]);
  unfold ftNone, ftSub, ftUp, ftAverage, ftPaeth;
  repeat split; intros Hf; (reflexivity || discriminate Hf).
Qed.
End Stages.

(** ** The selection made by [filter] *)

Lemma exhaustive_first_minimal bpp cur prev :
  let f := FilterSpec.exhaustive bpp cur prev in
  In f FilterSpec.priority /\
  (forall g, In g FilterSpec.priority ->
     FilterSpec.cost f bpp cur prev <= FilterSpec.cost g bpp cur prev) /\
  (forall i j g,
     FilterSpec.priority !! i = Some g ->
     FilterSpec.priority !! j = Some f ->
     (i < j)%nat ->
     FilterSpec.cost f bpp cur prev < FilterSpec.cost g bpp cur prev).
Proof.
  unfold FilterSpec.exhaustive, FilterSpec.challenge, FilterSpec.priority.
  cbn [fold_left fst snd].
  set (cU := FilterSpec.cost ftUp bpp cur prev).
  set (cP := FilterSpec.cost ftPaeth bpp cur prev).
  destruct (cP <? cU) eqn:EP; cbn [fst snd];
  set (cN := FilterSpec.cost ftNone bpp cur prev);
  match goal with |- context [cN <? ?b] => destruct (cN <? b) eqn:EN end;
  cbn [fst snd];
  set (cS := FilterSpec.cost ftSub bpp cur prev);
  match goal with |- context [cS <? ?b] => destruct (cS <? b) eqn:ES end;
  cbn [fst snd];
  set (cA := FilterSpec.cost ftAverage bpp cur prev);
  match goal with |- context [cA <? ?b] => destruct (cA <? b) eqn:EA end;
  cbn [fst snd];
  repeat match goal with
         | H : (_ <? _) = true |- _ => apply Z.ltb_lt in H
         | H : (_ <? _) = false |- _ => apply Z.ltb_ge in H
         end;
  (split; [cbn; tauto|]);
  (split;
   [ intros g Hg; cbn in Hg;
     repeat (destruct Hg as [<-|Hg]; [subst cU cP cN cS cA; lia|]);
     contradiction
   | intros i j g Hi Hj Hij;
     destruct j as [|[|[|[|[|j]]]]]; try discriminate Hj;
     destruct i as [|[|[|[|[|i]]]]]; try lia; try discriminate Hi;
     injection Hi as <-; subst cU cP cN cS cA; lia ]).
Qed.

Lemma tagged_rows cr n :
  FilterSpec.tagged cr n ->
  exists d0 d1 d2 d3 d4,
    cr = Rows (0 :: d0) (1 :: d1) (2 :: d2) (3 :: d3) (4 :: d4) /\
    length d0 = n /\ length d1 = n /\ length d2 = n /\
    length d3 = n /\ length d4 = n.
Proof.
  intros H. destruct cr as [r0 r1 r2 r3 r4].
  destruct (H 0%nat) as (d0 & E0 & L0); [unfold nFilter; lia|].
  destruct (H 1%nat) as (d1 & E1 & L1); [unfold nFilter; lia|].
  destruct (H 2%nat) as (d2 & E2 & L2); [unfold nFilter; lia|].
  destruct (H 3%nat) as (d3 & E3 & L3); [unfold nFilter; lia|].
  destruct (H 4%nat) as (d4 & E4 & L4); [unfold nFilter; lia|].
  cbn in E0, E1, E2, E3, E4.
  injection E0 as ->. injection E1 as ->. injection E2 as ->.
  injection E3 as ->. injection E4 as ->.
  exists d0, d1, d2, d3, d4. repeat split; assumption.
Qed.

(** C2 (amended).  For all current and previous rows of equal length [n]
    and every [bpp <= n], [filter] returns: it yields the index that the
    exhaustive computation selects, which is the first filter in the
    priority order Up, Paeth, None, Sub, Average whose total [abs8] sum
    over the fully filtered row is minimal; the early exits never change
    the index; and the buffer [cr[f]] of the returned index holds the tag
    [f] followed by the fully filtered row. *)
Theorem filter_selects_first_minimal
    (cr : rows) (pr cur prev : list Z) (tp : Z) (bpp : nat) :
  FilterSpec.tagged cr (length cur) ->
  row0 cr = Z.of_nat ftNone :: cur ->
  pr = tp :: prev ->
  bytes cur -> bytes prev -> length prev = length cur ->
  (bpp <= length cur)%nat ->
  let f := FilterSpec.exhaustive bpp cur prev in
  exists cr',
    Filter.filter cr pr bpp = Some (f, cr') /\
    rows_get cr' f = Some (Z.of_nat f :: FilterSpec.filtered f bpp cur prev) /\
    In f FilterSpec.priority /\
    (forall g, In g FilterSpec.priority ->
       FilterSpec.cost f bpp cur prev <= FilterSpec.cost g bpp cur prev) /\
    (forall i j g,
       FilterSpec.priority !! i = Some g ->
       FilterSpec.priority !! j = Some f ->
       (i < j)%nat ->
       FilterSpec.cost f bpp cur prev < FilterSpec.cost g bpp cur prev).
Proof.
  intros Htag Hrow0 -> Hcur Hprev Hlen Hbpp f.
  destruct (tagged_rows _ _ Htag)
    as (d0 & d1 & d2 & d3 & d4 & -> & L0 & L1 & L2 & L3 & L4).
  cbn in Hrow0. injection Hrow0 as ->.
  destruct (filter_run cur prev bpp Hcur Hprev Hlen Hbpp 0 1 2 3 4 tp
              d1 d2 d3 d4 L1 L2 L3 L4)
    as (o1 & o3 & o4 & Hrun & HS & HA & HP).
  fold f in Hrun, HS, HA, HP.
  destruct (exhaustive_first_minimal bpp cur prev) as (Hin & Hmin & Hfirst).
  fold f in Hin, Hmin, Hfirst.
  eexists. split; [exact Hrun|]. split; [|auto].
  cbn in Hin.
  destruct Hin as [E|[E|[E|[E|[E|[]]]]]]; rewrite <- E in *; cbn.
  - reflexivity.
  - by rewrite HP.
  - by rewrite (filtered_none cur prev bpp).
  - by rewrite HS.
  - by rewrite HA.
Qed.

Lemma filter_selects_first_minimal_witness :
  exists cr',
    Filter.filter (Rows [0;128;150] [1;0;0] [2;0;0] [3;0;0] [4;0;0])
                  [0;0;200] 1
    = Some (ftAverage, cr') /\
    rows_get cr' ftAverage = Some [3;128;242].
Proof.
  destruct (filter_selects_first_minimal
              (Rows [0;128;150] [1;0;0] [2;0;0] [3;0;0] [4;0;0])
              [0;0;200] [128;150] [0;200] 0 1%nat)
    as (cr' & Hrun & Hrow & _).
  - intros f Hf. unfold nFilter in Hf.
    destruct f as [|[|[|[|[|f]]]]]; try lia; eexists; split; reflexivity.
  - reflexivity.
  - reflexivity.
  - repeat constructor; unfold is_byte; lia.
  - repeat constructor; unfold is_byte; lia.
  - reflexivity.
  - cbn. lia.
  - exists cr'. split; [exact Hrun|exact Hrow].
Defined.

(** C2, as stated, quantifies over every [bpp >= 1]; with [bpp] above
    the row length the head loops index past the end of the row. *)
Lemma filter_panics_when_bpp_exceeds_row :
  let cr := Rows [0;5] [1;0] [2;0] [3;0] [4;0] in
  FilterSpec.tagged cr 1 /\ bytes [5] /\ bytes [3] /\ (1 <= 2)%nat /\
  Filter.filter cr [0;3] 2 = None /\
  ~ (exists f cr', Filter.filter cr [0;3] 2 = Some (f, cr')).
Proof.
  cbn zeta. split.
  { intros f Hf. unfold nFilter in Hf.
    destruct f as [|[|[|[|[|f]]]]]; try lia; eexists; split; reflexivity. }
  split; [repeat constructor; unfold is_byte; lia|].
  split; [repeat constructor; unfold is_byte; lia|].
  split; [lia|].
  split; [vm_compute; reflexivity|].
  intros (f & cr' & H). vm_compute in H. discriminate H.
Qed.

(** ** The Average filter *)

(** C3 (amended).  The byte that the Average loops store at index [i] is
    [cur[i] - floor((cur[i-bpp] + prev[i]) / 2)] modulo 256, where the sum
    [cur[i-bpp] + prev[i]] is an integer in 0..510 that is halved without
    wrapping, and [cur[i-bpp]] is 0 for [i < bpp]. *)
Theorem average_filter_formula
    (cur prev out : list Z) (bpp i : nat) (best sum : Z) :
  bytes cur -> bytes prev ->
  length prev = length cur -> length out = length cur ->
  (i < length cur)%nat ->
  let v := FilterSpec.average_byte bpp cur prev i in
  ((i < bpp)%nat ->
   v = u8 (FilterSpec.byte_at cur i - FilterSpec.byte_at prev i / 2) /\
   Filter.average_head_body cur prev i (out, sum)
   = Some ((<[i := v]> out, sum + abs8 v), false)) /\
  ((bpp <= i)%nat ->
   v = u8 (FilterSpec.byte_at cur i
           - (FilterSpec.byte_at cur (i - bpp) + FilterSpec.byte_at prev i) / 2) /\
   Filter.average_body cur prev bpp best i (out, sum)
   = Some ((<[i := v]> out, sum + abs8 v), sum + abs8 v >=? best)).
Proof.
  intros Hcur Hprev Hlen Hout Hi v. split; intros Hb.
  - split.
    + subst v. unfold FilterSpec.average_byte.
      by rewrite left_of_head, Z.add_0_l.
    + rewrite (average_head_body_step cur prev bpp Hlen) by lia.
      unfold store_step. rewrite store_Some by lia. reflexivity.
  - split.
    + subst v. unfold FilterSpec.average_byte. by rewrite left_of_tail.
    + rewrite (average_body_step cur prev bpp Hcur Hprev Hlen) by lia.
      unfold store_step. rewrite store_Some by lia. reflexivity.
Qed.

Lemma average_filter_formula_witness :
  Filter.average_body [128;150] [0;200] 1 1000 1 ([0;0], 0)
  = Some (([0;242], 14), false).
Proof.
  destruct (average_filter_formula [128;150] [0;200] [0;0] 1 1 1000 0)
    as [_ H].
  - repeat constructor; unfold is_byte; lia.
  - repeat constructor; unfold is_byte; lia.
  - reflexivity.
  - reflexivity.
  - cbn. lia.
  - destruct (H ltac:(lia)) as [_ E]. exact E.
Defined.

(** C3, as stated, takes the sum modulo 256 before halving: on the row
    [128;150] over [0;200] with [bpp = 1] the encoder selects Average and
    emits 242 at index 1 (150 - (128+200)/2 = 150 - 164), where that
    reading gives 114 (150 - ((128+200) mod 256)/2 = 150 - 36). *)
Lemma average_sum_does_not_wrap :
  Filter.filter (Rows [0;128;150] [1;0;0] [2;0;0] [3;0;0] [4;0;0])
                [0;0;200] 1
  = Some (ftAverage,
          Rows [0;128;150] [1;128;22] [2;128;206] [3;128;242] [4;128;206]) /\
  FilterSpec.average_byte_wrapping 1 [128;150] [0;200] 1 = 114 /\
  FilterSpec.average_byte 1 [128;150] [0;200] 1 = 242.
Proof. vm_compute. repeat split; reflexivity. Qed.

(** ** Scratch buffers *)

Lemma store_length (buf : list Z) i v buf' :
  store buf i v = Some buf' -> length buf' = length buf.
Proof.
  unfold store. destruct (decide _); [|discriminate].
  intros [= <-]. apply length_insert.
Qed.

Lemma blit_length (buf : list Z) off data buf' :
  blit buf off data = Some buf' -> length buf' = length buf.
Proof.
  unfold blit. destruct (decide _) as [Hle|]; [|discriminate].
  intros [= <-]. rewrite !length_app, length_take, length_drop. lia.
Qed.

Lemma copy_at_length (buf : list Z) off data buf' :
  copy_at buf off data = Some buf' -> length buf' = length buf.
Proof.
  unfold copy_at. destruct (decide _) as [Hle|]; [|discriminate].
  intros [= <-]. rewrite !length_app, !length_take, length_drop. lia.
Qed.

(** Chains of scratch-buffer updates keep the length of the buffer. *)
Ltac buffer_lengths :=
  repeat match goal with
  | Hs : store _ _ _ = Some _ |- _ => apply store_length in Hs
  | Hs : blit _ _ _ = Some _ |- _ => apply blit_length in Hs
  | Hs : copy_at _ _ _ = Some _ |- _ => apply copy_at_length in Hs
  end.

(** ** The session backbone *)

Section Backbone.

Context `{Collaborators}.

Lemma steps_refl e : steps e e [].
Proof.
  unfold steps. repeat split; eauto.
  - by left.
  - exists []. repeat split; [constructor|]. cbn. by rewrite app_nil_r.
Qed.

Lemma zip_with_app_frame t1 t2 (p1 p2 : list (list Z)) :
  length p1 = length t1 ->
  zip_with frame (t1 ++ t2) (p1 ++ p2)
  = zip_with frame t1 p1 ++ zip_with frame t2 p2.
Proof. intros Hl. apply zip_with_app. by symmetry. Qed.

Lemma steps_trans e1 e2 e3 t1 t2 :
  steps e1 e2 t1 -> steps e2 e3 t2 -> steps e1 e3 (t1 ++ t2).
Proof.
  intros ((Ha1 & Ha2 & Ha3 & Ha4 & Ha5) & Hb & Hc)
         ((Ha1' & Ha2' & Ha3' & Ha4' & Ha5') & Hb' & Hc').
  split; [|split].
  - repeat split; try congruence. lia.
  - intros r Hr. destruct (Hb r Hr) as [Hw [Hr'|[n Hr']]].
    + destruct (Hb' r Hr') as [Hw' Hs]. split; [congruence|exact Hs].
    + destruct (Hb' _ Hr') as [Hw' [Hs|Hs]].
      * split; [congruence|]. right. by exists n.
      * split; [congruence|]. by right.
  - intros He3. destruct (Hc' He3) as (He2 & p2 & Hl2 & Hf2 & Ho2).
    destruct (Hc He2) as (He1 & p1 & Hl1 & Hf1 & Ho1).
    split; [exact He1|]. exists (p1 ++ p2).
    split; [rewrite !length_app; congruence|].
    split; [by apply Forall_app|].
    rewrite Ho2, Ho1, zip_with_app_frame by exact Hl1.
    by rewrite concat_app, app_assoc.
Qed.

Lemma write_to_sink_facts e b :
  let e' := write_to_sink e b in
  enc e' = enc e /\ cbits e' = cbits e /\ tmp e' = tmp e /\
  fail_at (w e') = fail_at (w e) /\
  calls (w e') = S (calls (w e)) /\
  (err e' = None -> out (w e') = out (w e) ++ b).
Proof.
  unfold write_to_sink, sink_write.
  destruct (fail_at (w e) (calls (w e))) as [[n r]|]; cbn;
    repeat split; try reflexivity; discriminate.
Qed.

Lemma length_be32 v : length (be32 v) = 4%nat.
Proof. reflexivity. Qed.

Lemma frame_unfold name b :
  frame name b
  = (be32 (Z.of_nat (length b)) ++ take 4 (str_bytes name)) ++ b
    ++ be32 (crc32_IEEE (drop 4 (be32 (Z.of_nat (length b))
                                 ++ take 4 (str_bytes name)) ++ b)).
Proof.
  unfold frame. rewrite (drop_app_length' _ _ 4) by reflexivity.
  by rewrite <- !app_assoc.
Qed.

Lemma writeChunk_steps e b name : steps e (writeChunk e b name) [name].
Proof.
  unfold writeChunk. destruct (err e) as [r|] eqn:He.
  { split; [repeat split; lia|].
    split; [intros r' Hr'; split; [reflexivity|by left]|].
    intros He'. congruence. }
  destruct (negb _) eqn:Hn.
  { split; [repeat split; cbn; lia|]. split; [intros r'; congruence|].
    cbn. discriminate. }
  apply negb_false_iff, Z.eqb_eq in Hn.
  set (hd := be32 _ ++ _). set (ft := be32 _).
  pose proof (write_to_sink_facts e hd) as (A1 & A2 & A3 & A4 & A5 & A6).
  set (e1 := write_to_sink e hd) in *.
  destruct (err e1) as [r1|] eqn:He1.
  { split; [repeat split; try congruence; lia|].
    split; [intros r'; congruence|]. congruence. }
  pose proof (write_to_sink_facts e1 b) as (B1 & B2 & B3 & B4 & B5 & B6).
  set (e2 := write_to_sink e1 b) in *.
  destruct (err e2) as [r2|] eqn:He2.
  { split; [repeat split; try congruence; lia|].
    split; [intros r'; congruence|]. congruence. }
  pose proof (write_to_sink_facts e2 ft) as (C1 & C2 & C3 & C4 & C5 & C6).
  set (e3 := write_to_sink e2 ft) in *.
  split; [repeat split; try congruence; lia|].
  split; [intros r'; congruence|].
  intros He3. split; [exact He|]. exists [b].
  split; [reflexivity|]. split.
  { constructor; [|constructor]. rewrite <- Hn. unfold u32.
    apply Z.mod_pos_bound. lia. }
  cbn [zip_with concat]. rewrite app_nil_r, frame_unfold.
  rewrite (C6 He3), (B6 eq_refl), (A6 eq_refl).
  subst hd ft. rewrite Hn. by rewrite <- !app_assoc.
Qed.


Lemma steps_stuck e r tags : err e = Some r -> steps e e tags.
Proof.
  intros He. split; [repeat split; lia|].
  split; [intros r' Hr'; split; [reflexivity|by left]|]. congruence.
Qed.

Lemma steps_fail e r tags :
  err e = None -> steps e (set_err e (Some r)) tags.
Proof.
  intros He. split; [repeat split; cbn; lia|].
  split; [intros r'; congruence|]. cbn. discriminate.
Qed.

Lemma steps_set_tmp e t :
  length t = length (tmp e) -> steps e (set_tmp e t) [].
Proof.
  intros Hl. split; [repeat split; cbn; (lia || congruence)|].
  split; [intros r Hr; split; [reflexivity|by left]|].
  cbn. intros He. split; [exact He|]. exists [].
  repeat split; [constructor|]. cbn. by rewrite app_nil_r.
Qed.

Lemma scratch_chunk_steps e t b name :
  length t = length (tmp e) ->
  steps e (writeChunk (set_tmp e t) b name) [name].
Proof.
  intros Hl. change [name] with ([] ++ [name]).
  eapply steps_trans; [by apply steps_set_tmp|apply writeChunk_steps].
Qed.

End Backbone.

(** ** The metadata writers, one chunk each *)

Import Layout.

(** The writers of a metadata field that is absent, or that find the
    sticky error set, return the session as it is. *)
Ltac absent_or_stuck :=
  match goal with
  | |- Some ?e = Some _ -> _ => intros [= <-]
  end;
  first [ apply steps_refl
        | eapply steps_stuck; eassumption ].

(** Takes a run of a writer apart, bind by bind. *)
Ltac crack Hrun :=
  repeat match type of Hrun with
  | (let '(_, _) := ?p in _) = Some _ => destruct p
  | (mbind _ _) = Some _ =>
      let x := fresh "x" in
      let Hx := fresh "Hx" in
      apply bind_Some in Hrun as (x & Hx & Hrun); try crack Hx
  | (if ?c then _ else _) = Some _ => destruct c
  | Some _ = Some _ => injection Hrun as <-
  end.

Ltac scratch_writer :=
  let Hrun := fresh "Hrun" in
  intros Hrun; simplify_option_eq; buffer_lengths;
  apply scratch_chunk_steps; congruence.

Section WriterSteps.

Context `{Collaborators}.

Lemma maybeWriteGAMA_steps e md e' :
  maybeWriteGAMA e md = Some e' -> steps e e' (field_tag md Gamma "gAMA").
Proof.
  unfold maybeWriteGAMA, field_tag. destruct md as [m|]; [|absent_or_stuck].
  destruct (Gamma m) as [g|]; cbn [opt_tag]; [|absent_or_stuck].
  destruct (err e) as [r|] eqn:He; [absent_or_stuck|]. scratch_writer.
Qed.

Lemma maybeWriteCHRM_steps e md e' :
  maybeWriteCHRM e md = Some e' -> steps e e' (field_tag md chroma "cHRM").
Proof.
  unfold maybeWriteCHRM, field_tag. destruct md as [m|]; [|absent_or_stuck].
  destruct (chroma m) as [g|]; cbn [opt_tag]; [|absent_or_stuck].
  destruct (err e) as [r|] eqn:He; [absent_or_stuck|]. scratch_writer.
Qed.

Lemma maybeWriteSRGB_steps e md e' :
  maybeWriteSRGB e md = Some e' -> steps e e' (field_tag md SRGBIntent "sRGB").
Proof.
  unfold maybeWriteSRGB, field_tag. destruct md as [m|]; [|absent_or_stuck].
  destruct (SRGBIntent m) as [g|]; cbn [opt_tag]; [|absent_or_stuck].
  destruct (err e) as [r|] eqn:He; [absent_or_stuck|]. scratch_writer.
Qed.

Lemma maybeWriteTIME_steps e md e' :
  maybeWriteTIME e md = Some e' ->
  steps e e' (field_tag md LastModified "tIME").
Proof.
  unfold maybeWriteTIME, field_tag.
  destruct (err e) as [r|] eqn:He; [absent_or_stuck|].
  destruct md as [m|]; [|absent_or_stuck].
  destruct (LastModified m) as [g|]; cbn [opt_tag]; [|absent_or_stuck].
  scratch_writer.
Qed.

Lemma maybeWritePHYS_steps e md e' :
  maybeWritePHYS e md = Some e' -> steps e e' (field_tag md dimension "pHYs").
Proof.
  unfold maybeWritePHYS, field_tag. destruct md as [m|]; [|absent_or_stuck].
  destruct (dimension m) as [g|]; cbn [opt_tag]; [|absent_or_stuck].
  destruct (err e) as [r|] eqn:He; [absent_or_stuck|]. scratch_writer.
Qed.

Lemma maybeWriteICCP_steps e md e' :
  maybeWriteICCP e md = Some e' -> steps e e' (field_tag md icc "iCCP").
Proof.
  unfold maybeWriteICCP, field_tag. destruct md as [m|]; [|absent_or_stuck].
  destruct (err e) as [r|] eqn:He; [absent_or_stuck|].
  destruct (icc m) as [[r|prof]|]; cbn [opt_tag].
  - rewrite bool_decide_eq_false_2 by discriminate. cbn [andb].
    intros [= <-]. by apply steps_fail.
  - rewrite bool_decide_eq_false_2 by discriminate. cbn [andb].
    destruct (pngCompress e prof) as [r|[comp method]].
    + intros [= <-]. by apply steps_fail.
    + intros [= <-]. apply writeChunk_steps.
  - destruct (_ && _); absent_or_stuck.
Qed.

Lemma maybeWriteTEXT_steps e t e' :
  maybeWriteTEXT e t = Some e' -> steps e e' ["tEXt"].
Proof.
  unfold maybeWriteTEXT.
  destruct (err e) as [r|] eqn:He; [absent_or_stuck|].
  intros Hrun. simplify_option_eq. apply writeChunk_steps.
Qed.

Lemma maybeWriteZTXT_steps e t e' :
  maybeWriteZTXT e t = Some e' -> steps e e' ["zTXt"].
Proof.
  unfold maybeWriteZTXT.
  destruct (err e) as [r|] eqn:He; [absent_or_stuck|].
  destruct (pngCompress e (Value t)) as [r|[val method]].
  { intros [= <-]. by apply steps_fail. }
  intros Hrun. crack Hrun; buffer_lengths;
    apply scratch_chunk_steps; congruence.
Qed.

Lemma maybeWriteITXT_steps e t e' :
  maybeWriteITXT e t = Some e' -> steps e e' ["iTXt"].
Proof.
  unfold maybeWriteITXT.
  destruct (err e) as [r|] eqn:He; [absent_or_stuck|].
  destruct (pngCompress e (Value t)) as [r|[val method]].
  { intros [= <-]. by apply steps_fail. }
  intros Hrun. crack Hrun; apply writeChunk_steps.
Qed.

Lemma maybeWriteXMP_steps e md e' :
  maybeWriteXMP e md = Some e' -> steps e e' (xmp_tag md).
Proof.
  unfold maybeWriteXMP, xmp_tag. destruct md as [m|]; [|absent_or_stuck].
  destruct (rawXmp m) as [raw|], (xmp m) as [[r|text]|];
    try absent_or_stuck;
    (destruct (err e) as [r'|] eqn:He; [absent_or_stuck|]);
    try (intros [= <-]; by apply steps_fail);
    apply maybeWriteITXT_steps.
Qed.

Lemma maybeWriteHIST_steps e md e' :
  maybeWriteHIST e md = Some e' -> steps e e' (field_tag md Histogram "hIST").
Proof.
  unfold maybeWriteHIST, field_tag. destruct md as [m|]; [|absent_or_stuck].
  destruct (Histogram m) as [g|]; cbn [opt_tag]; [|absent_or_stuck].
  destruct (err e) as [r|] eqn:He; [absent_or_stuck|].
  intros Hrun. simplify_option_eq. apply writeChunk_steps.
Qed.

Lemma write_texts_steps ts : forall e e',
  write_texts e ts = Some e' -> steps e e' (flat_map text_tag ts).
Proof.
  induction ts as [|v ts IH]; intros e e'; cbn [write_texts flat_map].
  - intros [= <-]. apply steps_refl.
  - intros Hrun. apply bind_Some in Hrun as (e1 & H1 & H2).
    eapply steps_trans; [|by apply IH].
    unfold text_tag. destruct (entryType v).
    + eapply maybeWriteTEXT_steps; eassumption.
    + eapply maybeWriteZTXT_steps; eassumption.
    + eapply maybeWriteITXT_steps; eassumption.
    + injection H1 as <-. apply steps_refl.
Qed.

End WriterSteps.

(** ** The palette loop *)

Lemma scan_last_translucent p : forall i last,
  scan_last i p last
  = match last_translucent p with
    | Some k => Z.of_nat (i + k)
    | None => last
    end.
Proof.
  induction p as [|c p IH]; intros i last; cbn [scan_last last_translucent].
  - reflexivity.
  - rewrite IH. destruct (last_translucent p) as [k|].
    + f_equal. lia.
    + destruct (A c =? 255); cbn [negb]; [reflexivity|f_equal; lia].
Qed.

Lemma last_translucent_None p :
  last_translucent p = None <-> Forall (fun c => A c = 255) p.
Proof.
  induction p as [|c p IH]; cbn [last_translucent].
  - split; [constructor|reflexivity].
  - destruct (last_translucent p) as [k|].
    + split; [discriminate|]. intros Hall. inversion Hall as [|? ? _ Hp].
      apply IH in Hp. discriminate.
    + destruct (A c =? 255) eqn:Ea.
      * apply Z.eqb_eq in Ea. split; [|reflexivity].
        intros _. constructor; [exact Ea|by apply IH].
      * apply Z.eqb_neq in Ea. split; [discriminate|].
        intros Hall. inversion Hall. contradiction.
Qed.

(** [last_translucent] is the index of the last entry that is not fully
    opaque. *)
Lemma last_translucent_Some p : forall k,
  last_translucent p = Some k ->
  (exists c, p !! k = Some c /\ A c <> 255) /\
  (forall j c, (k < j)%nat -> p !! j = Some c -> A c = 255).
Proof.
  induction p as [|c p IH]; intros k; cbn [last_translucent].
  - discriminate.
  - destruct (last_translucent p) as [k'|] eqn:E.
    + intros [= <-]. destruct (IH k' eq_refl) as [(c' & Hc' & Ha) Hafter].
      split; [by exists c'|].
      intros [|j] c'' Hj Hl; [lia|]. apply (Hafter j); [lia|exact Hl].
    + destruct (A c =? 255) eqn:Ea; [discriminate|]. intros [= <-].
      apply Z.eqb_neq in Ea. split; [by exists c|].
      intros [|j] c'' Hj Hl; [lia|]. cbn in Hl.
      apply last_translucent_None in E.
      eapply (Forall_lookup_1 _ _ _ _ E). exact Hl.
Qed.

Lemma last_translucent_lt p k :
  last_translucent p = Some k -> (k < length p)%nat.
Proof.
  intros Hk. destruct (last_translucent_Some p k Hk) as [(c & Hc & _) _].
  by eapply lookup_lt_Some.
Qed.

(** What the loop of [writePLTEAndTRNS] leaves in the scratch buffer:
    the colour triples from offset [3 * i] on and the alpha values from
    offset [3 * 256 + i] on. *)
Lemma palette_loop_spec p : forall i t last,
  length t = 1024%nat -> (i + length p <= 256)%nat ->
  exists t',
    palette_loop i p t last = Some (t', scan_last i p last) /\
    length t' = 1024%nat /\
    (forall j c, p !! j = Some c ->
       t' !! (3 * (i + j))%nat = Some (R c) /\
       t' !! (3 * (i + j) + 1)%nat = Some (G c) /\
       t' !! (3 * (i + j) + 2)%nat = Some (B c) /\
       t' !! (3 * 256 + (i + j))%nat = Some (A c)) /\
    (forall k, (k < 3 * i \/ 3 * (i + length p) <= k < 3 * 256 + i
                \/ 3 * 256 + i + length p <= k)%nat ->
       t' !! k = t !! k).
Proof.
  induction p as [|c p IH]; intros i t last Hl Hi.
  - exists t. cbn. repeat split; try assumption; done.
  - cbn [palette_loop scan_last]. cbn [length] in Hi.
    replace (3 * i + 0)%nat with (3 * i)%nat by lia.
    rewrite store_Some by lia. cbn [mbind option_bind].
    rewrite store_Some by (rewrite !length_insert; lia).
    cbn [mbind option_bind].
    rewrite store_Some by (rewrite !length_insert; lia).
    cbn [mbind option_bind].
    rewrite store_Some by (rewrite !length_insert; lia).
    cbn [mbind option_bind].
    set (t1 := <[(3 * 256 + i)%nat := A c]> _).
    assert (Hl1 : length t1 = 1024%nat)
      by (subst t1; rewrite !length_insert; exact Hl).
    destruct (IH (S i) t1 (if negb (A c =? 255) then Z.of_nat i else last)
                Hl1 ltac:(lia)) as (t' & Hrun & Hl' & Hw & Hframe).
    exists t'. split; [exact Hrun|]. split; [exact Hl'|]. split.
    + intros [|j] c' Hj; cbn in Hj.
      * injection Hj as <-. replace (i + 0)%nat with i by lia.
        subst t1. repeat split.
        -- rewrite (Hframe (3 * i)%nat) by lia.
           rewrite !list_lookup_insert_ne by lia.
           apply list_lookup_insert_eq. lia.
        -- rewrite (Hframe (3 * i + 1)%nat) by lia.
           rewrite !list_lookup_insert_ne by lia.
           apply list_lookup_insert_eq. rewrite !length_insert. lia.
        -- rewrite (Hframe (3 * i + 2)%nat) by lia.
           rewrite !list_lookup_insert_ne by lia.
           apply list_lookup_insert_eq. rewrite !length_insert. lia.
        -- rewrite (Hframe (3 * 256 + i)%nat) by lia.
           apply list_lookup_insert_eq. rewrite !length_insert. lia.
      * replace (i + S j)%nat with (S i + j)%nat by lia. by apply Hw.
    + intros k Hk. cbn [length] in Hk. rewrite Hframe by lia. subst t1.
      rewrite !list_lookup_insert_ne by lia. reflexivity.
Qed.

Lemma palette_loop_last p : forall i t last t' l',
  palette_loop i p t last = Some (t', l') ->
  l' = scan_last i p last /\ length t' = length t.
Proof.
  induction p as [|c p IH]; intros i t last t' l' Hrun;
    cbn [palette_loop scan_last] in *.
  - injection Hrun as <- <-. done.
  - crack Hrun. destruct (IH _ _ _ _ _ Hrun) as [-> Hl].
    split; [reflexivity|]. buffer_lengths. congruence.
Qed.

Lemma plte_payload_length p : length (plte_payload p) = (3 * length p)%nat.
Proof.
  unfold plte_payload. induction p as [|c p IH]; cbn; [reflexivity|].
  cbn in IH. rewrite IH. lia.
Qed.

Lemma plte_payload_lookup p : forall j c,
  p !! j = Some c ->
  plte_payload p !! (3 * j)%nat = Some (R c) /\
  plte_payload p !! (3 * j + 1)%nat = Some (G c) /\
  plte_payload p !! (3 * j + 2)%nat = Some (B c).
Proof.
  induction p as [|c0 p IH]; intros j c Hj; [done|].
  destruct j as [|j]; cbn in Hj.
  - injection Hj as ->. done.
  - destruct (IH j c Hj) as (H0 & H1 & H2).
    replace (3 * S j)%nat with (S (S (S (3 * j)))) by lia.
    done.
Qed.

Lemma slice_Some (buf : list Z) lo hi :
  (lo <= hi <= length buf)%nat ->
  slice buf lo hi = Some (take (hi - lo) (drop lo buf)).
Proof. intros Hb. unfold slice. by rewrite decide_True. Qed.

Lemma plte_slice p t :
  (forall j c, p !! j = Some c ->
     t !! (3 * j)%nat = Some (R c) /\
     t !! (3 * j + 1)%nat = Some (G c) /\
     t !! (3 * j + 2)%nat = Some (B c)) ->
  (3 * length p <= length t)%nat ->
  take (3 * length p) t = plte_payload p.
Proof.
  intros Hw Hl. apply list_eq. intros k.
  destruct (decide (k < 3 * length p)%nat) as [Hk|Hk].
  - rewrite lookup_take_lt by exact Hk.
    assert (Hj : (k `div` 3 < length p)%nat)
      by (apply Nat.Div0.div_lt_upper_bound; lia).
    destruct (lookup_lt_is_Some_2 p _ Hj) as [c Hc].
    destruct (Hw _ _ Hc) as (A0 & A1 & A2).
    destruct (plte_payload_lookup _ _ _ Hc) as (B0 & B1 & B2).
    pose proof (Nat.div_mod_eq k 3) as Hdm.
    pose proof (Nat.mod_upper_bound k 3 ltac:(lia)) as Hm.
    destruct (k `mod` 3)%nat as [|[|[|r]]] eqn:Er; try lia.
    + replace k with (3 * (k `div` 3))%nat by lia. congruence.
    + replace k with (3 * (k `div` 3) + 1)%nat by lia. congruence.
    + replace k with (3 * (k `div` 3) + 2)%nat by lia. congruence.
  - rewrite lookup_take_ge by lia. symmetry.
    apply lookup_ge_None_2. rewrite plte_payload_length. lia.
Qed.

Lemma trns_slice p t k :
  (forall j c, p !! j = Some c -> t !! (3 * 256 + j)%nat = Some (A c)) ->
  (k < length p)%nat ->
  take (S k) (drop (3 * 256) t) = trns_payload p k.
Proof.
  intros Hw Hk. unfold trns_payload. apply list_eq. intros j.
  destruct (decide (j < S k)%nat) as [Hj|Hj].
  - rewrite lookup_take_lt, lookup_drop by exact Hj.
    rewrite list_lookup_fmap, lookup_take_lt by exact Hj.
    destruct (lookup_lt_is_Some_2 p j ltac:(lia)) as [c Hc].
    rewrite Hc. cbn. by apply Hw.
  - rewrite lookup_take_ge by lia.
    rewrite list_lookup_fmap, lookup_take_ge by lia. reflexivity.
Qed.

Section PaletteChunk.

Context `{Collaborators}.

(** [writePLTEAndTRNS] on a palette of valid length: a PLTE chunk with
    the colour triples, and a tRNS chunk with the alpha values up to the
    last entry that is not fully opaque, when there is one. *)
Lemma writePLTEAndTRNS_run e p :
  length (tmp e) = 1024%nat -> (1 <= length p <= 256)%nat ->
  exists t,
    length t = 1024%nat /\
    writePLTEAndTRNS e p
    = Some (let e1 := writeChunk (set_tmp e t) (plte_payload p) "PLTE" in
            match last_translucent p with
            | Some k => writeChunk e1 (trns_payload p k) "tRNS"
            | None => e1
            end).
Proof.
  intros Hl Hp. unfold writePLTEAndTRNS.
  destruct (Nat.ltb_spec (length p) 1); [lia|].
  destruct (Nat.ltb_spec 256 (length p)); [lia|]. cbn [orb].
  destruct (palette_loop_spec p 0 (tmp e) (-1) Hl ltac:(lia))
    as (t & Hrun & Hlt & Hw & _).
  exists t. split; [exact Hlt|]. rewrite Hrun. cbn [mbind option_bind].
  rewrite (slice_Some t 0 (3 * length p)) by lia. cbn [mbind option_bind].
  replace (3 * length p - 0)%nat with (3 * length p)%nat by lia.
  cbn [Nat.add] in Hw.
  rewrite drop_0, (plte_slice p t);
    [|intros j c Hj; destruct (Hw j c Hj) as (? & ? & ? & ?); done|lia].
  rewrite scan_last_translucent.
  destruct (last_translucent p) as [k|] eqn:Ek; cbn zeta.
  - pose proof (last_translucent_lt _ _ Ek) as Hk.
    destruct (Z.eqb_spec (Z.of_nat (0 + k)) (-1)) as [Hbad|_]; [lia|].
    cbn [negb]. rewrite Nat2Z.id. rewrite slice_Some by lia.
    cbn [mbind option_bind].
    replace (3 * 256 + 1 + (0 + k) - 3 * 256)%nat with (S k) by lia.
    rewrite (trns_slice p t k); [reflexivity| |exact Hk].
    intros j c Hj. by apply (Hw j c Hj).
  - reflexivity.
Qed.

Lemma writePLTEAndTRNS_steps e p e' :
  writePLTEAndTRNS e p = Some e' -> steps e e' (palette_tags p).
Proof.
  unfold writePLTEAndTRNS, palette_tags.
  destruct (_ || _).
  { intros [= <-]. split; [repeat split; cbn; lia|].
    split; [|cbn; discriminate].
    intros r _. split; [reflexivity|]. right. eexists. reflexivity. }
  intros Hrun. apply bind_Some in Hrun as ([t last] & Hloop & Hrun).
  destruct (palette_loop_last _ _ _ _ _ _ Hloop) as [-> Hlt].
  rewrite scan_last_translucent in Hrun.
  apply bind_Some in Hrun as (b & Hb & Hrun).
  destruct (last_translucent p) as [k|].
  - destruct (Z.eqb_spec (Z.of_nat (0 + k)) (-1)) as [Hbad|_]; [lia|].
    cbn [negb] in Hrun. apply bind_Some in Hrun as (b' & Hb' & [= <-]).
    change ["PLTE"; "tRNS"] with (["PLTE"] ++ ["tRNS"]).
    eapply steps_trans; [by apply scratch_chunk_steps|apply writeChunk_steps].
  - cbn in Hrun. injection Hrun as <-. by apply scratch_chunk_steps.
Qed.

End PaletteChunk.

(** ** The image data chunks *)

Section ImageData.

Context `{Collaborators}.

Lemma write_blocks_steps blocks : forall e,
  steps e (write_blocks e blocks) (replicate (length blocks) "IDAT").
Proof.
  induction blocks as [|b blocks IH]; intros e; cbn.
  - apply steps_refl.
  - change ("IDAT" :: ?l) with (["IDAT"] ++ l).
    eapply steps_trans; [apply writeChunk_steps|apply IH].
Qed.

Lemma steps_replicate_trans e1 e2 e3 n1 n2 :
  steps e1 e2 (replicate n1 "IDAT") -> steps e2 e3 (replicate n2 "IDAT") ->
  steps e1 e3 (replicate (n1 + n2) "IDAT").
Proof. intros H1 H2. rewrite replicate_add. by eapply steps_trans. Qed.

Lemma row_loop_steps m c level k : forall i st st',
  for_loop k i (row_body m c level) st = Some st' ->
  exists n, steps (rs_e st) (rs_e st') (replicate n "IDAT").
Proof.
  induction k as [|k IH]; intros i st st' Hrun; cbn [for_loop] in Hrun.
  - injection Hrun as <-. exists 0%nat. apply steps_refl.
  - destruct (row_body m c level i st) as [[st1 brk]|] eqn:Hbody;
      [|discriminate].
    assert (Hone : exists n, steps (rs_e st) (rs_e st1) (replicate n "IDAT")).
    { unfold row_body in Hbody. cbn zeta in Hbody.
      apply bind_Some in Hbody as ([f cr] & _ & Hbody).
      apply bind_Some in Hbody as (line & _ & Hbody).
      destruct (zs_write _ _) as [zw blocks].
      destruct (err (write_blocks _ _)); injection Hbody as <- _;
        eexists; apply write_blocks_steps. }
    destruct Hone as [n1 H1]. destruct brk.
    + injection Hrun as <-. by exists n1.
    + destruct (IH _ _ _ Hrun) as [n2 H2]. exists (n1 + n2)%nat.
      by eapply steps_replicate_trans.
Qed.

Lemma set_err_same e : set_err e (err e) = e.
Proof. by destruct e. Qed.

(** [writeIDATs]: some number of IDAT chunks, and at least one when
    closing and flushing the compressor hands over at least one block. *)
Lemma writeIDATs_steps e m e' :
  writeIDATs e m = Some e' ->
  exists n,
    steps e e' (replicate n "IDAT") /\
    ((forall zw, snd (zs_close zw) ++ zs_flush (fst (zs_close zw)) <> []) ->
     err e' = None -> (1 <= n)%nat).
Proof.
  unfold writeIDATs. destruct (err e) as [r|] eqn:He.
  { intros [= <-]. exists 0%nat. split; [by eapply steps_stuck|].
    intros _ He'. congruence. }
  intros Hrun. apply bind_Some in Hrun as ([[e1 zw] ret] & Himg & Hrun).
  unfold writeImage in Himg. destruct (decide _); [discriminate|].
  apply bind_Some in Himg as (st & Hloop & Himg).
  destruct (zs_close (rs_zw st)) as [zw' blocks] eqn:Hclose.
  injection Himg as <- <- <-.
  destruct (row_loop_steps _ _ _ _ _ _ _ Hloop) as [n1 H1]. cbn [rs_e] in H1.
  pose proof (write_blocks_steps blocks (rs_e st)) as H2.
  pose proof (steps_replicate_trans _ _ _ _ _ H1 H2) as H12.
  set (e1 := write_blocks (rs_e st) blocks) in *.
  destruct (err (rs_e st)) as [r|] eqn:Hret.
  { injection Hrun as <-. exists (n1 + length blocks)%nat. split.
    - destruct H12 as (Ha & Hb & Hc). split; [exact Ha|].
      split; [intros r'; congruence|]. cbn. discriminate.
    - cbn. discriminate. }
  destruct (err e1) as [r|] eqn:Hsticky.
  { injection Hrun as <-. exists (n1 + length blocks)%nat. split.
    - destruct H12 as (Ha & Hb & Hc). split; [exact Ha|].
      split; [intros r'; congruence|]. cbn. discriminate.
    - cbn. discriminate. }
  injection Hrun as <-. rewrite <- Hsticky, set_err_same.
  exists (n1 + length blocks + length (zs_flush zw'))%nat. split.
  - eapply steps_replicate_trans; [exact H12|apply write_blocks_steps].
  - intros Hfin _. specialize (Hfin (rs_zw st)). rewrite Hclose in Hfin.
    cbn in Hfin. destruct blocks, (zs_flush zw'); cbn; try lia. done.
Qed.

End ImageData.

(** ** Reading the chunks back *)

Lemma be32_decode_encode n :
  0 <= n < 4294967296 -> be32_decode (be32 n) = n.
Proof.
  intros Hn. unfold be32, be32_decode, u8.
  rewrite !Z.shiftr_div_pow2 by lia.
  change (2 ^ 24) with 16777216. change (2 ^ 16) with 65536.
  change (2 ^ 8) with 256.
  Z.div_mod_to_equations. lia.
Qed.

Section Parse.

Context `{Collaborators}.

Lemma frame_length name b :
  four_letter name -> length (frame name b) = (12 + length b)%nat.
Proof.
  intros Hn. unfold frame. rewrite !length_app, length_take, Hn. cbn. lia.
Qed.

Lemma chunk_layout (L T b C rest : list Z) :
  length L = 4%nat -> length T = 4%nat -> length C = 4%nat ->
  let s := L ++ T ++ b ++ C ++ rest in
  take 4 s = L /\ take 4 (drop 4 s) = T /\
  take (length b) (drop 8 s) = b /\ drop (12 + length b) s = rest.
Proof.
  intros HL HT HC s. subst s. repeat split.
  - by rewrite take_app_length'.
  - rewrite (drop_app_length' L) by done. by rewrite take_app_length'.
  - rewrite (app_assoc L T), (drop_app_length' (L ++ T))
      by (rewrite length_app; lia).
    by rewrite take_app_length'.
  - rewrite (app_assoc L T), (app_assoc (L ++ T) b), (app_assoc _ C).
    apply drop_app_length'. rewrite !length_app. lia.
Qed.

Lemma parse_frame fuel name b rest parsed :
  four_letter name -> Z.of_nat (length b) < 4294967296 ->
  parse_chunks fuel rest = Some parsed ->
  parse_chunks (S fuel) (frame name b ++ rest)
  = Some ((str_bytes name, b) :: parsed).
Proof.
  intros Hn Hb Hrest.
  assert (Htake : take 4 (str_bytes name) = str_bytes name)
    by (apply take_ge; unfold four_letter in Hn; lia).
  assert (Es : frame name b ++ rest
               = be32 (Z.of_nat (length b)) ++ str_bytes name ++ b
                 ++ be32 (crc32_IEEE (str_bytes name ++ b)) ++ rest).
  { unfold frame. rewrite Htake. by rewrite <- !app_assoc. }
  destruct (chunk_layout (be32 (Z.of_nat (length b))) (str_bytes name) b
              (be32 (crc32_IEEE (str_bytes name ++ b))) rest
              eq_refl Hn eq_refl) as (H1 & H2 & H3 & H4).
  rewrite <- Es in H1, H2, H3, H4.
  assert (Hlen : length (frame name b ++ rest)
                 = (12 + length b + length rest)%nat).
  { rewrite length_app, frame_length by exact Hn. lia. }
  destruct (frame name b ++ rest) as [|z s] eqn:E; [cbn in Hlen; lia|].
  cbn [parse_chunks]. rewrite H1, be32_decode_encode, Nat2Z.id by lia.
  rewrite decide_True by lia. rewrite H4, Hrest. cbn [mbind option_bind].
  by rewrite H2, H3.
Qed.

Lemma parse_frames tags : forall payloads fuel,
  Forall four_letter tags ->
  length payloads = length tags ->
  Forall (fun b => Z.of_nat (length b) < 4294967296) payloads ->
  (length tags <= fuel)%nat ->
  exists parsed,
    parse_chunks fuel (concat (zip_with frame tags payloads)) = Some parsed /\
    map fst parsed = map str_bytes tags.
Proof.
  induction tags as [|name tags IH]; intros payloads fuel Ht Hl Hp Hfuel.
  - destruct payloads; [|discriminate]. exists []. by destruct fuel.
  - destruct payloads as [|b payloads]; [discriminate|].
    destruct fuel as [|fuel]; [cbn in Hfuel; lia|].
    inversion Ht as [|? ? Hn Ht']. inversion Hp as [|? ? Hb Hp']. subst.
    destruct (IH payloads fuel Ht' ltac:(by injection Hl) Hp'
                ltac:(cbn in Hfuel; lia)) as (parsed & Hparse & Htags).
    exists ((str_bytes name, b) :: parsed). split.
    + cbn [zip_with concat]. by apply parse_frame.
    + cbn. by rewrite Htags.
Qed.

Lemma frames_length tags : forall payloads,
  Forall four_letter tags -> length payloads = length tags ->
  (length tags <= length (concat (zip_with frame tags payloads)))%nat.
Proof.
  induction tags as [|name tags IH]; intros payloads Ht Hl; [cbn; lia|].
  destruct payloads as [|b payloads]; [discriminate|].
  inversion Ht as [|? ? Hn Ht']. subst. cbn [zip_with concat].
  rewrite length_app, frame_length by exact Hn.
  specialize (IH payloads Ht' ltac:(by injection Hl)). cbn. lia.
Qed.

(** A stream made of the signature and whole chunks reads back as the
    tags of these chunks. *)
Lemma chunk_tags_frames tags payloads :
  Forall four_letter tags ->
  length payloads = length tags ->
  Forall (fun b => Z.of_nat (length b) < 4294967296) payloads ->
  chunk_tags (pngHeader ++ concat (zip_with frame tags payloads))
  = Some (map str_bytes tags).
Proof.
  intros Ht Hl Hp. unfold chunk_tags.
  rewrite (take_app_length' pngHeader) by done.
  rewrite decide_True by done.
  rewrite (drop_app_length' pngHeader) by done.
  destruct (parse_frames tags payloads
              (length (pngHeader ++ concat (zip_with frame tags payloads)))
              Ht Hl Hp) as (parsed & Hparse & Htags).
  { rewrite length_app. pose proof (frames_length tags payloads Ht Hl). lia. }
  rewrite Hparse. cbn. by rewrite Htags.
Qed.

End Parse.

(** ** The chunk sequence of a whole call *)

Lemma opt_tag_four {A : Type} (o : option A) name :
  four_letter name -> Forall four_letter (opt_tag o name).
Proof. intros Hn. destruct o; cbn; by repeat constructor. Qed.

Lemma field_tag_four {A : Type} md (field : Metadata -> option A) name :
  four_letter name -> Forall four_letter (field_tag md field name).
Proof. intros Hn. destruct md; cbn; [by apply opt_tag_four|constructor]. Qed.

Lemma xmp_tag_four md : Forall four_letter (xmp_tag md).
Proof.
  unfold xmp_tag. destruct md as [m|]; [|constructor].
  destruct (rawXmp m), (xmp m); by repeat constructor.
Qed.

Lemma text_tags_four ts : Forall four_letter (flat_map text_tag ts).
Proof.
  apply Forall_flat_map, Forall_forall. intros t _. unfold text_tag.
  destruct (entryType t); by repeat constructor.
Qed.

Lemma palette_tags_four p : Forall four_letter (palette_tags p).
Proof.
  unfold palette_tags. destruct (last_translucent p); by repeat constructor.
Qed.

Create HintDb tags.
#[local] Hint Extern 1 (four_letter _) => reflexivity : tags.
#[local] Hint Resolve opt_tag_four field_tag_four xmp_tag_four text_tags_four
  palette_tags_four : tags.

Lemma metadata_tags_four md : Forall four_letter (metadata_tags md).
Proof.
  unfold metadata_tags. rewrite !Forall_app.
  repeat split; auto with tags.
Qed.

Lemma pixel_tags_four md m k : Forall four_letter (pixel_tags md m k).
Proof.
  unfold pixel_tags. rewrite !Forall_app.
  repeat split; auto using metadata_tags_four with tags;
    try (by repeat constructor); try (by apply Forall_replicate).
  destruct (palette_of m); auto with tags.
Qed.

Lemma deferred_tags_four md di : Forall four_letter (deferred_tags md di).
Proof.
  unfold deferred_tags. rewrite !Forall_app.
  repeat split; auto using metadata_tags_four with tags;
    by repeat constructor.
Qed.

Section WholeCall.

Context `{Collaborators}.

Lemma writeIHDR_steps e m e' :
  writeIHDR e m = Some e' -> steps e e' ["IHDR"].
Proof.
  unfold writeIHDR. intros Hrun.
  destruct (depth_and_type (cbits e)) as [[depth ct]|];
    crack Hrun; buffer_lengths; apply scratch_chunk_steps; congruence.
Qed.

Lemma write_header_chunk_steps e m e' :
  write_header_chunk e m = Some e' -> steps e e' ["IHDR"].
Proof.
  unfold write_header_chunk. destruct m as [pm|di].
  - apply writeIHDR_steps.
  - intros Hrun. crack Hrun. apply writeChunk_steps.
Qed.

Lemma write_metadata_steps e md e' :
  write_metadata e md = Some e' -> steps e e' (metadata_tags md).
Proof.
  unfold write_metadata, metadata_tags. destruct md as [m|].
  - intros Hrun.
    apply bind_Some in Hrun as (e1 & H1 & Hrun).
    apply bind_Some in Hrun as (e2 & H2 & Hrun).
    apply bind_Some in Hrun as (e3 & H3 & Hrun).
    apply bind_Some in Hrun as (e4 & H4 & Hrun).
    apply bind_Some in Hrun as (e5 & H5 & Hrun).
    apply bind_Some in Hrun as (e6 & H6 & Hrun).
    apply bind_Some in Hrun as (e7 & H7 & Hrun).
    eapply steps_trans; [by apply maybeWriteGAMA_steps|].
    eapply steps_trans; [by apply maybeWriteCHRM_steps|].
    eapply steps_trans; [by apply maybeWriteSRGB_steps|].
    eapply steps_trans; [by apply maybeWriteTIME_steps|].
    eapply steps_trans; [by apply maybeWriteICCP_steps|].
    eapply steps_trans; [by apply maybeWritePHYS_steps|].
    eapply steps_trans; [by apply maybeWriteXMP_steps|].
    by apply write_texts_steps.
  - intros [= <-]. apply steps_refl.
Qed.

Lemma write_palette_pixels_steps e pm e' :
  write_palette_chunks e (Pixels pm) (palette_of pm) = Some e' ->
  steps e e' match palette_of pm with
             | Some p => palette_tags p
             | None => []
             end.
Proof.
  unfold write_palette_chunks. destruct (palette_of pm) as [p|].
  - apply writePLTEAndTRNS_steps.
  - intros [= <-]. apply steps_refl.
Qed.

Lemma write_palette_deferred_steps e di pal e' :
  write_palette_chunks e (IsDeferred di) pal = Some e' ->
  steps e e' (opt_tag (plte di) "PLTE" ++ opt_tag (trns di) "tRNS").
Proof.
  unfold write_palette_chunks. intros Hrun.
  apply bind_Some in Hrun as (e1 & H1 & Hrun).
  apply (steps_trans e e1 e').
  - destruct (plte di); cbn [opt_tag].
    + crack H1. apply writeChunk_steps.
    + injection H1 as <-. apply steps_refl.
  - destruct (trns di); cbn [opt_tag].
    + crack Hrun. apply writeChunk_steps.
    + injection Hrun as <-. apply steps_refl.
Qed.

Lemma write_to_sink_header e :
  err (write_to_sink e pngHeader) = None ->
  out (w (write_to_sink e pngHeader)) = out (w e) ++ pngHeader.
Proof. apply write_to_sink_facts. Qed.

Lemma start_session_sink en w0 m : w (start_session en w0 m) = w0.
Proof. unfold start_session. by destruct m. Qed.

(** The chunks that follow the signature, for a call that got past its
    checks. *)
Lemma pipeline_steps e0 m md e1 e2 e3 e4 e5 :
  write_header_chunk e0 m = Some e1 ->
  write_metadata e1 md = Some e2 ->
  write_palette_chunks e2 m match m with
                            | Pixels pm => palette_of pm
                            | IsDeferred _ => None
                            end = Some e3 ->
  maybeWriteHIST e3 md = Some e4 ->
  write_image_data e4 m = Some e5 ->
  exists k,
    steps e0 (writeIEND e5)
      match m with
      | Pixels pm => pixel_tags md pm k
      | IsDeferred di => deferred_tags md di
      end /\
    ((forall zw, snd (zs_close zw) ++ zs_flush (fst (zs_close zw)) <> []) ->
     err e5 = None -> (1 <= k)%nat).
Proof.
  intros H1 H2 H3 H4 H5.
  pose proof (write_header_chunk_steps _ _ _ H1) as S1.
  pose proof (write_metadata_steps _ _ _ H2) as S2.
  pose proof (maybeWriteHIST_steps _ _ _ H4) as S4.
  pose proof (writeChunk_steps e5 [] "IEND") as S6.
  destruct m as [pm|di].
  - pose proof (write_palette_pixels_steps _ _ _ H3) as S3.
    destruct (writeIDATs_steps _ _ _ H5) as (k & S5 & Hk).
    exists k. split; [|exact Hk]. unfold pixel_tags.
    repeat (eapply steps_trans; [eassumption|]). exact S6.
  - pose proof (write_palette_deferred_steps _ _ _ _ H3) as S3.
    exists 1%nat. split; [|lia]. unfold deferred_tags.
    rewrite (app_assoc (opt_tag (plte di) _)).
    repeat (eapply steps_trans; [eassumption|]).
    eapply steps_trans; [|exact S6].
    cbn [write_image_data] in H5. destruct (idat di); cbn [opt_tag].
    + crack H5. apply writeChunk_steps.
    + injection H5 as <-. apply steps_refl.
Qed.

End WholeCall.

(** ** The order of the chunks *)

Section ChunkOrder.

Context `{Collaborators}.

(** C8 (amended).  A call that returns without an error has written the
    8-byte signature and then whole chunks in this order: IHDR; with
    metadata, gAMA, cHRM, sRGB, tIME, iCCP (for a registered ICC object),
    pHYs, XMP as iTXt and the text entries of the three known types in
    their order; for a source with live pixels PLTE and, when an entry is
    not fully opaque, tRNS, then hIST, then one IDAT chunk per block of
    the buffered compressor (at least one, as closing and flushing the
    compressor hands over a block), then IEND; for a deferred source the
    captured PLTE, tRNS and IDAT chunks that are there take the place of
    the palette and data chunks, so there is one IDAT chunk or none. *)
Theorem chunk_order (en : Encoder) (w0 : sink) (m : Image)
    (opts : list WriteOption) (s : sink) :
  (forall zw, snd (zs_close zw) ++ zs_flush (fst (zs_close zw)) <> []) ->
  EncodeExtended en w0 m opts = Some (s, None) ->
  exists md stream,
    scan_opts opts None = inr md /\
    out s = out w0 ++ stream /\
    match m with
    | Pixels pm =>
        exists k, (1 <= k)%nat /\
          chunk_tags stream = Some (map str_bytes (pixel_tags md pm k))
    | IsDeferred di =>
        chunk_tags stream = Some (map str_bytes (deferred_tags md di))
    end.
Proof.
  intros Hfin Hrun. unfold EncodeExtended in Hrun.
  destruct (scan_opts opts None) as [r|md]; [discriminate|].
  destruct (size_error m); [discriminate|]. cbn zeta in Hrun.
  apply bind_Some in Hrun as (e1 & H1 & Hrun).
  apply bind_Some in Hrun as (e2 & H2 & Hrun).
  apply bind_Some in Hrun as (e3 & H3 & Hrun).
  apply bind_Some in Hrun as (e4 & H4 & Hrun).
  apply bind_Some in Hrun as (e5 & H5 & Hrun).
  injection Hrun as <- Herr.
  destruct (pipeline_steps _ _ _ _ _ _ _ _ H1 H2 H3 H4 H5) as (k & S & Hk).
  destruct S as (_ & _ & Hok).
  destruct (Hok Herr) as (He0 & payloads & Hl & Hp & Hout).
  exists md. eexists. split; [reflexivity|]. split.
  { rewrite Hout, write_to_sink_header by exact He0.
    rewrite start_session_sink, <- app_assoc. reflexivity. }
  assert (He5 : err e5 = None).
  { by destruct (writeChunk_steps e5 [] "IEND") as (_ & _ & Hc);
      destruct (Hc Herr). }
  destruct m as [pm|di].
  - exists k. split; [by apply Hk|].
    apply chunk_tags_frames; [apply pixel_tags_four|assumption..].
  - apply chunk_tags_frames; [apply deferred_tags_four|assumption..].
Qed.

End ChunkOrder.

Lemma chunk_order_witness :
  exists md stream,
    scan_opts [OptMetadata sample_metadata] None = inr md /\
    out (sink_after (Pixels (gray_image 1 1 65535)) [OptMetadata sample_metadata])
    = out fresh_sink ++ stream /\
    exists k, (1 <= k)%nat /\
      chunk_tags stream
      = Some (map str_bytes (pixel_tags md (gray_image 1 1 65535) k)).
Proof.
  apply (chunk_order (H := stored) default_encoder fresh_sink
           (Pixels (gray_image 1 1 65535)) [OptMetadata sample_metadata]).
  - intros zw. cbn. destruct zw; discriminate.
  - vm_compute. reflexivity.
Defined.

(** C8, as stated, has one or more IDAT chunks in every successful
    stream; a deferred source without a captured IDAT chunk yields IHDR
    and IEND alone. *)
Lemma deferred_without_idat :
  EncodeExtended (H := stored) default_encoder fresh_sink
    (IsDeferred bare_deferred) []
  = Some (sink_after (IsDeferred bare_deferred) [], None) /\
  chunk_tags (out (sink_after (IsDeferred bare_deferred) []))
  = Some [str_bytes "IHDR"; str_bytes "IEND"] /\
  ~ In (str_bytes "IDAT") [str_bytes "IHDR"; str_bytes "IEND"].
Proof.
  split; [vm_compute; reflexivity|]. split; [vm_compute; reflexivity|].
  intros [Hin|[Hin|[]]]; vm_compute in Hin; discriminate Hin.
Qed.

(** ** Size validation and the sticky error *)

Section SizeCheck.

Context `{Collaborators}.

Lemma bad_size_spec mw mh :
  bad_size mw mh = true <->
  mw <= 0 \/ mh <= 0 \/ 4294967296 <= mw \/ 4294967296 <= mh.
Proof.
  unfold bad_size. rewrite !orb_true_iff, !Z.leb_le, !Z.geb_le. tauto.
Qed.

(** A call that gets past its checks calls [Write] on the sink. *)
Lemma EncodeExtended_writes en w0 m opts md s r :
  scan_opts opts None = inr md -> size_error m = None ->
  EncodeExtended en w0 m opts = Some (s, r) ->
  (calls w0 < calls s)%nat.
Proof.
  intros Hopts Hsize Hrun. unfold EncodeExtended in Hrun.
  rewrite Hopts, Hsize in Hrun. cbn zeta in Hrun.
  apply bind_Some in Hrun as (e1 & H1 & Hrun).
  apply bind_Some in Hrun as (e2 & H2 & Hrun).
  apply bind_Some in Hrun as (e3 & H3 & Hrun).
  apply bind_Some in Hrun as (e4 & H4 & Hrun).
  apply bind_Some in Hrun as (e5 & H5 & Hrun).
  injection Hrun as <- _.
  destruct (pipeline_steps _ _ _ _ _ _ _ _ H1 H2 H3 H4 H5) as (k & S & _).
  destruct S as ((_ & _ & _ & _ & Hcalls) & _ & _).
  pose proof (write_to_sink_facts (start_session en w0 m) pngHeader)
    as (_ & _ & _ & _ & Hc & _).
  rewrite start_session_sink in Hc. lia.
Qed.

(** X11.  Once the very first write has failed with [r], nothing more
    reaches the sink, and the call returns [r], unless the palette check
    has put its own error in its place. *)
Lemma error_at_signature_is_kept en w0 m opts md s r r' :
  scan_opts opts None = inr md -> size_error m = None ->
  err (write_to_sink (start_session en w0 m) pngHeader) = Some r ->
  EncodeExtended en w0 m opts = Some (s, r') ->
  s = w (write_to_sink (start_session en w0 m) pngHeader) /\
  kept_error r r'.
Proof.
  intros Hopts Hsize Hfirst Hrun. unfold EncodeExtended in Hrun.
  rewrite Hopts, Hsize in Hrun. cbn zeta in Hrun.
  apply bind_Some in Hrun as (e1 & H1 & Hrun).
  apply bind_Some in Hrun as (e2 & H2 & Hrun).
  apply bind_Some in Hrun as (e3 & H3 & Hrun).
  apply bind_Some in Hrun as (e4 & H4 & Hrun).
  apply bind_Some in Hrun as (e5 & H5 & Hrun).
  injection Hrun as <- <-.
  destruct (pipeline_steps _ _ _ _ _ _ _ _ H1 H2 H3 H4 H5) as (k & S & _).
  destruct S as (_ & Hsticky & _). exact (Hsticky r Hfirst).
Qed.

(** C7 (amended).  Once the options have been accepted (they are checked
    first), a source with live pixels whose width or height is <= 0 or
    >= 2^32 makes the call return a FormatError without a single write to
    the sink; width = height = 1 passes the check, and a deferred source
    is not checked at all: in both cases the call goes on to write. *)
Theorem dimension_validation (en : Encoder) (w0 : sink)
    (opts : list WriteOption) (md : option Metadata) :
  scan_opts opts None = inr md ->
  (forall pm,
     Dx (Bounds pm) <= 0 \/ Dy (Bounds pm) <= 0 \/
     4294967296 <= Dx (Bounds pm) \/ 4294967296 <= Dy (Bounds pm) ->
     exists msg,
       EncodeExtended en w0 (Pixels pm) opts
       = Some (w0, Some (FormatError msg))) /\
  (forall pm s r,
     Dx (Bounds pm) = 1 -> Dy (Bounds pm) = 1 ->
     EncodeExtended en w0 (Pixels pm) opts = Some (s, r) ->
     size_error (Pixels pm) = None /\ (calls w0 < calls s)%nat) /\
  (forall di s r,
     EncodeExtended en w0 (IsDeferred di) opts = Some (s, r) ->
     size_error (IsDeferred di) = None /\ (calls w0 < calls s)%nat).
Proof.
  intros Hopts. split; [|split].
  - intros pm Hbad. apply bad_size_spec in Hbad.
    unfold EncodeExtended. rewrite Hopts. cbn [size_error].
    rewrite Hbad. eexists. reflexivity.
  - intros pm s r Hx Hy Hrun.
    assert (Hsize : size_error (Pixels pm) = None)
      by (cbn [size_error]; rewrite Hx, Hy; reflexivity).
    split; [exact Hsize|].
    exact (EncodeExtended_writes _ _ _ _ _ _ _ Hopts Hsize Hrun).
  - intros di s r Hrun. split; [reflexivity|].
    exact (EncodeExtended_writes en w0 (IsDeferred di) opts md s r Hopts
             eq_refl Hrun).
Qed.

End SizeCheck.

Lemma dimension_validation_witness :
  exists msg,
    EncodeExtended (H := stored) default_encoder fresh_sink
      (Pixels (gray_image 0 5 65535)) []
    = Some (fresh_sink, Some (FormatError msg)).
Proof.
  destruct (dimension_validation (H := stored) default_encoder fresh_sink
              [] None eq_refl) as [Hbad _].
  apply (Hbad (gray_image 0 5 65535)). left. vm_compute. discriminate.
Defined.

(** C7, as stated, promises a FormatError for every call on an image of
    width 0; the options are looked at first, and an option of an
    unknown type wins. *)
Lemma option_error_before_size_check :
  Dx (Bounds (gray_image 0 5 65535)) = 0 /\
  EncodeExtended (H := stored) default_encoder fresh_sink
    (Pixels (gray_image 0 5 65535)) [OptOther "int"]
  = Some (fresh_sink,
          Some (OptionError "Unknown write option of type int given")).
Proof. split; vm_compute; reflexivity. Qed.

(** C1.  The first write of the call fails with [SinkError 1]; the
    palette has 257 entries; the call returns the palette error, not the
    first error. *)
Lemma first_error_lost_on_bad_palette :
  snd (sink_write failing_sink pngHeader) = Some (SinkError 1) /\
  exists s,
    EncodeExtended (H := stored) default_encoder failing_sink
      (Pixels (paletted_1x1 (replicate 257 opaque_entry))) []
    = Some (s, Some (FormatError "bad palette length: 257")) /\
    out s = [].
Proof.
  split; [reflexivity|]. eexists. split; [vm_compute; reflexivity|].
  reflexivity.
Qed.

(** ** The guard of the filter *)

Lemma filter_row0 cr pr bpp f cr' :
  Filter.filter cr pr bpp = Some (f, cr') -> row0 cr' = row0 cr.
Proof.
  unfold Filter.filter. intros Hrun.
  destruct (row0 cr) as [|t0 cdat0] eqn:E0; [discriminate|].
  cbn [split_tag mbind option_bind] in Hrun.
  repeat match type of Hrun with
  | (mbind _ _) = Some _ =>
      let x := fresh "x" in
      apply bind_Some in Hrun as (x & _ & Hrun)
  | (let '(_, _) := ?p in _) = Some _ => destruct p
  end.
  by injection Hrun as _ <-.
Qed.

(** The tag byte of [cr[0]] and of [pr] stays 0 through an iteration of
    the row loop: the conversion writes from offset 1 on, [filter] leaves
    [cr[0]] alone, and the two buffers are swapped. *)
Lemma row_body_keeps_none_tag `{Collaborators} m c level i st st' brk :
  hd_error (row0 (rs_cr st)) = Some 0 -> hd_error (rs_pr st) = Some 0 ->
  row_body m c level i st = Some (st', brk) ->
  hd_error (row0 (rs_cr st')) = Some 0 /\ hd_error (rs_pr st') = Some 0.
Proof.
  intros Hcr Hpr Hbody. unfold row_body in Hbody. cbn zeta in Hbody.
  apply bind_Some in Hbody as ([f cr] & Hrow & Hbody).
  apply bind_Some in Hbody as (line & _ & Hbody).
  assert (Hcr' : hd_error (row0 cr) = Some 0).
  { unfold filter_row in Hrow.
    destruct (row0 (rs_cr st)) as [|t0 cdat0] eqn:E0; [discriminate|].
    cbn in Hcr. injection Hcr as ->.
    cbn [split_tag mbind option_bind] in Hrow.
    destruct (decide _); [|discriminate]. cbn [mbind option_bind] in Hrow.
    unfold choose_filter in Hrow. destruct (applies_filter level c).
    - apply filter_row0 in Hrow. by rewrite Hrow.
    - by injection Hrow as _ <-. }
  destruct (zs_write _ _) as [zw blocks].
  destruct (err (write_blocks _ _)); injection Hbody as <- _; done.
Qed.

(** The row loop of [writeImage] starts with these tags and keeps
    them. *)
Lemma row_loop_keeps_none_tag `{Collaborators} m c level k : forall i st st',
  hd_error (row0 (rs_cr st)) = Some 0 -> hd_error (rs_pr st) = Some 0 ->
  for_loop k i (row_body m c level) st = Some st' ->
  hd_error (row0 (rs_cr st')) = Some 0 /\ hd_error (rs_pr st') = Some 0.
Proof.
  induction k as [|k IH]; intros i st st' Hcr Hpr Hrun; cbn [for_loop] in Hrun.
  - by injection Hrun as <-.
  - destruct (row_body m c level i st) as [[st1 brk]|] eqn:Hbody;
      [|discriminate].
    destruct (row_body_keeps_none_tag _ _ _ _ _ _ _ Hcr Hpr Hbody)
      as [Hcr1 Hpr1].
    destruct brk; [by injection Hrun as <-|by eapply IH].
Qed.

(** C4 (amended).  The call to [filter] is skipped exactly for the four
    paletted modes (1, 2, 4 and 8 bits) and whenever compression is
    disabled; the row then goes out as [cr[0]], the raw row under the None
    tag.  In every other mode with compression enabled the row is what
    [filter] selects, with [bpp = bitsPerPixel / 8]. *)
Theorem filter_skip_condition (m : PixelImage) (c : cb) (level y : Z)
    (cr : rows) (pr d : list Z) :
  row0 cr = Z.of_nat ftNone :: d ->
  length (scanline m c y) = length d ->
  let cr1 := set_row0 cr (Z.of_nat ftNone :: scanline m c y) in
  (applies_filter level c = false <->
   level = zlib.NoCompression \/
   c = cbP1 \/ c = cbP2 \/ c = cbP4 \/ c = cbP8) /\
  (applies_filter level c = false ->
   filter_row m c level y cr pr = Some (ftNone, cr1) /\
   rows_get cr1 ftNone = Some (Z.of_nat ftNone :: scanline m c y)) /\
  (applies_filter level c = true ->
   filter_row m c level y cr pr
   = Filter.filter cr1 pr (Z.to_nat (bitsPerPixel c `quot` 8))).
Proof.
  intros Hrow Hlen cr1. split; [|split].
  - unfold applies_filter. destruct (Z.eqb_spec level zlib.NoCompression).
    + cbn. tauto.
    + destruct c; cbn; split; try tauto; try discriminate;
        intros [?|[?|[?|[?|?]]]]; congruence.
  - intros Hskip. split; [|reflexivity].
    unfold filter_row. rewrite Hrow. cbn [split_tag mbind option_bind].
    rewrite decide_True by exact Hlen. cbn [mbind option_bind].
    unfold choose_filter. by rewrite Hskip.
  - intros Hon. unfold filter_row. rewrite Hrow.
    cbn [split_tag mbind option_bind].
    rewrite decide_True by exact Hlen. cbn [mbind option_bind].
    unfold choose_filter. by rewrite Hon.
Qed.

Lemma filter_skip_condition_witness :
  filter_row (paletted_1x1 [opaque_entry]) cbP8 zlib.DefaultCompression 0
             (row_buffers [7]) [0; 0]
  = Some (ftNone, row_buffers [0]).
Proof.
  destruct (filter_skip_condition (paletted_1x1 [opaque_entry]) cbP8
              zlib.DefaultCompression 0 (row_buffers [7]) [0; 0] [7]
              eq_refl eq_refl) as (_ & Hskip & _).
  destruct (Hskip eq_refl) as [Hrow _]. exact Hrow.
Defined.

(** C4, as stated, has the selector run for 8-bit paletted rows when
    compression is on.  The guard excludes [cbP8]: the row goes out under
    the None tag although [filter] would have chosen Up. *)
Lemma paletted_8bit_is_not_filtered :
  levelToZlib DefaultCompression <> zlib.NoCompression /\
  applies_filter (levelToZlib DefaultCompression) cbP8 = false /\
  choose_filter (levelToZlib DefaultCompression) cbP8
                (row_buffers [10; 20; 30]) [0; 10; 20; 30]
  = Some (ftNone, row_buffers [10; 20; 30]) /\
  fst <$> Filter.filter (row_buffers [10; 20; 30]) [0; 10; 20; 30] 1
  = Some ftUp.
Proof. repeat split; try discriminate; vm_compute; reflexivity. Qed.

(** ** The iCCP chunk *)

Section ProfileAndMode.

Context `{Collaborators}.

(** C5 (amended).  Whenever an ICC object is registered and its encoding
    and compression succeed, the iCCP chunk is built from the object:
    profile name, a zero byte, the compression method 0 and the
    compressed encoding.  A raw blob, present or not, plays no part. *)
Theorem iccp_from_object (e : encoder) (m : Metadata) (prof comp : list Z) :
  err e = None ->
  icc m = Some (inr prof) ->
  zlib_bytes (levelToZlib (CompressionLevel (enc e))) prof = inr comp ->
  maybeWriteICCP e (Some m)
  = Some (writeChunk e (iccName m ++ 0 :: 0 :: comp) "iCCP").
Proof.
  intros He Hicc Hz. unfold maybeWriteICCP, pngCompress.
  rewrite He, Hicc, Hz. rewrite bool_decide_eq_false_2 by discriminate.
  cbn [andb]. by rewrite <- !app_assoc.
Qed.

(** ** Mode selection *)


End ProfileAndMode.

Lemma iccp_from_object_witness :
  maybeWriteICCP (H := stored) (new_session fresh_sink)
                 (Some raw_icc_and_object)
  = Some (writeChunk (H := stored) (new_session fresh_sink)
            (str_bytes "p" ++ 0 :: 0 :: [9]) "iCCP").
Proof.
  apply (iccp_from_object (H := stored) (new_session fresh_sink)
           raw_icc_and_object [9] [9]); reflexivity.
Defined.

(** C5, as stated, has the raw blob written verbatim whenever it is
    present.  A bundle with a raw blob alone writes no iCCP chunk at all;
    with an object at its side the chunk holds the encoded object. *)
Lemma raw_icc_blob_is_not_written :
  maybeWriteICCP (H := stored) (new_session fresh_sink) (Some raw_icc_only)
  = Some (new_session fresh_sink) /\
  (w <$> maybeWriteICCP (H := stored) (new_session fresh_sink)
           (Some raw_icc_and_object))
  = Some (Sink (frame (H := stored) "iCCP" [112; 0; 0; 9]) 3 (fun _ => None)) /\
  frame (H := stored) "iCCP" [112; 0; 0; 9]
  <> frame (H := stored) "iCCP" [1; 2; 3].
Proof.
  split; [reflexivity|]. split; [vm_compute; reflexivity|].
  vm_compute. discriminate.
Qed.



(** ** Chunks on a sink that takes every write *)

Section Accepting.

Context `{Collaborators}.

Lemma write_to_sink_accepting e b :
  accepting (w e) ->
  let e' := write_to_sink e b in
  err e' = None /\ accepting (w e') /\ out (w e') = out (w e) ++ b /\
  tmp e' = tmp e /\ enc e' = enc e.
Proof.
  intros Hacc. unfold write_to_sink, sink_write. rewrite Hacc. by cbn.
Qed.

Lemma writeChunk_accepting e b name :
  err e = None -> accepting (w e) ->
  Z.of_nat (length b) < 4294967296 ->
  let e' := writeChunk e b name in
  err e' = None /\ accepting (w e') /\
  out (w e') = out (w e) ++ frame name b /\
  tmp e' = tmp e /\ enc e' = enc e.
Proof.
  intros He Hacc Hb. unfold writeChunk. rewrite He.
  assert (Hn : u32 (Z.of_nat (length b)) = Z.of_nat (length b))
    by (apply Z.mod_small; lia).
  rewrite Hn, Z.eqb_refl. cbn [negb]. cbn zeta.
  set (hd := be32 _ ++ _).
  destruct (write_to_sink_accepting e hd Hacc) as (E1 & A1 & O1 & T1 & C1).
  rewrite E1.
  destruct (write_to_sink_accepting _ b A1) as (E2 & A2 & O2 & T2 & C2).
  rewrite E2.
  destruct (write_to_sink_accepting _ (be32 (crc32_IEEE (drop 4 hd ++ b))) A2)
    as (E3 & A3 & O3 & T3 & C3).
  repeat split; try congruence.
  rewrite O3, O2, O1, frame_unfold. by rewrite <- !app_assoc.
Qed.

(** C9.  For a palette of 1 to 256 entries, written on a session without
    an error to a sink that takes the writes, [writePLTEAndTRNS] emits
    PLTE and then, exactly when some entry is not fully opaque, a tRNS
    chunk whose payload is the alpha bytes of the entries 0 up to the
    last one that is not fully opaque.  A palette of length 0 or above
    256 sets a FormatError. *)
Theorem trns_truncation (e : encoder) (p : Palette) :
  length (tmp e) = 1024%nat -> err e = None -> accepting (w e) ->
  ((1 <= length p <= 256)%nat ->
   exists e',
     writePLTEAndTRNS e p = Some e' /\ err e' = None /\
     out (w e')
     = out (w e) ++ frame "PLTE" (plte_payload p)
       ++ match last_translucent p with
          | Some k => frame "tRNS" (trns_payload p k)
          | None => []
          end) /\
  ((length p < 1 \/ 256 < length p)%nat ->
   exists msg,
     writePLTEAndTRNS e p = Some (set_err e (Some (FormatError msg)))) /\
  (last_translucent p = None <-> Forall (fun c => A c = 255) p) /\
  (forall k, last_translucent p = Some k ->
     length (trns_payload p k) = S k /\
     (exists c, p !! k = Some c /\ A c <> 255) /\
     (forall j c, (k < j)%nat -> p !! j = Some c -> A c = 255)).
Proof.
  intros Htmp He Hacc. split; [|split; [|split]].
  - intros Hp. destruct (writePLTEAndTRNS_run e p Htmp Hp) as (t & Ht & Hrun).
    eexists. split; [exact Hrun|]. cbn zeta.
    destruct (writeChunk_accepting (set_tmp e t) (plte_payload p) "PLTE"
                He Hacc) as (E1 & A1 & O1 & _).
    { rewrite plte_payload_length. lia. }
    destruct (last_translucent p) as [k|] eqn:Ek.
    + pose proof (last_translucent_lt _ _ Ek) as Hk.
      destruct (writeChunk_accepting _ (trns_payload p k) "tRNS" E1 A1)
        as (E2 & A2 & O2 & _).
      { unfold trns_payload. rewrite length_map, length_take. lia. }
      split; [exact E2|]. rewrite O2, O1. by rewrite <- app_assoc.
    + split; [exact E1|]. rewrite O1. by rewrite app_nil_r.
  - intros Hp. unfold writePLTEAndTRNS.
    replace ((length p <? 1)%nat || (256 <? length p)%nat) with true.
    + eexists. reflexivity.
    + symmetry. apply orb_true_iff.
      destruct Hp; [left|right]; by apply Nat.ltb_lt.
  - apply last_translucent_None.
  - intros k Hk. split; [|by apply last_translucent_Some].
    pose proof (last_translucent_lt _ _ Hk).
    unfold trns_payload. rewrite length_map, length_take. lia.
Qed.

End Accepting.

Lemma trns_truncation_witness :
  exists e',
    writePLTEAndTRNS (H := stored) (new_session fresh_sink) five_entries
    = Some e' /\ err e' = None /\
    out (w e')
    = [] ++ frame (H := stored) "PLTE" (plte_payload five_entries)
      ++ frame (H := stored) "tRNS" [255; 255; 7].
Proof.
  destruct (trns_truncation (H := stored) (new_session fresh_sink)
              five_entries eq_refl eq_refl (fun _ => eq_refl)) as [Hv _].
  apply Hv. cbn. lia.
Defined.

(** ** Strings under [range] *)

Lemma decode_rune_width b0 rest :
  (1 <= snd (GoString.decode_rune b0 rest))%nat.
Proof.
  unfold GoString.decode_rune.
  repeat match goal with
  | |- context [if ?c then _ else _] => destruct c
  | |- context [match ?l with [] => _ | _ :: _ => _ end] => destruct l
  end; cbn; lia.
Qed.

Lemma runes_from_index fuel : forall i s,
  Forall (fun p => (i <= fst p < i + length s)%nat)
         (GoString.runes_from fuel i s).
Proof.
  induction fuel as [|fuel IH]; intros i s; cbn [GoString.runes_from].
  - constructor.
  - destruct s as [|b0 rest]; [constructor|].
    pose proof (decode_rune_width b0 rest) as Hw.
    destruct (GoString.decode_rune b0 rest) as [r wd]. cbn [snd] in Hw.
    constructor; [cbn; lia|].
    eapply Forall_impl; [apply IH|]. intros [j b] Hj. cbn [fst] in *.
    rewrite length_drop in Hj. cbn [length]. lia.
Qed.

Lemma range_index s :
  Forall (fun p => (fst p < length s)%nat) (GoString.range s).
Proof.
  eapply Forall_impl; [apply runes_from_index|]. intros p Hp. cbn in Hp. lia.
Qed.

Lemma text_value_loop_total klen rs : forall buf,
  Forall (fun p => (klen + fst p + 1 < length buf)%nat) rs ->
  is_Some (text_value_loop klen rs buf).
Proof.
  induction rs as [|[i b] rs IH]; intros buf Hall; cbn [text_value_loop].
  - eauto.
  - inversion Hall as [|? ? Hi Hrs]. subst. cbn [fst] in Hi.
    rewrite store_Some by exact Hi. cbn [mbind option_bind].
    apply IH. eapply Forall_impl; [exact Hrs|].
    intros p Hp. by rewrite length_insert.
Qed.

(** ** Scratch-buffer updates, by what they leave behind *)

Lemma blit_Some (buf : list Z) off data :
  (off + length data <= length buf)%nat ->
  blit buf off data
  = Some (take off buf ++ data ++ drop (off + length data) buf).
Proof. intros Hb. unfold blit. by rewrite decide_True. Qed.

Lemma blit_None (buf : list Z) off data :
  (length buf < off + length data)%nat -> blit buf off data = None.
Proof. intros Hb. unfold blit. rewrite decide_False; [done|lia]. Qed.

Lemma store_None (buf : list Z) i v :
  (length buf <= i)%nat -> store buf i v = None.
Proof. intros Hb. unfold store. rewrite decide_False; [done|lia]. Qed.

Lemma slice_None (buf : list Z) lo hi :
  (length buf < hi)%nat -> slice buf lo hi = None.
Proof. intros Hb. unfold slice. rewrite decide_False; [done|lia]. Qed.

Lemma copy_at_Some (buf : list Z) off data :
  (off <= length buf)%nat ->
  copy_at buf off data
  = Some (take off buf
          ++ take (Nat.min (length buf - off) (length data)) data
          ++ drop (off + Nat.min (length buf - off) (length data)) buf).
Proof. intros Hb. unfold copy_at. by rewrite decide_True. Qed.

Lemma copy_at_fits (buf : list Z) off data :
  (off + length data <= length buf)%nat ->
  copy_at buf off data
  = Some (take off buf ++ data ++ drop (off + length data) buf).
Proof.
  intros Hb. rewrite copy_at_Some by lia.
  rewrite Nat.min_r by lia. by rewrite (take_ge data) by lia.
Qed.

Lemma blit_total (buf : list Z) off data :
  (off + length data <= length buf)%nat ->
  exists buf', blit buf off data = Some buf' /\ length buf' = length buf.
Proof.
  intros Hb. destruct (blit buf off data) as [buf'|] eqn:E.
  - exists buf'. split; [reflexivity|]. by eapply blit_length.
  - rewrite blit_Some in E by exact Hb. discriminate.
Qed.

Lemma store_total (buf : list Z) i v :
  (i < length buf)%nat ->
  exists buf', store buf i v = Some buf' /\ length buf' = length buf.
Proof.
  intros Hb. rewrite store_Some by exact Hb. eexists.
  split; [reflexivity|]. apply length_insert.
Qed.

Lemma copy_at_total (buf : list Z) off data :
  (off <= length buf)%nat ->
  exists buf', copy_at buf off data = Some buf' /\ length buf' = length buf.
Proof.
  intros Hb. destruct (copy_at buf off data) as [buf'|] eqn:E.
  - exists buf'. split; [reflexivity|]. by eapply copy_at_length.
  - rewrite copy_at_Some in E by exact Hb. discriminate.
Qed.

(** Runs one scratch-buffer update that is within bounds and keeps the
    length of its result. *)
Ltac run_update :=
  match goal with
  | |- context [blit ?buf ?off ?data] =>
      let b := fresh "buf" in
      let E := fresh "E" in
      let L := fresh "L" in
      destruct (blit_total buf off data) as (b & E & L);
      [rewrite ?length_replicate; lia
      |rewrite E; clear E; rewrite ?length_replicate in L]
  | |- context [store ?buf ?i ?v] =>
      let b := fresh "buf" in
      let E := fresh "E" in
      let L := fresh "L" in
      destruct (store_total buf i v) as (b & E & L);
      [rewrite ?length_replicate; lia
      |rewrite E; clear E; rewrite ?length_replicate in L]
  | |- context [copy_at ?buf ?off ?data] =>
      let b := fresh "buf" in
      let E := fresh "E" in
      let L := fresh "L" in
      destruct (copy_at_total buf off data) as (b & E & L);
      [rewrite ?length_replicate; lia
      |rewrite E; clear E; rewrite ?length_replicate in L]
  end; cbn [mbind option_bind].

(** The scratch buffer after the key, its terminator and the method
    byte: the payload so far, then what was there before. *)
Lemma ztxt_head_eq (t key : list Z) :
  (length key + 2 <= length t)%nat ->
  <[(length key + 1)%nat := 0]>
    (<[length key := 0]> (take 0 t ++ key ++ drop (0 + length key) t))
  = (key ++ [0; 0]) ++ drop (length key + 2) t.
Proof.
  intros Hl. rewrite take_0, app_nil_l, Nat.add_0_l.
  rewrite insert_app_r_alt by lia. rewrite insert_app_r_alt by lia.
  replace (length key + 1 - length key)%nat with 1%nat by lia.
  rewrite Nat.sub_diag.
  destruct (drop (length key) t) as [|a [|b rest]] eqn:Ed.
  { apply (f_equal length) in Ed. rewrite length_drop in Ed. cbn in Ed. lia. }
  { apply (f_equal length) in Ed. rewrite length_drop in Ed. cbn in Ed. lia. }
  rewrite <- drop_drop, Ed. cbn. by rewrite <- app_assoc.
Qed.

Section TextChunks.

Context `{Collaborators}.

Lemma maybeWriteTEXT_total e t : is_Some (maybeWriteTEXT e t).
Proof.
  unfold maybeWriteTEXT. destruct (err e); [eauto|]. cbn zeta.
  run_update. run_update.
  destruct (text_value_loop_total (length (Key t)) (GoString.range (Value t))
              buf0) as [buf1 E1].
  { eapply Forall_impl; [apply range_index|]. intros p Hp.
    cbn [fst] in *. lia. }
  rewrite E1. cbn. eauto.
Qed.

Lemma maybeWriteITXT_total e t : is_Some (maybeWriteITXT e t).
Proof.
  unfold maybeWriteITXT. destruct (err e); [eauto|].
  destruct (pngCompress e (Value t)) as [r|[val method]]; [eauto|].
  cbn zeta. do 4 run_update.
  destruct (0 <? length (LanguageTag t))%nat; [run_update|];
    cbn [mbind option_bind]; run_update;
    (destruct (0 <? length (TranslatedKey t))%nat; [run_update|]);
    cbn [mbind option_bind]; run_update; run_update; eauto.
Qed.

(** C10.  With no error pending and a compressed value [val],
    [maybeWriteZTXT] assembles key, NUL, method byte and [val] in the
    1024-byte scratch buffer: it returns, with exactly that payload (too
    short for the oversize branch of [writeChunk]), when the payload is at
    most 1024 bytes long, and it panics on a longer one.  The tEXt and
    iTXt writers build their payload in a buffer of its own size and
    return whatever its length. *)
Theorem ztxt_scratch_bound (e : encoder) (t : TextEntry) (val : list Z) :
  length (tmp e) = 1024%nat -> err e = None ->
  zlib_bytes (levelToZlib (CompressionLevel (enc e))) (Value t) = inr val ->
  let payload := (Key t ++ [0; 0]) ++ val in
  ((length (Key t) + 2 + length val <= 1024)%nat ->
   exists tm,
     length tm = 1024%nat /\
     maybeWriteZTXT e t = Some (writeChunk (set_tmp e tm) payload "zTXt") /\
     u32 (Z.of_nat (length payload)) = Z.of_nat (length payload)) /\
  ((1024 < length (Key t) + 2 + length val)%nat ->
   maybeWriteZTXT e t = None) /\
  is_Some (maybeWriteTEXT e t) /\
  is_Some (maybeWriteITXT e t).
Proof.
  intros Htmp He Hz payload.
  split; [|split; [|split; [apply maybeWriteTEXT_total
                           |apply maybeWriteITXT_total]]].
  - intros Hfit. unfold maybeWriteZTXT, pngCompress. rewrite He, Hz.
    cbn zeta. rewrite blit_Some by lia. cbn [mbind option_bind].
    rewrite store_Some
      by (rewrite !length_app, length_take, length_drop; lia).
    cbn [mbind option_bind].
    rewrite store_Some
      by (rewrite length_insert, !length_app, length_take, length_drop; lia).
    cbn [mbind option_bind]. change (u8 0) with 0.
    rewrite ztxt_head_eq by lia.
    set (B := Key t ++ [0; 0]). set (D := drop _ (tmp e)).
    assert (HB : length B = (length (Key t) + 2)%nat)
      by (subst B; rewrite length_app; cbn; lia).
    assert (HD : length D = (1024 - (length (Key t) + 2))%nat)
      by (subst D; rewrite length_drop; lia).
    destruct val as [|v val'].
    + cbn [length Nat.eqb negb mbind option_bind].
      rewrite slice_Some by (rewrite length_app; lia).
      cbn [mbind option_bind]. exists (B ++ D).
      split; [rewrite length_app; lia|]. split.
      * rewrite drop_0, Nat.sub_0_r, (take_app_length' B D) by lia.
        subst payload. by rewrite app_nil_r.
      * apply Z.mod_small. subst payload B. rewrite !length_app.
        change (length [0; 0]) with 2%nat. lia.
    + set (val := v :: val') in *.
      replace (negb (length val =? 0)%nat) with true by reflexivity.
      rewrite copy_at_fits by (rewrite length_app; lia).
      cbn [mbind option_bind].
      rewrite (take_app_length' B D), (drop_app_add' B D) by lia.
      rewrite slice_Some by (rewrite !length_app, length_drop; lia).
      cbn [mbind option_bind]. exists (B ++ val ++ drop (length val) D).
      split; [rewrite !length_app, length_drop; lia|]. split.
      * rewrite drop_0, Nat.sub_0_r, app_assoc.
        rewrite (take_app_length' (B ++ val)) by (rewrite length_app; lia).
        reflexivity.
      * apply Z.mod_small. subst payload B. rewrite !length_app.
        change (length [0; 0]) with 2%nat. lia.
  - intros Hbig. unfold maybeWriteZTXT, pngCompress. rewrite He, Hz.
    cbn zeta.
    destruct (decide (1024 < length (Key t))%nat) as [Hk|Hk].
    { rewrite blit_None by lia. reflexivity. }
    run_update.
    destruct (decide (length (Key t) = 1024)%nat) as [Hk1|Hk1].
    { rewrite store_None by lia. reflexivity. }
    run_update.
    destruct (decide (length (Key t) = 1023)%nat) as [Hk2|Hk2].
    { rewrite store_None by lia. reflexivity. }
    run_update.
    destruct val as [|v val']; [cbn in Hbig; lia|].
    set (val := v :: val') in *.
    replace (negb (length val =? 0)%nat) with true by reflexivity.
    run_update. rewrite slice_None by lia. reflexivity.
Qed.

End TextChunks.

Lemma ztxt_scratch_bound_witness :
  maybeWriteZTXT (H := stored) (new_session fresh_sink) long_text = None.
Proof.
  destruct (ztxt_scratch_bound (H := stored) (new_session fresh_sink)
              long_text (replicate 1100 65) eq_refl eq_refl eq_refl)
    as (_ & Hbig & _).
  apply Hbig. vm_compute. lia.
Defined.

(* ====================================================================== *)
(** * Further properties of the encoder *)

(** ** Scratch buffers as spliced lists *)

Lemma splice_length (buf : list Z) off data :
  (off + length data <= length buf)%nat ->
  length (splice buf off data) = length buf.
Proof.
  intros Hb. unfold splice. rewrite !length_app, length_take, length_drop. lia.
Qed.

Lemma blit_splice (buf : list Z) off data :
  (off + length data <= length buf)%nat ->
  blit buf off data = Some (splice buf off data).
Proof. apply blit_Some. Qed.

Lemma store_splice (buf : list Z) i v :
  (i < length buf)%nat -> store buf i v = Some (splice buf i [v]).
Proof.
  intros Hi. rewrite store_Some by exact Hi. f_equal. unfold splice.
  cbn [length app]. rewrite insert_take_drop by exact Hi.
  by replace (i + 1)%nat with (S i) by lia.
Qed.

Lemma copy_at_splice (buf : list Z) off data :
  (off + length data <= length buf)%nat ->
  copy_at buf off data = Some (splice buf off data).
Proof. apply copy_at_fits. Qed.

Lemma splice_splice (buf : list Z) off d1 off' d2 :
  off' = (off + length d1)%nat ->
  (off + length d1 + length d2 <= length buf)%nat ->
  splice (splice buf off d1) off' d2 = splice buf off (d1 ++ d2).
Proof.
  intros -> Hb. unfold splice.
  rewrite (app_assoc (take off buf) d1).
  rewrite (take_app_length' (take off buf ++ d1))
    by (rewrite length_app, length_take; lia).
  rewrite (drop_app_add' (take off buf ++ d1))
    by (rewrite length_app, length_take; lia).
  rewrite drop_drop, length_app, <- !app_assoc.
  do 3 f_equal. f_equal. lia.
Qed.

Lemma splice_nil (buf : list Z) off :
  (off <= length buf)%nat -> splice buf off [] = buf.
Proof.
  intros Hb. unfold splice. cbn [length app].
  rewrite Nat.add_0_r. apply take_drop.
Qed.

Lemma splice_all (buf : list Z) data :
  length data = length buf -> splice buf 0 data = data.
Proof.
  intros Hl. unfold splice. rewrite take_0, Nat.add_0_l, Hl, drop_all.
  by rewrite app_nil_r.
Qed.

Lemma slice_splice (buf : list Z) data n :
  n = length data -> (n <= length buf)%nat ->
  slice (splice buf 0 data) 0 n = Some data.
Proof.
  intros -> Hb. rewrite slice_Some by (rewrite splice_length; lia).
  unfold splice. rewrite take_0, drop_0, Nat.sub_0_r. cbn [app].
  by rewrite take_app_length.
Qed.

(** Solves the bounds of an update of a spliced buffer. *)
Ltac splice_bounds :=
  rewrite ?splice_length by splice_bounds;
  rewrite ?length_replicate, ?length_app; cbn [length be32 be16]; lia.

(** Runs the updates of a scratch buffer that are within bounds. *)
Ltac run_splices :=
  repeat first
    [ rewrite blit_splice by splice_bounds
    | rewrite store_splice by splice_bounds
    | rewrite copy_at_splice by splice_bounds
    | progress cbn [mbind option_bind] ].

(** Merges the splices of a buffer that were made one after the other. *)
Ltac merge_splices :=
  repeat (rewrite splice_splice
            by first [ reflexivity
                     | rewrite ?length_app; cbn [length]; lia
                     | splice_bounds ]).

Section Layouts.

Context `{Collaborators}.

(** X2.  The payloads of the chunks of fixed layout, when the field is
    set and no error is pending: gAMA is the gamma as a 32-bit big-endian
    number; cHRM the eight chromaticity values in the order white, red,
    green, blue, x before y; sRGB the intent in one byte; tIME the year
    in two bytes, then month, day, hour, minute and second; pHYs the two
    densities in four bytes each, then the unit. *)
Theorem fixed_layout_chunks (e : encoder) (m : Metadata) :
  length (tmp e) = 1024%nat -> err e = None ->
  (forall g, Gamma m = Some g ->
     exists t, length t = 1024%nat /\
       maybeWriteGAMA e (Some m)
       = Some (writeChunk (set_tmp e t) (be32 g) "gAMA")) /\
  (forall c, chroma m = Some c ->
     exists t, length t = 1024%nat /\
       maybeWriteCHRM e (Some m)
       = Some (writeChunk (set_tmp e t)
                 (be32 (WhiteX c) ++ be32 (WhiteY c) ++ be32 (RedX c)
                  ++ be32 (RedY c) ++ be32 (GreenX c) ++ be32 (GreenY c)
                  ++ be32 (BlueX c) ++ be32 (BlueY c)) "cHRM")) /\
  (forall i, SRGBIntent m = Some i ->
     exists t, length t = 1024%nat /\
       maybeWriteSRGB e (Some m)
       = Some (writeChunk (set_tmp e t) [u8 i] "sRGB")) /\
  (forall utc, LastModified m = Some utc ->
     exists t, length t = 1024%nat /\
       maybeWriteTIME e (Some m)
       = Some (writeChunk (set_tmp e t)
                 (be16 (u16 (Year utc))
                  ++ [u8 (Month utc); u8 (Day utc); u8 (Hour utc);
                      u8 (Minute utc); u8 (Second utc)]) "tIME")) /\
  (forall d, dimension m = Some d ->
     exists t, length t = 1024%nat /\
       maybeWritePHYS e (Some m)
       = Some (writeChunk (set_tmp e t)
                 (be32 (u32 (dimX d)) ++ be32 (u32 (dimY d))
                  ++ [u8 (dimUnit d)]) "pHYs")).
Proof.
  intros Htmp He. repeat split.
  - intros g Hg. unfold maybeWriteGAMA. rewrite Hg, He. run_splices.
    rewrite slice_splice by first [reflexivity | splice_bounds].
    eexists. split; [|reflexivity]. splice_bounds.
  - intros c Hc. unfold maybeWriteCHRM. rewrite Hc, He. run_splices.
    merge_splices.
    rewrite slice_splice by first [reflexivity | splice_bounds].
    eexists. split; [|reflexivity]. splice_bounds.
  - intros i Hi. unfold maybeWriteSRGB. rewrite Hi, He. run_splices.
    rewrite slice_splice by first [reflexivity | splice_bounds].
    eexists. split; [|reflexivity]. splice_bounds.
  - intros utc Hu. unfold maybeWriteTIME. rewrite Hu, He. run_splices.
    merge_splices.
    rewrite slice_splice by first [reflexivity | splice_bounds].
    eexists. split; [|reflexivity]. splice_bounds.
  - intros d Hd. unfold maybeWritePHYS. rewrite Hd, He. run_splices.
    merge_splices.
    rewrite slice_splice by first [reflexivity | splice_bounds].
    eexists. split; [|reflexivity]. splice_bounds.
Qed.


Lemma writeIHDR_run (e : encoder) (m : PixelImage) (depth ct : Z) :
  length (tmp e) = 1024%nat ->
  depth_and_type (cbits e) = Some (depth, ct) ->
  exists t, length t = 1024%nat /\
    writeIHDR e m
    = Some (writeChunk (set_tmp e t)
              (be32 (u32 (Dx (Bounds m))) ++ be32 (u32 (Dy (Bounds m)))
               ++ [depth; ct; 0; 0; 0]) "IHDR").
Proof.
  intros Htmp Hcb. unfold writeIHDR. rewrite Hcb. cbn zeta. run_splices.
  merge_splices.
  rewrite slice_splice by first [reflexivity | splice_bounds].
  eexists. split; [|reflexivity]. splice_bounds.
Qed.

(** X1.  [writeIHDR] sends an IHDR chunk of 13 bytes: width and height
    as 32-bit big-endian numbers, the bit depth and the colour type of
    the mode, and three zero bytes (compression method, filter method,
    no interlacing). *)
Theorem ihdr_layout (e : encoder) (m : PixelImage) (depth ct : Z) :
  length (tmp e) = 1024%nat ->
  depth_and_type (cbits e) = Some (depth, ct) ->
  exists t, length t = 1024%nat /\
    writeIHDR e m
    = Some (writeChunk (set_tmp e t)
              (be32 (u32 (Dx (Bounds m))) ++ be32 (u32 (Dy (Bounds m)))
               ++ [depth; ct; 0; 0; 0]) "IHDR").
Proof. apply writeIHDR_run. Qed.

Lemma hist_loop_splice hs : forall i b,
  (2 * (i + length hs) <= length b)%nat ->
  hist_loop i hs b = Some (splice b (i * 2) (flat_map be16 hs)).
Proof.
  induction hs as [|h hs IH]; intros i b Hb; cbn [hist_loop flat_map].
  - by rewrite splice_nil by lia.
  - cbn [length] in Hb. rewrite blit_splice by (cbn [length be16]; lia).
    cbn [mbind option_bind].
    rewrite IH by (rewrite splice_length; cbn [length be16]; lia).
    f_equal. apply splice_splice; [cbn; lia|].
    change (length (be16 h)) with 2%nat.
    assert (length (flat_map be16 hs) = (2 * length hs)%nat) as ->; [|lia].
    clear. induction hs as [|h' hs IH]; cbn in *; lia.
Qed.

(** X3.  [maybeWriteHIST] writes the histogram as one 16-bit big-endian
    number for each entry, whatever their number. *)
Theorem hist_layout (e : encoder) (m : Metadata) (hs : list Z) :
  err e = None -> Histogram m = Some hs ->
  maybeWriteHIST e (Some m) = Some (writeChunk e (flat_map be16 hs) "hIST") /\
  length (flat_map be16 hs) = (2 * length hs)%nat.
Proof.
  intros He Hh. split.
  - unfold maybeWriteHIST. rewrite Hh, He.
    rewrite hist_loop_splice by (rewrite length_replicate; lia).
    cbn [mbind option_bind]. rewrite splice_all; [reflexivity|].
    rewrite length_replicate. clear. induction hs as [|h hs IH]; cbn in *; lia.
  - clear. induction hs as [|h hs IH]; cbn in *; lia.
Qed.


Lemma maybeWriteITXT_run (e : encoder) (t : TextEntry) (val : list Z) :
  err e = None ->
  zlib_bytes (levelToZlib (CompressionLevel (enc e))) (Value t) = inr val ->
  maybeWriteITXT e t
  = Some (writeChunk e
            (Key t ++ [0; 1; 0] ++ LanguageTag t ++ [0]
             ++ TranslatedKey t ++ [0] ++ val) "iTXt").
Proof.
  intros He Hz. unfold maybeWriteITXT, pngCompress. rewrite He, Hz. cbn zeta.
  change (u8 0) with 0.
  set (n := (length (Key t) + length val + length (LanguageTag t)
             + length (TranslatedKey t) + 5)%nat).
  run_splices.
  assert (forall (b : list Z) off d, (off <= length b)%nat ->
    (if (0 <? length d)%nat
     then Some (splice b off d, (off + length d)%nat)
     else Some (b, off)) = Some (splice b off d, (off + length d)%nat)) as Opt.
  { intros b off d Hb. destruct d as [|x d]; [|reflexivity].
    cbn. rewrite splice_nil by lia. do 2 f_equal. lia. }
  repeat first
    [ rewrite Opt by (subst n; splice_bounds)
    | rewrite store_splice by (subst n; splice_bounds)
    | rewrite copy_at_splice by (subst n; splice_bounds)
    | progress cbn [mbind option_bind] ].
  cbn [mbind option_bind]. do 2 f_equal.
  merge_splices.
  rewrite splice_all; [rewrite <- ?app_assoc; reflexivity|].
  subst n. rewrite length_replicate, !length_app. cbn [length]. lia.
Qed.


(** X5.  An iTXt chunk holds the key, a zero byte, the compression flag
    1, the compression method 0, the language tag, a zero byte, the
    translated key, a zero byte and the compressed value; an empty tag
    or translated key leaves its terminator alone. *)
Theorem itxt_layout (e : encoder) (t : TextEntry) (val : list Z) :
  err e = None ->
  zlib_bytes (levelToZlib (CompressionLevel (enc e))) (Value t) = inr val ->
  let payload := Key t ++ [0; 1; 0] ++ LanguageTag t ++ [0]
                 ++ TranslatedKey t ++ [0] ++ val in
  maybeWriteITXT e t = Some (writeChunk e payload "iTXt") /\
  length payload
  = (length (Key t) + length (LanguageTag t) + length (TranslatedKey t)
     + length val + 5)%nat.
Proof.
  intros He Hz payload. split; [by apply maybeWriteITXT_run|].
  subst payload. rewrite !length_app. cbn [length]. lia.
Qed.

(** X6.  XMP goes out as an iTXt chunk under the reserved key, with an
    empty language tag and translated key.  The text is what the
    registered object encodes to; the raw text is used only when no
    object is registered; an error of the object's encoding becomes the
    error of the session and nothing is written. *)
Theorem xmp_chunk (e : encoder) (m : Metadata) :
  err e = None ->
  let level := levelToZlib (CompressionLevel (enc e)) in
  (forall text val, xmp m = Some (inr text) ->
     zlib_bytes level text = inr val ->
     maybeWriteXMP e (Some m)
     = Some (writeChunk e (xmpTextKey ++ [0; 1; 0; 0; 0] ++ val) "iTXt")) /\
  (forall raw val, xmp m = None -> rawXmp m = Some raw ->
     zlib_bytes level raw = inr val ->
     maybeWriteXMP e (Some m)
     = Some (writeChunk e (xmpTextKey ++ [0; 1; 0; 0; 0] ++ val) "iTXt")) /\
  (forall r, xmp m = Some (inl r) ->
     maybeWriteXMP e (Some m) = Some (set_err e (Some r))).
Proof.
  intros He level. split; [|split].
  - intros text val Hx Hz. unfold maybeWriteXMP. rewrite Hx, He.
    destruct (rawXmp m); by rewrite (maybeWriteITXT_run e _ val).
  - intros raw val Hx Hr Hz. unfold maybeWriteXMP. rewrite Hx, Hr, He.
    by rewrite (maybeWriteITXT_run e _ val).
  - intros r Hx. unfold maybeWriteXMP. rewrite Hx, He.
    by destruct (rawXmp m).
Qed.

End Layouts.

(** ** The value of a tEXt chunk *)

Lemma decode_rune_fits b0 rest :
  (snd (GoString.decode_rune b0 rest) - 1 <= length rest)%nat.
Proof.
  unfold GoString.decode_rune.
  repeat match goal with
  | |- context [if ?c then _ else _] => destruct c
  | |- context [match ?l with [] => _ | _ :: _ => _ end] => destruct l
  end; cbn; lia.
Qed.

Lemma rune_bytes_length fuel : forall s,
  (length s <= fuel)%nat -> length (rune_bytes fuel s) = length s.
Proof.
  induction fuel as [|fuel IH]; intros s Hf.
  - destruct s; [reflexivity|cbn in Hf; lia].
  - destruct s as [|b0 rest]; [reflexivity|]. cbn [rune_bytes].
    pose proof (decode_rune_fits b0 rest) as Hw.
    destruct (GoString.decode_rune b0 rest) as [r wd]. cbn [snd] in Hw.
    cbn [length] in *. rewrite length_app, length_replicate, IH
      by (rewrite length_drop; lia).
    rewrite length_drop. lia.
Qed.

Lemma rune_bytes_ascii s : Forall (fun b => 0 <= b < 128) s ->
  forall fuel, (length s <= fuel)%nat -> rune_bytes fuel s = s.
Proof.
  induction 1 as [|b s Hb Hs IH]; intros fuel Hf.
  - by destruct fuel.
  - destruct fuel as [|fuel]; cbn [length] in Hf; [lia|].
    cbn [rune_bytes]. unfold GoString.decode_rune.
    destruct (Z.ltb_spec b 128) as [_|?]; [|lia].
    cbn [Nat.sub replicate app drop]. rewrite IH by lia.
    f_equal. apply u8_id. unfold is_byte. lia.
Qed.

Lemma text_value_loop_runes klen fuel : forall s i pre post,
  (length s <= fuel)%nat ->
  length pre = (klen + i + 1)%nat ->
  text_value_loop klen (GoString.runes_from fuel i s)
    (pre ++ replicate (length s) 0 ++ post)
  = Some (pre ++ rune_bytes fuel s ++ post).
Proof.
  induction fuel as [|fuel IH]; intros s i pre post Hf Hpre.
  - destruct s; [reflexivity|cbn in Hf; lia].
  - destruct s as [|b0 rest]; [reflexivity|].
    cbn [GoString.runes_from rune_bytes].
    pose proof (decode_rune_fits b0 rest) as Hfit.
    pose proof (decode_rune_width b0 rest) as Hw.
    destruct (GoString.decode_rune b0 rest) as [r wd]. cbn [snd] in Hfit, Hw.
    cbn [text_value_loop length replicate app] in *.
    rewrite store_Some
      by (rewrite length_app; cbn [length]; lia).
    cbn [mbind option_bind].
    replace (klen + i + 1)%nat with (length pre + 0)%nat by lia.
    rewrite insert_app_r. cbn [insert list_insert].
    replace (length rest) with ((wd - 1) + length (drop (wd - 1) rest))%nat
      by (rewrite length_drop; lia).
    rewrite replicate_add, <- app_assoc.
    replace (pre ++ u8 r :: replicate (wd - 1) 0
               ++ replicate (length (drop (wd - 1) rest)) 0 ++ post)
      with ((pre ++ u8 r :: replicate (wd - 1) 0)
              ++ replicate (length (drop (wd - 1) rest)) 0 ++ post)
      by (by rewrite <- app_assoc).
    rewrite IH.
    + by rewrite <- !app_assoc.
    + rewrite length_drop. lia.
    + rewrite length_app. cbn [length]. rewrite length_replicate. lia.
Qed.

Section Text.

Context `{Collaborators}.

(** X4.  A tEXt chunk holds the key, a zero byte and the value rune by
    rune: the low byte of each code point at the rune's offset, zero in
    the place of the bytes that continue a multi-byte sequence.  A value
    of ASCII bytes goes out unchanged. *)
Theorem text_layout (e : encoder) (t : TextEntry) :
  err e = None ->
  let body := rune_bytes (length (Value t)) (Value t) in
  maybeWriteTEXT e t = Some (writeChunk e (Key t ++ 0 :: body) "tEXt") /\
  length body = length (Value t) /\
  (Forall (fun b => 0 <= b < 128) (Value t) -> body = Value t).
Proof.
  intros He body. split; [|split].
  - unfold maybeWriteTEXT. rewrite He. cbn zeta.
    run_splices. merge_splices.
    assert (Hbuf : splice (replicate (length (Key t) + length (Value t) + 1) 0)
                     0 (Key t ++ [0])
                   = (Key t ++ [0]) ++ replicate (length (Value t)) 0 ++ []).
    { unfold splice. cbn [take app]. rewrite app_nil_r, Nat.add_0_l.
      rewrite drop_replicate, length_app. cbn [length].
      rewrite take_0. cbn [app]. do 2 f_equal. lia. }
    rewrite Hbuf. unfold GoString.range.
    rewrite text_value_loop_runes
      by (rewrite ?length_app; cbn [length]; lia).
    cbn [mbind option_bind]. by rewrite app_nil_r, <- app_assoc.
  - apply rune_bytes_length. lia.
  - intros Hv. by apply rune_bytes_ascii.
Qed.

End Text.

Lemma fixed_layout_chunks_witness :
  exists t, length t = 1024%nat /\
    maybeWriteGAMA (H := stored) (new_session fresh_sink) (Some rich_metadata)
    = Some (writeChunk (H := stored) (set_tmp (new_session fresh_sink) t)
              (be32 45455) "gAMA").
Proof.
  exact (proj1 (fixed_layout_chunks (H := stored) (new_session fresh_sink)
                  rich_metadata eq_refl eq_refl) 45455 eq_refl).
Defined.

Lemma ihdr_layout_witness :
  exists t, length t = 1024%nat /\
    writeIHDR (H := stored) (set_cb (new_session fresh_sink) cbG8)
              (gray_image 3 2 65535)
    = Some (writeChunk (H := stored)
              (set_tmp (set_cb (new_session fresh_sink) cbG8) t)
              ([0; 0; 0; 3] ++ [0; 0; 0; 2] ++ [8; 0; 0; 0; 0]) "IHDR").
Proof.
  exact (ihdr_layout (H := stored) (set_cb (new_session fresh_sink) cbG8)
           (gray_image 3 2 65535) 8 0 eq_refl eq_refl).
Defined.

Lemma hist_layout_witness :
  maybeWriteHIST (H := stored) (new_session fresh_sink) (Some rich_metadata)
  = Some (writeChunk (H := stored) (new_session fresh_sink)
            [0; 1; 0; 2] "hIST").
Proof.
  exact (proj1 (hist_layout (H := stored) (new_session fresh_sink)
                  rich_metadata [1; 2] eq_refl eq_refl)).
Defined.

Lemma text_layout_witness :
  maybeWriteTEXT (H := stored) (new_session fresh_sink) accented_text
  = Some (writeChunk (H := stored) (new_session fresh_sink)
            (str_bytes "Author" ++ 0 :: [233; 0; 65]) "tEXt").
Proof.
  exact (proj1 (text_layout (H := stored) (new_session fresh_sink)
                  accented_text eq_refl)).
Defined.

Lemma itxt_layout_witness :
  maybeWriteITXT (H := stored) (new_session fresh_sink) plain_text
  = Some (writeChunk (H := stored) (new_session fresh_sink)
            (str_bytes "Title" ++ [0; 1; 0] ++ str_bytes "en" ++ [0]
             ++ [] ++ [0] ++ str_bytes "PNG") "iTXt").
Proof.
  exact (proj1 (itxt_layout (H := stored) (new_session fresh_sink) plain_text
                  (str_bytes "PNG") eq_refl eq_refl)).
Defined.

Lemma xmp_chunk_witness :
  maybeWriteXMP (H := stored) (new_session fresh_sink) (Some rich_metadata)
  = Some (writeChunk (H := stored) (new_session fresh_sink)
            (xmpTextKey ++ [0; 1; 0; 0; 0] ++ str_bytes "<x/>") "iTXt").
Proof.
  exact (proj1 (xmp_chunk (H := stored) (new_session fresh_sink)
                  rich_metadata eq_refl)
           (str_bytes "<x/>") (str_bytes "<x/>") eq_refl eq_refl).
Defined.

(** ** Chunks on the wire, and deferred sources *)

Section Chunks.

Context `{Collaborators}.

(** X7.  On a sink that takes every write, [writeChunk] appends the
    chunk in three writes and leaves no error; the bytes read back as
    the chunk's tag and payload, and they end in the CRC-32 of tag and
    payload. *)
Theorem chunk_round_trip (e : encoder) (b : list Z) (name : string) :
  err e = None -> accepting (w e) -> four_letter name ->
  Z.of_nat (length b) < 4294967296 ->
  let e' := writeChunk e b name in
  err e' = None /\
  out (w e') = out (w e) ++ frame name b /\
  calls (w e') = (calls (w e) + 3)%nat /\
  parse_chunks 1 (frame name b) = Some [(str_bytes name, b)] /\
  drop (8 + length b) (frame name b)
  = be32 (crc32_IEEE (str_bytes name ++ b)).
Proof.
  intros He Hacc Hn Hb e'.
  destruct (writeChunk_accepting e b name He Hacc Hb) as (E & _ & O & _).
  fold e' in E, O.
  assert (Htake : take 4 (str_bytes name) = str_bytes name)
    by (apply take_ge; unfold four_letter in Hn; lia).
  split; [exact E|]. split; [exact O|]. split; [|split].
  - subst e'. unfold writeChunk. rewrite He.
    assert (Hu : u32 (Z.of_nat (length b)) = Z.of_nat (length b))
      by (apply Z.mod_small; lia).
    rewrite Hu, Z.eqb_refl. cbn [negb]. cbn zeta.
    set (hd := be32 _ ++ _). set (ft := be32 _).
    destruct (write_to_sink_accepting e hd Hacc) as (E1 & A1 & _).
    pose proof (write_to_sink_facts e hd) as (_ & _ & _ & _ & K1 & _).
    rewrite E1.
    destruct (write_to_sink_accepting _ b A1) as (E2 & A2 & _).
    pose proof (write_to_sink_facts (write_to_sink e hd) b)
      as (_ & _ & _ & _ & K2 & _).
    rewrite E2.
    pose proof (write_to_sink_facts (write_to_sink (write_to_sink e hd) b) ft)
      as (_ & _ & _ & _ & K3 & _).
    rewrite K3, K2, K1. lia.
  - pose proof (parse_frame 0 name b [] [] Hn Hb eq_refl) as Hp.
    by rewrite app_nil_r in Hp.
  - unfold frame. rewrite Htake.
    rewrite (app_assoc (be32 _)), (app_assoc (_ ++ _) b).
    apply drop_app_length'. rewrite !length_app, Hn. cbn. lia.
Qed.


Lemma write_to_sink_cases e b :
  let e' := write_to_sink e b in
  calls (w e') = S (calls (w e)) /\
  fail_at (w e') = fail_at (w e) /\
  ((err e' = None /\ out (w e') = out (w e) ++ b) \/
   (exists n r, fail_at (w e) (calls (w e)) = Some (n, r) /\
      err e' = Some r /\ out (w e') = out (w e) ++ take n b)).
Proof.
  unfold write_to_sink, sink_write.
  destruct (fail_at (w e) (calls (w e))) as [[n r]|]; cbn;
    (split; [reflexivity|]); (split; [reflexivity|]).
  - right. by exists n, r.
  - by left.
Qed.

(** X8.  On any sink, what [writeChunk] appends is a prefix of the
    chunk, made in one to three writes; the chunk is whole when no error
    is left, and a chunk cut short leaves an error.  A payload of 2^32
    bytes or more is refused before anything is written. *)
Theorem writeChunk_on_any_sink (e : encoder) (b : list Z) (name : string) :
  err e = None ->
  let e' := writeChunk e b name in
  (Z.of_nat (length b) < 4294967296 ->
   exists p,
     out (w e') = out (w e) ++ p /\
     p `prefix_of` frame name b /\
     (calls (w e) < calls (w e') <= calls (w e) + 3)%nat /\
     (err e' = None -> p = frame name b) /\
     (p <> frame name b -> err e' <> None)) /\
  (4294967296 <= Z.of_nat (length b) ->
   w e' = w e /\
   err e' = Some (UnsupportedError
     (name ++ " chunk is too large: " ++ Itoa (Z.of_nat (length b))))).
Proof.
  intros He e'. subst e'. unfold writeChunk. rewrite He. split.
  - intros Hb.
    assert (Hu : u32 (Z.of_nat (length b)) = Z.of_nat (length b))
      by (apply Z.mod_small; lia).
    rewrite Hu, Z.eqb_refl. cbn [negb]. cbn zeta.
    rewrite frame_unfold.
    set (hd := be32 _ ++ _). set (ft := be32 _).
    destruct (write_to_sink_cases e hd) as (K1 & F1 & [[E1 O1]|C1]).
    2:{ destruct C1 as (n & r & _ & E1 & O1). rewrite E1.
        exists (take n hd). split; [exact O1|].
        split; [exists (drop n hd ++ b ++ ft);
                by rewrite (app_assoc (take n hd)), take_drop|].
        split; [lia|]. split; [by rewrite E1|]. by rewrite E1. }
    rewrite E1.
    destruct (write_to_sink_cases (write_to_sink e hd) b)
      as (K2 & F2 & [[E2 O2]|C2]).
    2:{ destruct C2 as (n & r & _ & E2 & O2). rewrite E2.
        exists (hd ++ take n b). split; [by rewrite O2, O1, app_assoc|].
        split; [exists (drop n b ++ ft);
                by rewrite <- !app_assoc, (app_assoc (take n b)), take_drop|].
        split; [lia|]. split; [by rewrite E2|]. by rewrite E2. }
    rewrite E2.
    destruct (write_to_sink_cases (write_to_sink (write_to_sink e hd) b) ft)
      as (K3 & F3 & [[E3 O3]|C3]).
    + exists (hd ++ b ++ ft).
      split; [by rewrite O3, O2, O1, <- !app_assoc|].
      split; [reflexivity|]. split; [lia|]. split; [done|]. done.
    + destruct C3 as (n & r & _ & E3 & O3).
      exists (hd ++ b ++ take n ft).
      split; [by rewrite O3, O2, O1, <- !app_assoc|].
      split; [exists (drop n ft); by rewrite <- !app_assoc, take_drop|].
      split; [lia|]. split; [by rewrite E3|]. by rewrite E3.
  - intros Hb.
    assert (Hu : u32 (Z.of_nat (length b)) <> Z.of_nat (length b)).
    { unfold u32.
      pose proof (Z.mod_pos_bound (Z.of_nat (length b)) 4294967296). lia. }
    apply Z.eqb_neq in Hu. rewrite Hu. by cbn.
Qed.

(** X9.  A deferred source is written out as it was read: the
    signature, then each captured chunk that is there (IHDR, PLTE, tRNS,
    IDAT), without the CRC it came with and under a CRC of its own, then
    IEND. *)
Theorem deferred_transplant (en : Encoder) (w0 : sink) (di : Deferred)
    (bh : list Z) :
  accepting w0 ->
  ihdr di = Some bh -> blob_ok (ihdr di) ->
  blob_ok (plte di) -> blob_ok (trns di) -> blob_ok (idat di) ->
  exists s,
    EncodeExtended en w0 (IsDeferred di) [] = Some (s, None) /\
    out s = out w0 ++ pngHeader
            ++ blob_chunk "IHDR" (ihdr di) ++ blob_chunk "PLTE" (plte di)
            ++ blob_chunk "tRNS" (trns di) ++ blob_chunk "IDAT" (idat di)
            ++ frame "IEND" [].
Proof.
  intros Hacc Hh Kh Kp Kt Kd.
  unfold EncodeExtended. cbn [scan_opts size_error start_session].
  cbn zeta.
  set (e0 := {| enc := en; w := w0; cbits := cbInvalid; err := None;
                tmp := replicate (4 * 256) 0 |}).
  destruct (write_to_sink_accepting e0 pngHeader Hacc)
    as (E1 & A1 & O1 & _).
  set (e1 := write_to_sink e0 pngHeader) in *.
  assert (Blob : forall e name o, err e = None -> accepting (w e) ->
            blob_ok o -> o <> None ->
            exists e', (b ← strip_crc o; Some (writeChunk e b name)) = Some e'
              /\ err e' = None /\ accepting (w e')
              /\ out (w e') = out (w e) ++ blob_chunk name o).
  { intros e name [b|] He Ha Hok Hne; [|done]. destruct Hok as [H4 Hlt].
    unfold strip_crc. cbn [default]. rewrite decide_True by exact H4.
    cbn [mbind option_bind]. eexists. split; [reflexivity|].
    destruct (writeChunk_accepting e (take (length b - 4) b) name He Ha)
      as (E & A & O & _); [rewrite length_take; lia|]. done. }
  assert (Opt : forall e name o, err e = None -> accepting (w e) ->
            blob_ok o ->
            exists e', match o with
                       | Some _ => b ← strip_crc o; Some (writeChunk e b name)
                       | None => Some e
                       end = Some e'
              /\ err e' = None /\ accepting (w e')
              /\ out (w e') = out (w e) ++ blob_chunk name o).
  { intros e name o He Ha Hok. destruct o as [b|] eqn:Ho.
    - apply Blob; done.
    - exists e. cbn. by rewrite app_nil_r. }
  unfold write_header_chunk.
  destruct (Blob e1 "IHDR"%string (ihdr di) E1 A1 Kh ltac:(by rewrite Hh))
    as (e2 & -> & E2 & A2 & O2).
  cbn [mbind option_bind write_metadata write_palette_chunks].
  destruct (Opt e2 "PLTE"%string (plte di) E2 A2 Kp) as (e3 & -> & E3 & A3 & O3).
  cbn [mbind option_bind].
  destruct (Opt e3 "tRNS"%string (trns di) E3 A3 Kt) as (e4 & -> & E4 & A4 & O4).
  cbn [mbind option_bind maybeWriteHIST write_image_data].
  destruct (Opt e4 "IDAT"%string (idat di) E4 A4 Kd) as (e5 & -> & E5 & A5 & O5).
  cbn [mbind option_bind].
  destruct (writeChunk_accepting e5 [] "IEND" E5 A5 ltac:(cbn; lia))
    as (E6 & A6 & O6 & _).
  unfold writeIEND. eexists. split; [by rewrite E6|].
  rewrite O6, O5, O4, O3, O2, O1. subst e0. cbn [w].
  by rewrite <- !app_assoc.
Qed.

(** X10.  A deferred source without a captured IHDR chunk, or with one
    of fewer than four bytes, makes the call panic. *)
Theorem deferred_short_header (en : Encoder) (w0 : sink) (di : Deferred) :
  (length (default [] (ihdr di)) < 4)%nat ->
  EncodeExtended en w0 (IsDeferred di) [] = None.
Proof.
  intros Hshort. unfold EncodeExtended.
  cbn [scan_opts size_error start_session]. cbn zeta.
  unfold write_header_chunk, strip_crc.
  rewrite decide_False by lia. reflexivity.
Qed.

End Chunks.

Lemma writeChunk_on_any_sink_witness :
  let e := new_session failing_sink in
  let e' := writeChunk (H := stored) e [1; 2] "IDAT" in
  exists p,
    out (w e') = out (w e) ++ p /\
    p `prefix_of` frame (H := stored) "IDAT" [1; 2] /\
    (calls (w e) < calls (w e') <= calls (w e) + 3)%nat /\
    (err e' = None -> p = frame (H := stored) "IDAT" [1; 2]) /\
    (p <> frame (H := stored) "IDAT" [1; 2] -> err e' <> None).
Proof.
  exact (proj1 (writeChunk_on_any_sink (H := stored)
                  (new_session failing_sink) [1; 2] "IDAT" eq_refl)
           ltac:(cbn; lia)).
Defined.

Lemma chunk_round_trip_witness :
  parse_chunks 1 (frame (H := stored) "IDAT" [1; 2])
  = Some [(str_bytes "IDAT", [1; 2])].
Proof.
  destruct (chunk_round_trip (H := stored) (new_session fresh_sink) [1; 2]
              "IDAT" eq_refl (fun _ => eq_refl) eq_refl eq_refl)
    as (_ & _ & _ & Hp & _).
  exact Hp.
Defined.

Lemma deferred_transplant_witness :
  exists s,
    EncodeExtended (H := stored) default_encoder fresh_sink
                   (IsDeferred full_deferred) [] = Some (s, None) /\
    out s = out fresh_sink ++ pngHeader
            ++ blob_chunk (H := stored) "IHDR" (ihdr full_deferred)
            ++ blob_chunk (H := stored) "PLTE" (plte full_deferred)
            ++ blob_chunk (H := stored) "tRNS" (trns full_deferred)
            ++ blob_chunk (H := stored) "IDAT" (idat full_deferred)
            ++ frame (H := stored) "IEND" [].
Proof.
  apply (deferred_transplant (H := stored) default_encoder fresh_sink
           full_deferred _ (fun _ => eq_refl) eq_refl);
    cbn; try split; try lia; exact I.
Defined.

Lemma deferred_short_header_witness :
  EncodeExtended (H := stored) default_encoder fresh_sink
    (IsDeferred {| ihdr := Some [1; 2; 3]; plte := None; trns := None;
                   idat := None |}) []
  = None.
Proof.
  apply (deferred_short_header (H := stored)). cbn. lia.
Defined.

Lemma error_at_signature_is_kept_witness :
  Sink [] 1 (fail_at failing_sink)
  = w (write_to_sink
         (start_session default_encoder failing_sink
            (Pixels (gray_image 1 1 65535))) pngHeader) /\
  kept_error (SinkError 1) (Some (SinkError 1)).
Proof.
  apply (error_at_signature_is_kept (H := stored) default_encoder failing_sink
           (Pixels (gray_image 1 1 65535)) [] None
           (Sink [] 1 (fail_at failing_sink)) (SinkError 1)
           (Some (SinkError 1))); vm_compute; reflexivity.
Defined.

(** ** Options, opacity and the choice of the mode *)

(** X17.  [abs8] is the absolute value of the byte read as a signed
    8-bit number: it lies between 0 and 128, is the same for a byte and
    its negation, and is 0 for the byte 0 alone. *)
Theorem abs8_signed_magnitude (d : Z) :
  is_byte d ->
  abs8 d = Z.abs (if d <? 128 then d else d - 256) /\
  0 <= abs8 d <= 128 /\
  abs8 (u8 (- d)) = abs8 d /\
  (abs8 d = 0 <-> d = 0).
Proof.
  unfold is_byte, abs8, u8. intros Hd.
  destruct (Z.eq_dec d 0) as [->|Hnz];
    [repeat split; try reflexivity; cbn; try lia; discriminate|].
  replace ((- d) mod 256) with (256 - d)
    by (apply (Z.mod_unique _ _ (-1)); lia).
  destruct (Z.ltb_spec d 128), (Z.ltb_spec (256 - d) 128); lia.
Qed.

Lemma abs8_signed_magnitude_witness : abs8 (u8 (- 200)) = abs8 200.
Proof.
  apply (abs8_signed_magnitude 200). unfold is_byte. lia.
Defined.

(** X16.  [levelToZlib] yields one of the four levels of the zlib
    package; it yields no compression, best speed and best compression
    for these settings alone, and the default for everything else. *)
Theorem levelToZlib_cases (l : Z) :
  (levelToZlib l = zlib.DefaultCompression \/
   levelToZlib l = zlib.NoCompression \/
   levelToZlib l = zlib.BestSpeed \/
   levelToZlib l = zlib.BestCompression) /\
  (levelToZlib l = zlib.NoCompression <-> l = NoCompression) /\
  (levelToZlib l = zlib.BestSpeed <-> l = BestSpeed) /\
  (levelToZlib l = zlib.BestCompression <-> l = BestCompression) /\
  -1 <= levelToZlib l <= 9.
Proof.
  unfold levelToZlib, zlib.DefaultCompression, zlib.NoCompression,
    zlib.BestSpeed, zlib.BestCompression, DefaultCompression, NoCompression,
    BestSpeed, BestCompression.
  repeat match goal with
         | |- context [?a =? ?b] => destruct (Z.eqb_spec a b)
         end; lia.
Qed.

(** X12.  The options are accepted in two cases only: no option at
    all, or a single metadata bundle that passes its validation.  A
    second bundle, a bundle that fails its validation and an option of
    any other type end the call with an error. *)
Theorem scan_opts_accepts (opts : list WriteOption) (md : option Metadata) :
  scan_opts opts None = inr md <->
  (opts = [] /\ md = None) \/
  (exists m, opts = [OptMetadata m] /\ validate m = None /\ md = Some m).
Proof.
  split.
  - destruct opts as [|[m|ty] rest]; cbn.
    + intros [= <-]. by left.
    + destruct (validate m) eqn:Hv; [discriminate|].
      destruct rest as [|[m'|ty'] rest']; cbn; [|discriminate..].
      intros [= <-]. right. by exists m.
    + discriminate.
  - intros [[-> ->]|(m & -> & Hv & ->)]; cbn; [reflexivity|].
    by rewrite Hv.
Qed.

Lemma in_int_range lo hi v : In v (int_range lo hi) <-> lo <= v < hi.
Proof.
  unfold int_range. rewrite in_map_iff. split.
  - intros (k & <- & Hk). apply in_seq in Hk. lia.
  - intros Hv. exists (Z.to_nat (v - lo)). split; [lia|].
    apply in_seq. lia.
Qed.

(** X13.  [opaque] returns what the image's own [Opaque] method says
    when it has one; otherwise it is true exactly when every pixel
    within the bounds has the alpha value 0xffff. *)
Theorem opaque_spec (m : PixelImage) :
  (forall o, Opaquer m = Some o -> opaque m = o) /\
  (Opaquer m = None ->
   (opaque m = true <->
    forall x y, MinX (Bounds m) <= x < MaxX (Bounds m) ->
                MinY (Bounds m) <= y < MaxY (Bounds m) ->
                alpha_at m x y = 65535)).
Proof.
  unfold opaque. split.
  - by intros o ->.
  - intros ->. rewrite forallb_forall. split.
    + intros Hall x y Hx Hy.
      specialize (Hall y (proj2 (in_int_range _ _ _) Hy)).
      rewrite forallb_forall in Hall.
      specialize (Hall x (proj2 (in_int_range _ _ _) Hx)). lia.
    + intros Hall y Hy. apply forallb_forall. intros x Hx.
      apply in_int_range in Hx, Hy. rewrite (Hall x y Hx Hy). reflexivity.
Qed.

(** X14.  A source with a palette is written in paletted mode at the
    smallest of the depths 1, 2, 4 and 8 bits whose range holds an index
    for every palette entry. *)
Theorem palette_depth_is_least (m : PixelImage) (pal : Palette) :
  palette_of m = Some pal ->
  exists bits,
    depth_and_type (select_cb m) = Some (bits, ctPaletted) /\
    bitsPerPixel (select_cb m) = bits /\
    In bits [1; 2; 4; 8] /\
    ((length pal <= 256)%nat -> Z.of_nat (length pal) <= 2 ^ bits) /\
    (forall b, In b [1; 2; 4; 8] -> Z.of_nat (length pal) <= 2 ^ b ->
       bits <= b).
Proof.
  intros Hpal. unfold select_cb. rewrite Hpal.
  destruct (Nat.leb_spec (length pal) 2);
    [|destruct (Nat.leb_spec (length pal) 4);
      [|destruct (Nat.leb_spec (length pal) 16)]];
    eexists; (split; [reflexivity|]); (split; [reflexivity|]);
    (split; [cbn; tauto|]); (split; [cbn; lia|]);
    intros b [<-|[<-|[<-|[<-|[]]]]]; cbn; lia.
Qed.

Lemma palette_depth_is_least_witness :
  exists bits,
    depth_and_type (select_cb (paletted_1x1 five_entries))
    = Some (bits, ctPaletted) /\
    bitsPerPixel (select_cb (paletted_1x1 five_entries)) = bits /\
    In bits [1; 2; 4; 8] /\
    ((length five_entries <= 256)%nat ->
     Z.of_nat (length five_entries) <= 2 ^ bits) /\
    (forall b, In b [1; 2; 4; 8] -> Z.of_nat (length five_entries) <= 2 ^ b ->
       bits <= b).
Proof.
  exact (palette_depth_is_least (paletted_1x1 five_entries) five_entries
           eq_refl).
Defined.

(** X15.  The mode chosen for a source is never the zero value of
    [cb]; the bits per pixel that [writeImage] takes for it are the bit
    depth of [writeIHDR] times the samples per pixel of the colour type;
    and wherever [filter] runs, a pixel takes a whole number of bytes,
    one at least. *)
Theorem selected_mode_tables (m : PixelImage) :
  let c := select_cb m in
  c <> cbInvalid /\
  (exists depth ct,
     depth_and_type c = Some (depth, ct) /\
     bitsPerPixel c = depth * channels ct) /\
  (forall level, applies_filter level c = true ->
     exists bpp, (1 <= bpp)%nat /\
       bitsPerPixel c = 8 * Z.of_nat bpp /\
       Z.to_nat (bitsPerPixel c `quot` 8) = bpp).
Proof.
  intros c. subst c. unfold select_cb.
  destruct (palette_of m) as [pal|].
  - destruct (length pal <=? 2)%nat; [|destruct (length pal <=? 4)%nat;
      [|destruct (length pal <=? 16)%nat]];
      (split; [discriminate|]);
      (split; [do 2 eexists; split; reflexivity|]);
      intros level Hf; unfold applies_filter in Hf; cbn in Hf;
      rewrite ?andb_false_r in Hf; discriminate.
  - destruct (Model m), (opaque m);
      (split; [discriminate|]);
      (split; [do 2 eexists; split; reflexivity|]);
      intros level _;
      match goal with
      | |- exists bpp, _ /\ bitsPerPixel ?c = _ /\ _ =>
          exists (Z.to_nat (bitsPerPixel c `quot` 8))
      end;
      (split; [vm_compute; lia|split; reflexivity]).
Qed.

(** ** Undoing the filter *)

Lemma u8_restore c p : is_byte c -> u8 (u8 (c - p) + p) = c.
Proof.
  unfold u8, is_byte. intros Hc.
  rewrite Zplus_mod_idemp_l. replace (c - p + p) with c by lia.
  apply Z.mod_small. lia.
Qed.

Lemma restore_byte f bpp cur prev i :
  bytes cur ->
  u8 (FilterSpec.filter_byte f bpp cur prev i
      + predictor f (FilterSpec.left_of bpp cur i)
          (FilterSpec.byte_at prev i) (FilterSpec.left_of bpp prev i))
  = FilterSpec.byte_at cur i.
Proof.
  intros Hcur. pose proof (byte_at_is_byte cur i Hcur) as Hb.
  unfold FilterSpec.filter_byte, predictor.
  destruct f as [|[|[|[|f]]]];
    unfold FilterSpec.none_byte, FilterSpec.sub_byte, FilterSpec.up_byte,
      FilterSpec.average_byte, FilterSpec.paeth_byte;
    try (by apply u8_restore).
  rewrite Z.add_0_r. by apply u8_id.
Qed.

Lemma left_of_take bpp cur k :
  (1 <= bpp)%nat ->
  FilterSpec.left_of bpp (take k cur) k = FilterSpec.left_of bpp cur k.
Proof.
  intros Hbpp. unfold FilterSpec.left_of, FilterSpec.byte_at.
  destruct (k <? bpp)%nat eqn:E; [reflexivity|].
  apply Nat.ltb_ge in E.
  rewrite !nth_lookup. by rewrite lookup_take_lt by lia.
Qed.

Lemma unfilter_from_spec f bpp cur prev :
  bytes cur -> (1 <= bpp)%nat ->
  forall m k, (k + m = length cur)%nat ->
    unfilter_from f bpp prev
      (drop k (FilterSpec.filtered f bpp cur prev)) (take k cur)
    = cur.
Proof.
  intros Hcur Hbpp. induction m as [|m IH]; intros k Hk.
  - rewrite drop_ge
      by (unfold FilterSpec.filtered; rewrite length_map, length_seq; lia).
    cbn. apply take_ge. lia.
  - assert (Hlt : (k < length cur)%nat) by lia.
    unfold FilterSpec.filtered.
    rewrite skipn_map, skipn_seq.
    replace (length cur - k)%nat with (S (length cur - S k)) by lia.
    cbn [seq map unfilter_from].
    rewrite length_take, Nat.min_l by lia.
    rewrite left_of_take by done. rewrite Nat.add_0_l.
    rewrite restore_byte by done.
    rewrite <- (take_S_r cur k) by (by apply byte_at_lookup).
    specialize (IH (S k)). unfold FilterSpec.filtered in IH.
    rewrite skipn_map, skipn_seq in IH. rewrite Nat.add_0_l in IH.
    apply IH. lia.
Qed.

Lemma unfilter_filtered f bpp cur prev :
  bytes cur -> (1 <= bpp)%nat ->
  unfilter f bpp prev (FilterSpec.filtered f bpp cur prev) = cur.
Proof.
  intros Hcur Hbpp.
  exact (unfilter_from_spec f bpp cur prev Hcur Hbpp (length cur) 0 eq_refl).
Qed.

(** X18.  Whatever [filter] selects can be undone when a pixel takes
    one byte at least: from the tag and the row it returns, and the
    previous row, the current row is restored byte by byte. *)
Theorem filter_round_trip
    (cr : rows) (pr cur prev : list Z) (tp : Z) (bpp : nat) :
  FilterSpec.tagged cr (length cur) ->
  row0 cr = Z.of_nat ftNone :: cur ->
  pr = tp :: prev ->
  bytes cur -> bytes prev -> length prev = length cur ->
  (1 <= bpp <= length cur)%nat ->
  exists f cr' row,
    Filter.filter cr pr bpp = Some (f, cr') /\
    (f < nFilter)%nat /\
    rows_get cr' f = Some (Z.of_nat f :: row) /\
    length row = length cur /\
    unfilter f bpp prev row = cur.
Proof.
  intros Htag Hrow0 -> Hcur Hprev Hlen [Hbpp1 Hbpp].
  destruct (tagged_rows _ _ Htag)
    as (d0 & d1 & d2 & d3 & d4 & -> & L0 & L1 & L2 & L3 & L4).
  cbn in Hrow0. injection Hrow0 as ->.
  destruct (filter_run cur prev bpp Hcur Hprev Hlen Hbpp 0 1 2 3 4 tp
              d1 d2 d3 d4 L1 L2 L3 L4)
    as (o1 & o3 & o4 & Hrun & HS & HA & HP).
  destruct (exhaustive_first_minimal bpp cur prev) as (Hin & _).
  set (f := FilterSpec.exhaustive bpp cur prev) in *.
  exists f. eexists. exists (FilterSpec.filtered f bpp cur prev).
  split; [exact Hrun|].
  split; [cbn in Hin; unfold nFilter;
          destruct Hin as [E|[E|[E|[E|[E|[]]]]]]; rewrite <- E;
          unfold ftNone, ftSub, ftUp, ftAverage, ftPaeth; lia|].
  split; [|split].
  - cbn in Hin.
    destruct Hin as [E|[E|[E|[E|[E|[]]]]]]; rewrite <- E in *; cbn.
    + reflexivity.
    + by rewrite HP.
    + by rewrite (filtered_none cur prev bpp).
    + by rewrite HS.
    + by rewrite HA.
  - unfold FilterSpec.filtered. by rewrite length_map, length_seq.
  - by apply unfilter_filtered.
Qed.

Lemma filter_round_trip_witness :
  exists f cr' row,
    Filter.filter (row_buffers [128; 150]) [0; 0; 200] 1 = Some (f, cr') /\
    (f < nFilter)%nat /\
    rows_get cr' f = Some (Z.of_nat f :: row) /\
    length row = 2%nat /\
    unfilter f 1 [0; 200] row = [128; 150].
Proof.
  apply (filter_round_trip (row_buffers [128; 150]) [0; 0; 200] [128; 150]
           [0; 200] 0 1).
  - intros f Hf. unfold nFilter in Hf.
    destruct f as [|[|[|[|[|f]]]]]; [..|lia]; eexists; split; reflexivity.
  - reflexivity.
  - reflexivity.
  - repeat constructor; unfold is_byte; lia.
  - repeat constructor; unfold is_byte; lia.
  - reflexivity.
  - cbn. lia.
Defined.

(** ** Packed rows *)

Lemma lor_shift a x bits :
  0 <= a -> 0 <= bits -> 0 <= x < 2 ^ bits ->
  Z.lor (a * 2 ^ bits) x = a * 2 ^ bits + x.
Proof.
  intros Ha Hbits Hx.
  destruct (Z.eq_dec x 0) as [->|Hx0]; [by rewrite Z.lor_0_r, Z.add_0_r|].
  assert (Hland : Z.land (a * 2 ^ bits) x = 0).
  { apply Z.bits_inj'. intros i Hi. rewrite Z.land_spec, Z.bits_0.
    destruct (Z.lt_ge_cases i bits) as [Hlt|Hge].
    - by rewrite Z.mul_pow2_bits_low by lia.
    - rewrite (Z.bits_above_log2 x i), andb_false_r; [reflexivity|lia|].
      apply Z.log2_lt_pow2; [lia|].
      apply Z.lt_le_trans with (2 ^ bits); [lia|].
      apply Z.pow_le_mono_r; lia. }
  by rewrite <- Z.lxor_lor, <- Z.add_nocarry_lxor.
Qed.

Section Packing.

Variable bits : Z.
Hypothesis Hbits : bits = 1 \/ bits = 2 \/ bits = 4.


Lemma ppb_quot : 8 `quot` bits = Z.of_nat (perByte bits).
Proof. unfold perByte. destruct Hbits as [E|[E|E]]; rewrite E; reflexivity. Qed.

Lemma ppb_pos : (1 <= (perByte bits))%nat.
Proof. unfold perByte. destruct Hbits as [E|[E|E]]; rewrite E; vm_compute; lia. Qed.

Lemma ppb_le : ((perByte bits) <= 8)%nat.
Proof. unfold perByte. destruct Hbits as [E|[E|E]]; rewrite E; vm_compute; lia. Qed.

Lemma pw_full : pw bits (perByte bits) = 256.
Proof. unfold pw, perByte. destruct Hbits as [E|[E|E]]; rewrite E; reflexivity. Qed.

Lemma pw_0 : pw bits 0 = 1.
Proof. unfold pw. by rewrite Z.mul_0_r. Qed.

Lemma pw_S c : pw bits (S c) = pw bits c * 2 ^ bits.
Proof.
  unfold pw. rewrite <- Z.pow_add_r by lia. f_equal. lia.
Qed.

Lemma pw_pos c : 0 < pw bits c.
Proof. unfold pw. apply Z.pow_pos_nonneg; lia. Qed.

Lemma pw_mono c d : (c <= d)%nat -> pw bits c <= pw bits d.
Proof. intros H. unfold pw. apply Z.pow_le_mono_r; lia. Qed.

Lemma bits_pos : 0 < 2 ^ bits.
Proof. apply Z.pow_pos_nonneg; lia. Qed.

Lemma shift_in_group a c :
  (c < (perByte bits))%nat -> 0 <= a < pw bits c ->
  u8 (Z.shiftl a bits) = a * 2 ^ bits /\ 0 <= a * 2 ^ bits < pw bits (S c).
Proof.
  intros Hc Ha. rewrite Z.shiftl_mul_pow2 by lia.
  pose proof bits_pos. pose proof (pw_mono (S c) (perByte bits) ltac:(lia)) as Hm.
  rewrite pw_full in Hm. rewrite pw_S in *.
  split; [|nia]. apply u8_id. unfold is_byte. nia.
Qed.

Lemma horner_step a x g :
  horner bits a (x :: g) = horner bits (a * 2 ^ bits + x) g.
Proof. reflexivity. Qed.

Lemma pack_partial g : forall row i a (c : nat),
  Forall (digit bits) g -> (c + length g < (perByte bits))%nat -> 0 <= a < pw bits c ->
  pack_loop bits g
    {| pk_row := row; pk_i := i; pk_a := a; pk_c := Z.of_nat c |}
  = Some {| pk_row := row; pk_i := i; pk_a := horner bits a g;
            pk_c := Z.of_nat (c + length g) |} /\
  0 <= horner bits a g < pw bits (c + length g).
Proof.
  induction g as [|x g IH]; intros row i a c Hg Hc Ha.
  - cbn. by rewrite Nat.add_0_r.
  - inversion Hg as [|? ? Hx Hg']. subst. cbn [length] in Hc.
    cbn [pack_loop]. unfold pack_body. cbn [pk_a pk_c pk_row pk_i].
    destruct (shift_in_group a c ltac:(lia) Ha) as [-> Hb].
    unfold digit in Hx. rewrite lor_shift by lia.
    rewrite ppb_quot.
    destruct (Z.eqb_spec (Z.of_nat c + 1) (Z.of_nat (perByte bits))) as [E|_]; [lia|].
    cbn [mbind option_bind].
    replace (Z.of_nat c + 1) with (Z.of_nat (S c)) by lia.
    rewrite pw_S in Hb.
    destruct (IH row i (a * 2 ^ bits + x) (S c) Hg' ltac:(lia)) as [-> Hh].
    { rewrite pw_S. pose proof bits_pos. nia. }
    rewrite horner_step.
    replace (S c + length g)%nat with (c + S (length g))%nat in * by lia.
    done.
Qed.

Lemma pack_loop_app l1 l2 st :
  pack_loop bits (l1 ++ l2) st
  = (st' ← pack_loop bits l1 st; pack_loop bits l2 st').
Proof.
  revert st. induction l1 as [|x l1 IH]; intros st; [reflexivity|].
  cbn [app pack_loop]. destruct (pack_body bits st x) as [st1|]; [|done].
  cbn [mbind option_bind]. apply IH.
Qed.

Lemma horner_app a g1 g2 :
  horner bits a (g1 ++ g2) = horner bits (horner bits a g1) g2.
Proof. unfold horner. apply fold_left_app. Qed.

Lemma pack_group g x rest row i :
  Forall (digit bits) (g ++ [x]) -> (length g + 1 = (perByte bits))%nat ->
  (i < length row)%nat ->
  pack_loop bits (g ++ x :: rest)
    {| pk_row := row; pk_i := i; pk_a := 0; pk_c := 0 |}
  = pack_loop bits rest
      {| pk_row := splice row i [horner bits 0 (g ++ [x])];
         pk_i := i + 1; pk_a := 0; pk_c := 0 |}.
Proof.
  intros Hg Hlen Hi. apply Forall_app in Hg as [Hg Hx].
  inversion Hx as [|? ? Hx' _]. subst. unfold digit in Hx'.
  rewrite pack_loop_app.
  destruct (pack_partial g row i 0 0%nat Hg ltac:(lia)) as [Hrun Hh].
  { rewrite pw_0. lia. }
  change (Z.of_nat 0) with 0 in Hrun. rewrite Hrun.
  cbn [mbind option_bind pack_loop]. unfold pack_body.
  cbn [pk_a pk_c pk_row pk_i].
  destruct (shift_in_group (horner bits 0 g) (0 + length g) ltac:(lia) Hh)
    as [-> Hb].
  rewrite lor_shift by lia. rewrite ppb_quot.
  destruct (Z.eqb_spec (Z.of_nat (0 + length g) + 1) (Z.of_nat (perByte bits)))
    as [_|E]; [|lia].
  rewrite store_splice by exact Hi. cbn [mbind option_bind].
  by rewrite horner_app.
Qed.

Lemma pad_loop_spec k : forall fuel a (c : nat),
  (c + k = (perByte bits))%nat -> (k <= fuel)%nat -> 0 <= a < pw bits c ->
  pad_loop fuel bits a (Z.of_nat c) = Some (horner bits a (replicate k 0)).
Proof.
  induction k as [|k IH]; intros fuel a c Hc Hf Ha.
  - destruct fuel; cbn [pad_loop]; rewrite ppb_quot;
      (destruct (Z.eqb_spec (Z.of_nat c) (Z.of_nat (perByte bits))); [reflexivity|lia]).
  - destruct fuel as [|fuel]; [lia|]. cbn [pad_loop]. rewrite ppb_quot.
    destruct (Z.eqb_spec (Z.of_nat c) (Z.of_nat (perByte bits))) as [E|_]; [lia|].
    destruct (shift_in_group a c ltac:(lia) Ha) as [-> Hb].
    replace (Z.of_nat c + 1) with (Z.of_nat (S c)) by lia.
    rewrite (IH fuel (a * 2 ^ bits) (S c)) by (lia || exact Hb).
    cbn [replicate]. rewrite horner_step. by rewrite Z.add_0_r.
Qed.


Lemma pack_from fuel : forall idxs row i,
  (length idxs <= fuel)%nat -> Forall (digit bits) idxs ->
  (i + length (packed_with bits fuel idxs) <= length row)%nat ->
  (st ← pack_loop bits idxs
          {| pk_row := row; pk_i := i; pk_a := 0; pk_c := 0 |};
   pack_finish bits st)
  = Some (splice row i (packed_with bits fuel idxs)).
Proof.
  induction fuel as [|fuel IH]; intros idxs row i Hf Hd Hrow.
  - destruct idxs; [|cbn in Hf; lia]. cbn.
    by rewrite splice_nil by (cbn in Hrow; lia).
  - destruct idxs as [|x0 idxs0] eqn:E.
    { cbn. by rewrite splice_nil by (cbn in Hrow; lia). }
    rewrite <- E in *. assert (Hne : (0 < length idxs)%nat) by (subst; cbn; lia).
    assert (Hg : packed_with bits (S fuel) idxs
                 = horner bits 0 (take (perByte bits) idxs
                      ++ replicate ((perByte bits) - length (take (perByte bits) idxs)) 0)
                   :: packed_with bits fuel (drop (perByte bits) idxs)).
    { unfold packed_with. rewrite E at 1. cbn [groups map]. by rewrite <- E. }
    rewrite Hg in *. cbn [length] in Hrow. clear E x0 idxs0.
    pose proof ppb_pos as Hp.
    destruct (decide ((perByte bits) <= length idxs)%nat) as [Hfull|Hpart].
    + (* a whole group *)
      rewrite length_take, Nat.min_l, Nat.sub_diag by lia.
      cbn [replicate]. rewrite app_nil_r.
      rewrite <- (take_drop (perByte bits) idxs) at 1.
      assert (exists g y, take (perByte bits) idxs = g ++ [y]) as (g & y & Et).
      { exists (removelast (take (perByte bits) idxs)), (List.last (take (perByte bits) idxs) 0).
        apply app_removelast_last. intros Et.
        apply (f_equal length) in Et. rewrite length_take in Et.
        cbn in Et. lia. }
      rewrite Et.
      assert (Hlen : (length g + 1 = (perByte bits))%nat).
      { apply (f_equal length) in Et.
        rewrite length_take, length_app in Et. cbn in Et. lia. }
      rewrite <- app_assoc. cbn [app].
      rewrite pack_group; [|rewrite <- Et; by apply Forall_take|lia|lia].
      rewrite IH.
      * f_equal. rewrite splice_splice; [reflexivity|cbn; lia|cbn [length]; lia].
      * rewrite length_drop. lia.
      * by apply Forall_drop.
      * rewrite splice_length by (cbn [length]; lia). lia.
    + (* the last, partial group *)
      rewrite take_ge, drop_ge by lia.
      destruct (pack_partial idxs row i 0 0%nat Hd ltac:(lia)) as [Hrun Hh].
      { rewrite pw_0. lia. }
      change (Z.of_nat 0) with 0 in Hrun. rewrite Hrun.
      cbn [mbind option_bind]. unfold pack_finish. cbn [pk_a pk_c pk_row pk_i].
      destruct (Z.eqb_spec (Z.of_nat (0 + length idxs)) 0) as [E|_]; [lia|].
      cbn [negb].
      pose proof ppb_le as Hle.
      rewrite (pad_loop_spec ((perByte bits) - length idxs) 8 _ (0 + length idxs))
        by first [lia | exact Hh].
      cbn [mbind option_bind]. rewrite store_splice by lia.
      rewrite horner_app. do 2 f_equal.
      unfold packed_with. by destruct fuel.
Qed.


Lemma groups_lookup fuel p : forall (l : list Z) j,
  (1 <= p)%nat -> (length l <= fuel)%nat -> (j * p < length l)%nat ->
  groups fuel p l !! j = Some (take p (drop (j * p) l)).
Proof.
  induction fuel as [|fuel IH]; intros l j Hp Hf Hj; [lia|].
  destruct l as [|x l0] eqn:E; [cbn in Hj; lia|]. rewrite <- E in *.
  assert (groups (S fuel) p l = take p l :: groups fuel p (drop p l)) as ->
    by (rewrite E at 1; cbn [groups]; by rewrite <- E).
  destruct j as [|j]; [reflexivity|]. cbn [lookup list_lookup].
  change (groups fuel p (drop p l) !! j
          = Some (take p (drop (S j * p) l))).
  rewrite IH by (rewrite ?length_drop; cbn [length] in *; lia).
  rewrite drop_drop. repeat f_equal; try lia.
Qed.

Lemma packed_with_length fuel : forall idxs,
  (length idxs <= fuel)%nat ->
  Z.of_nat (length (packed_with bits fuel idxs))
  = (bits * Z.of_nat (length idxs) + 7) / 8.
Proof.
  unfold packed_with. pose proof ppb_pos as Hp.
  assert (Hq : bits * Z.of_nat (perByte bits) = 8)
    by (unfold perByte; destruct Hbits as [E|[E|E]]; rewrite E; reflexivity).
  induction fuel as [|fuel IH]; intros idxs Hf.
  - destruct idxs; [|cbn in Hf; lia]. cbn. by rewrite Z.mul_0_r.
  - destruct idxs as [|x idxs0] eqn:E; [cbn; by rewrite Z.mul_0_r|].
    rewrite <- E in *.
    assert (Hne : (0 < length idxs)%nat) by (subst; cbn; lia).
    assert (groups (S fuel) (perByte bits) idxs
            = take (perByte bits) idxs
              :: groups fuel (perByte bits) (drop (perByte bits) idxs)) as ->
      by (rewrite E at 1; cbn [groups]; by rewrite <- E).
    cbn [map length]. rewrite Nat2Z.inj_succ, IH by (rewrite length_drop; lia).
    rewrite length_drop.
    destruct (decide (perByte bits <= length idxs)%nat) as [Hfull|Hpart].
    + rewrite Nat2Z.inj_sub by lia.
      replace (bits * (Z.of_nat (length idxs) - Z.of_nat (perByte bits)) + 7)
        with (bits * Z.of_nat (length idxs) + 7 + (-1) * 8) by lia.
      rewrite Z.div_add by lia. lia.
    + replace (length idxs - perByte bits)%nat with 0%nat by lia.
      rewrite Z.mul_0_r. change ((0 + 7) / 8) with 0.
      assert (0 < bits * Z.of_nat (length idxs) < 8) by nia.
      change (Z.succ 0) with 1.
      apply (Z.div_unique _ _ _ (bits * Z.of_nat (length idxs) - 1)); lia.
Qed.

Lemma horner_digit g : Forall (digit bits) g ->
  forall r x, g !! r = Some x ->
    (horner bits 0 g / pw bits (length g - 1 - r)) `mod` 2 ^ bits = x.
Proof.
  pose proof bits_pos as HB.
  induction g as [|y g IH] using rev_ind; intros Hg r x Hr; [done|].
  apply Forall_app in Hg as [Hg Hy]. inversion Hy as [|? ? Hy' _]. subst.
  unfold digit in Hy'. rewrite horner_app. cbn [horner fold_left].
  rewrite length_app. cbn [length].
  destruct (decide (r < length g)%nat) as [Hlt|Hge].
  - rewrite lookup_app_l in Hr by exact Hlt.
    replace (length g + 1 - 1 - r)%nat with (S (length g - 1 - r)) by lia.
    rewrite pw_S, (Z.mul_comm (pw bits _)).
    rewrite <- Z.div_div by (pose proof (pw_pos (length g - 1 - r)); lia).
    rewrite Z.div_add_l by lia. rewrite (Z.div_small y) by lia.
    rewrite Z.add_0_r. by apply IH.
  - rewrite lookup_app_r in Hr by lia.
    destruct (r - length g)%nat eqn:Ed; [|by destruct n].
    injection Hr as <-.
    replace (length g + 1 - 1 - r)%nat with 0%nat by lia.
    rewrite pw_0, Z.div_1_r, Z.add_comm, Z.mod_add by lia.
    apply Z.mod_small. lia.
Qed.

(** X19.  A row of colour indices of 1, 2 or 4 bits is packed without
    loss: the row buffer is filled exactly, and pixel [k] is read back
    from byte [k / ppb], counting the pixels of a byte from its high
    end. *)
Theorem pack_row_layout (idxs : list Z) (t : Z) (d : list Z) :
  Forall (digit bits) idxs ->
  Z.of_nat (length d) = (bits * Z.of_nat (length idxs) + 7) / 8 ->
  pack_row bits idxs (t :: d) = Some (t :: packed bits idxs) /\
  length (packed bits idxs) = length d /\
  forall k x, idxs !! k = Some x ->
    (FilterSpec.byte_at (packed bits idxs) (k / perByte bits)
       / 2 ^ (bits * Z.of_nat (perByte bits - 1 - k mod perByte bits)))
    `mod` 2 ^ bits = x.
Proof.
  intros Hd Hlen. pose proof ppb_pos as Hp.
  assert (HL : length (packed bits idxs) = length d).
  { pose proof (packed_with_length (length idxs) idxs ltac:(lia)) as HL.
    unfold packed. lia. }
  split; [|split; [exact HL|]].
  - unfold pack_row.
    pose proof (pack_from (length idxs) idxs (t :: d) 1 ltac:(lia) Hd) as Hrun.
    unfold pack_finish in Hrun. fold (packed bits idxs) in Hrun.
    rewrite Hrun by (cbn [length]; lia). f_equal.
    unfold splice. cbn [take app]. f_equal.
    rewrite drop_ge by (cbn [length]; lia). apply app_nil_r.
  - intros k x Hk.
    pose proof (lookup_lt_Some _ _ _ Hk) as Hkl.
    pose proof (Nat.div_mod_eq k (perByte bits)) as Hdm.
    pose proof (Nat.mod_upper_bound k (perByte bits) ltac:(lia)) as Hr.
    set (j := (k / perByte bits)%nat) in *.
    set (r := (k mod perByte bits)%nat) in *.
    assert (Hj : (j * perByte bits < length idxs)%nat) by nia.
    set (g := take (perByte bits) (drop (j * perByte bits) idxs)).
    set (gz := g ++ replicate (perByte bits - length g) 0).
    assert (Hbyte : FilterSpec.byte_at (packed bits idxs) j
                    = horner bits 0 gz).
    { unfold FilterSpec.byte_at, packed, packed_with.
      rewrite nth_lookup, list_lookup_fmap.
      by rewrite (groups_lookup _ _ idxs j Hp) by lia. }
    rewrite Hbyte.
    assert (Hgl : (length g <= perByte bits)%nat)
      by (subst g; rewrite length_take; lia).
    assert (Hgzl : length gz = perByte bits)
      by (subst gz; rewrite length_app, length_replicate; lia).
    assert (Hgz : Forall (digit bits) gz).
    { subst gz g. apply Forall_app. split.
      - by apply Forall_take, Forall_drop.
      - apply Forall_replicate. unfold digit. pose proof bits_pos. lia. }
    assert (Hx : gz !! r = Some x).
    { subst gz g. rewrite lookup_app_l.
      - rewrite lookup_take_lt by lia. rewrite lookup_drop.
        rewrite <- Hk. f_equal. lia.
      - rewrite length_take, length_drop. lia. }
    pose proof (horner_digit gz Hgz r x Hx) as Hdig.
    rewrite Hgzl in Hdig. exact Hdig.
Qed.

End Packing.

Lemma pack_row_layout_witness :
  pack_row 2 [1; 2; 3; 0; 3] [0; 0; 0] = Some (0 :: packed 2 [1; 2; 3; 0; 3]).
Proof.
  apply (pack_row_layout 2 ltac:(tauto) [1; 2; 3; 0; 3] 0 [0; 0]).
  - repeat constructor; unfold digit; lia.
  - reflexivity.
Defined.

(** ** The image data on the wire *)

Section ImageData.

Context `{Collaborators}.

Lemma write_blocks_accepting blocks : forall e,
  err e = None -> accepting (w e) -> Forall fits_chunk blocks ->
  let e' := write_blocks e blocks in
  err e' = None /\ accepting (w e') /\
  out (w e') = out (w e) ++ concat (map (frame "IDAT") blocks).
Proof.
  induction blocks as [|b blocks IH]; intros e He Ha Hb; cbn.
  - by rewrite app_nil_r.
  - inversion Hb as [|? ? Hb1 Hb2]. subst.
    destruct (writeChunk_accepting e b "IDAT" He Ha Hb1) as (E & A & O & _).
    destruct (IH _ E A Hb2) as (E' & A' & O').
    split; [exact E'|]. split; [exact A'|].
    unfold write_blocks in O'. rewrite O', O. by rewrite <- app_assoc.
Qed.

Lemma row_loop_accepting m c level k : forall i st lines,
  lines_from k i m c level (rs_cr st) (rs_pr st) = Some lines ->
  err (rs_e st) = None -> accepting (w (rs_e st)) ->
  Forall fits_chunk (snd (feed (rs_zw st) lines)) ->
  exists st',
    for_loop k i (row_body m c level) st = Some st' /\
    err (rs_e st') = None /\ accepting (w (rs_e st')) /\
    rs_zw st' = fst (feed (rs_zw st) lines) /\
    out (w (rs_e st'))
    = out (w (rs_e st))
      ++ concat (map (frame "IDAT") (snd (feed (rs_zw st) lines))).
Proof.
  induction k as [|k IH]; intros i st lines Hl He Ha Hfit;
    cbn [lines_from for_loop] in *.
  - injection Hl as <-. exists st. cbn. by rewrite app_nil_r.
  - apply bind_Some in Hl as ([f cr'] & Hf & Hl).
    apply bind_Some in Hl as (line & Hline & Hl).
    apply bind_Some in Hl as (rest & Hrest & Hl).
    injection Hl as <-. cbn [feed] in Hfit |- *.
    unfold row_body. cbn zeta. rewrite Hf. cbn [mbind option_bind].
    rewrite Hline. cbn [mbind option_bind].
    destruct (zs_write (rs_zw st) line) as [zw1 b1] eqn:Hw.
    destruct (feed zw1 rest) as [zw2 b2] eqn:Hfeed. cbn [fst snd] in *.
    apply Forall_app in Hfit as [Hb1 Hb2].
    destruct (write_blocks_accepting b1 (rs_e st) He Ha Hb1) as (E & A & O).
    rewrite E.
    destruct (IH (S i)
                {| rs_cr := set_row0 cr' (rs_pr st); rs_pr := row0 cr';
                   rs_zw := zw1; rs_e := write_blocks (rs_e st) b1 |}
                rest Hrest E A) as (st' & Hrun & E' & A' & Z' & O').
    { cbn [rs_zw]. by rewrite Hfeed. }
    cbn [rs_zw rs_e] in *. rewrite Hfeed in Z', O'. cbn [fst snd] in *.
    exists st'. split; [exact Hrun|]. split; [exact E'|].
    split; [exact A'|]. split; [exact Z'|].
    rewrite O', O, map_app, concat_app. by rewrite <- app_assoc.
Qed.

Lemma writeIDATs_run (e : encoder) (m : PixelImage) (blocks : list (list Z)) :
  err e = None -> accepting (w e) ->
  0 <= Dx (Bounds m) ->
  image_blocks m (cbits e) (levelToZlib (CompressionLevel (enc e)))
  = Some blocks ->
  Forall fits_chunk blocks ->
  exists e',
    writeIDATs e m = Some e' /\ err e' = None /\ accepting (w e') /\
    out (w e') = out (w e) ++ concat (map (frame "IDAT") blocks).
Proof.
  intros He Ha Hdx Hblocks Hfit.
  unfold image_blocks in Hblocks. cbn zeta in Hblocks.
  apply bind_Some in Hblocks as (lines & Hlines & Hblocks).
  set (level := levelToZlib (CompressionLevel (enc e))) in *.
  destruct (feed (zs_new level) lines) as [zw1 bs] eqn:Hfeed.
  destruct (zs_close zw1) as [zw2 bc] eqn:Hclose.
  injection Hblocks as <-.
  apply Forall_app in Hfit as [Hbs Hfit].
  apply Forall_app in Hfit as [Hbc Hbf].
  unfold writeIDATs. rewrite He. fold level. unfold writeImage. cbn zeta.
  set (sz := Z.to_nat (1 + _)) in *.
  assert (Hsz : sz <> 0%nat).
  { subst sz.
    assert (0 <= bitsPerPixel (cbits e)) by (destruct (cbits e); cbn; lia).
    assert (0 <= (bitsPerPixel (cbits e) * Dx (Bounds m) + 7) `quot` 8)
      by (apply Z.quot_pos; nia).
    lia. }
  rewrite decide_False by exact Hsz.
  set (st0 := {| rs_cr := _; rs_pr := _; rs_zw := zs_new level; rs_e := e |}).
  destruct (row_loop_accepting m (cbits e) level _ 0 st0 lines Hlines He Ha)
    as (st' & Hrun & E' & A' & Z' & O').
  { subst st0. cbn [rs_zw]. by rewrite Hfeed. }
  subst st0. cbn [rs_zw rs_e] in *. rewrite Hfeed in Z', O'.
  cbn [fst snd] in *. rewrite Hrun. cbn [mbind option_bind].
  rewrite Z', Hclose, E'.
  destruct (write_blocks_accepting bc (rs_e st') E' A' Hbc) as (E1 & A1 & O1).
  cbn [mbind option_bind]. rewrite E1.
  assert (Hset : set_err (write_blocks (rs_e st') bc) None
                 = write_blocks (rs_e st') bc)
    by (rewrite <- E1; apply set_err_same).
  rewrite Hset.
  destruct (write_blocks_accepting (zs_flush zw2) _ E1 A1 Hbf)
    as (E2 & A2 & O2).
  eexists. split; [reflexivity|]. split; [exact E2|]. split; [exact A2|].
  rewrite O2, O1, O', !map_app, !concat_app. by rewrite <- !app_assoc.
Qed.

(** X20.  When no write fails, the IDAT chunks carry the blocks of the
    compressor, every one of them and in the order in which they were
    handed over: those of the rows, those of [Close], those of the last
    [Flush]. *)
Theorem idat_stream (e : encoder) (m : PixelImage) (blocks : list (list Z)) :
  err e = None -> accepting (w e) ->
  0 <= Dx (Bounds m) ->
  image_blocks m (cbits e) (levelToZlib (CompressionLevel (enc e)))
  = Some blocks ->
  Forall fits_chunk blocks ->
  exists e',
    writeIDATs e m = Some e' /\ err e' = None /\
    out (w e') = out (w e) ++ concat (map (frame "IDAT") blocks).
Proof.
  intros He Ha Hdx Hblocks Hfit.
  destruct (writeIDATs_run e m blocks He Ha Hdx Hblocks Hfit)
    as (e' & Hrun & E & _ & O).
  by exists e'.
Qed.

End ImageData.

Lemma idat_stream_witness :
  exists e',
    writeIDATs (H := stored) (set_cb (new_session fresh_sink) cbG8)
               (gray_image 2 2 65535) = Some e' /\
    err e' = None /\
    out (w e')
    = out fresh_sink
      ++ concat (map (frame (H := stored) "IDAT") [[2; 0; 10; 2; 1; 1]]).
Proof.
  apply (idat_stream (H := stored) (set_cb (new_session fresh_sink) cbG8)
           (gray_image 2 2 65535) [[2; 0; 10; 2; 1; 1]]).
  - reflexivity.
  - intros k. reflexivity.
  - vm_compute. discriminate.
  - vm_compute. reflexivity.
  - repeat constructor.
Defined.

(** ** The output of a whole call *)

Section WholeCall.

Context `{Collaborators}.

Lemma u32_small x : 0 <= x < 4294967296 -> u32 x = x.
Proof. intros Hx. apply Z.mod_small. lia. Qed.

Lemma select_cb_valid (m : PixelImage) :
  exists depth ct, depth_and_type (select_cb m) = Some (depth, ct).
Proof.
  unfold select_cb. destruct (palette_of m) as [pal|].
  - destruct (length pal <=? 2)%nat; [|destruct (length pal <=? 4)%nat;
      [|destruct (length pal <=? 16)%nat]]; by do 2 eexists.
  - destruct (Model m), (opaque m); by do 2 eexists.
Qed.

(** X21.  The whole output for a source without a palette, written
    without options to a sink that takes every write: the signature,
    the IHDR chunk, the IDAT chunks of the compressor's blocks and IEND,
    and no error. *)
Theorem encode_stream (en : Encoder) (w0 : sink) (pm : PixelImage)
    (blocks : list (list Z)) :
  accepting w0 ->
  palette_of pm = None ->
  0 < Dx (Bounds pm) < 4294967296 ->
  0 < Dy (Bounds pm) < 4294967296 ->
  image_blocks pm (select_cb pm) (levelToZlib (CompressionLevel en))
  = Some blocks ->
  Forall fits_chunk blocks ->
  exists s depth ct,
    depth_and_type (select_cb pm) = Some (depth, ct) /\
    EncodeExtended en w0 (Pixels pm) [] = Some (s, None) /\
    out s = out w0 ++ pngHeader
            ++ frame "IHDR" (be32 (Dx (Bounds pm)) ++ be32 (Dy (Bounds pm))
                             ++ [depth; ct; 0; 0; 0])
            ++ concat (map (frame "IDAT") blocks)
            ++ frame "IEND" [].
Proof.
  intros Hacc Hpal Hdx Hdy Hblocks Hfit.
  destruct (select_cb_valid pm) as (depth & ct & Hcb).
  unfold EncodeExtended. cbn [scan_opts size_error].
  assert (Hsize : bad_size (Dx (Bounds pm)) (Dy (Bounds pm)) = false).
  { destruct (bad_size _ _) eqn:E; [|reflexivity].
    apply bad_size_spec in E. lia. }
  rewrite Hsize. cbn zeta. rewrite Hpal.
  set (e0 := start_session en w0 (Pixels pm)).
  assert (Ha0 : accepting (w e0)) by (subst e0; by rewrite start_session_sink).
  destruct (write_to_sink_accepting e0 pngHeader Ha0)
    as (E1 & A1 & O1 & T1 & C1).
  set (e1 := write_to_sink e0 pngHeader) in *.
  assert (K1 : cbits e1 = select_cb pm)
    by (pose proof (write_to_sink_facts e0 pngHeader) as (_ & K & _);
        exact K).
  cbn [write_header_chunk].
  destruct (writeIHDR_run e1 pm depth ct) as (t & Ht & ->).
  { by rewrite T1. }
  { by rewrite K1. }
  cbn [mbind option_bind write_metadata write_palette_chunks maybeWriteHIST
       write_image_data].
  rewrite !u32_small by lia.
  set (hdr := be32 _ ++ be32 _ ++ _).
  destruct (writeChunk_accepting (set_tmp e1 t) hdr "IHDR" E1 A1)
    as (E2 & A2 & O2 & T2 & C2); [subst hdr; cbn; lia|].
  pose proof (writeChunk_steps (set_tmp e1 t) hdr "IHDR")
    as ((_ & K2 & _) & _).
  set (e2 := writeChunk (set_tmp e1 t) hdr "IHDR") in *.
  destruct (writeIDATs_run e2 pm blocks E2 A2 ltac:(lia))
    as (e3 & -> & E3 & A3 & O3).
  { rewrite K2, C2. cbn [cbits enc set_tmp]. rewrite K1, C1.
    subst e0. exact Hblocks. }
  { exact Hfit. }
  cbn [mbind option_bind].
  destruct (writeChunk_accepting e3 [] "IEND" E3 A3 ltac:(cbn; lia))
    as (E4 & A4 & O4 & _).
  unfold writeIEND. eexists. exists depth, ct.
  split; [exact Hcb|]. split; [by rewrite E4|].
  rewrite O4, O3, O2. cbn [w set_tmp]. rewrite O1.
  subst e0. rewrite start_session_sink. by rewrite <- !app_assoc.
Qed.

End WholeCall.

Lemma encode_stream_witness :
  exists s depth ct,
    depth_and_type (select_cb (gray_image 2 2 65535)) = Some (depth, ct) /\
    EncodeExtended (H := stored) default_encoder fresh_sink
                   (Pixels (gray_image 2 2 65535)) [] = Some (s, None) /\
    out s = out fresh_sink ++ pngHeader
            ++ frame (H := stored) "IHDR"
                 (be32 (Dx (Bounds (gray_image 2 2 65535)))
                  ++ be32 (Dy (Bounds (gray_image 2 2 65535)))
                  ++ [depth; ct; 0; 0; 0])
            ++ concat (map (frame (H := stored) "IDAT")
                           [[2; 0; 10; 2; 1; 1]])
            ++ frame (H := stored) "IEND" [].
Proof.
  apply (encode_stream (H := stored) default_encoder fresh_sink
           (gray_image 2 2 65535) [[2; 0; 10; 2; 1; 1]]).
  - intros k. reflexivity.
  - reflexivity.
  - vm_compute. split; reflexivity.
  - vm_compute. split; reflexivity.
  - vm_compute. reflexivity.
  - repeat constructor.
Defined.
